(** * OpenEcho: a verification development

    A shallow embedding of the parts of the OpenEcho agent that its design
    document makes promises about:

    - [Heartbeat]  : the cooldown tracker of [src/heartbeat.ts];
    - [Transport]  : the retrying HTTP helper [apiRequest] of [src/tools.ts];
    - [Analytics]  : [analyze_sentiment] and [analyze_anomaly] of [src/tools.ts];
    - [Agent]      : tool dispatch, the search fallback and the four
                     orchestration loops of [src/agent.ts].

    Conventions.  JavaScript numbers that hold counts, HTTP statuses and
    millisecond timestamps are integers ([Z]).  Quotients of such integers
    that the source compares against decimal thresholds are exact rationals
    ([Q]).  The wall clock, the network, the model provider and the tool
    handlers are external: they appear as explicit arguments or as the
    variables of a section.  So are the engine's [toLowerCase] and [trim]
    and the write of [identityManager.updateLastActive]: they are the
    members of the classes [Js.Runtime] and [Transport.IdentityWrites],
    and every general statement holds for all their instances. *)

From Stdlib Require Import ZArith List String Ascii Bool Lia QArith DecimalString.
From Stdlib Require Import Sorted Permutation.
Import ListNotations.

(* ====================================================================== *)
(** * JavaScript strings and JSON values *)
(* ====================================================================== *)

(** Strings are byte strings (UTF-8).  The functions [toLowerCase] and
    [trim] of this module act on the ASCII range only (letters [A]-[Z];
    blank, tab, line feed, vertical tab, form feed, carriage return) and
    leave every other byte alone.  JavaScript's methods of the same names
    also fold letters and strip blanks outside that range; they are the
    subject of [Js.Runtime] below.  The functions of this module stand for
    them in two places only.  In [isSearchFailure], which looks for the
    ASCII needle "search failed" in the folded text, the two decide alike:
    the only characters outside the ASCII range whose folded form holds an
    ASCII letter are U+0130 and U+212A, and neither form fits into the
    needle.  In [Trends.words], which goes on to blank every character
    outside [a-z0-9], the two differ on these two characters only. *)
Module Str.
Local Open Scope string_scope.

Definition is_upper (c : ascii) : bool :=
  let n := nat_of_ascii c in (65 <=? n)%nat && (n <=? 90)%nat.

Definition lower_char (c : ascii) : ascii :=
  if is_upper c then ascii_of_nat (nat_of_ascii c + 32) else c.

Fixpoint toLowerCase (s : string) : string :=
  match s with
  | EmptyString => EmptyString
  | String c r => String (lower_char c) (toLowerCase r)
  end.

Definition is_space (c : ascii) : bool :=
  let n := nat_of_ascii c in
  ((9 <=? n)%nat && (n <=? 13)%nat) || (n =? 32)%nat.

Fixpoint trimStart (s : string) : string :=
  match s with
  | String c r => if is_space c then trimStart r else s
  | EmptyString => EmptyString
  end.

Definition reverse (s : string) : string :=
  string_of_list_ascii (rev (list_ascii_of_string s)).

Definition trimEnd (s : string) : string := reverse (trimStart (reverse s)).

Definition trim (s : string) : string := trimEnd (trimStart s).

(** [hay.includes(needle)]. *)
Fixpoint includes (hay needle : string) : bool :=
  if prefix needle hay then true
  else match hay with
       | EmptyString => false
       | String _ r => includes r needle
       end.

(** [`${n}`] for an integer. *)
Definition ofZ (n : Z) : string := NilZero.string_of_int (Z.to_int n).

End Str.

(** [String.prototype.toLowerCase] and [String.prototype.trim] as the
    engine provides them.  They are not defined here: the code is verified
    for every pair of functions, so for the engine's.  On a text of ASCII
    characters they are the functions of [Str]; the instance [Js.ascii] is
    what the examples are evaluated with, and every text an example folds
    or trims is such a text. *)
Module Js.

Class Runtime : Type := {
  toLowerCase : string -> string;
  trim : string -> string
}.

#[global] Instance ascii : Runtime := {|
  toLowerCase := Str.toLowerCase;
  trim := Str.trim
|}.

End Js.

(** JSON values as [JSON.parse] and [response.json()] produce them.
    Numbers are integers.  An object is the list of its properties, each
    key listed once; a property that is missing reads as [undefined]
    ([None]). *)
Module Json.
Local Open Scope string_scope.

#[local] Set Warnings "-register-all".

Inductive json : Type :=
| JNull
| JBool (b : bool)
| JNum (n : Z)
| JStr (s : string)
| JArr (items : list json)
| JObj (props : list (string * json)).

Fixpoint assoc (k : string) (props : list (string * json)) : option json :=
  match props with
  | [] => None
  | (k', v) :: rest => if String.eqb k k' then Some v else assoc k rest
  end.

(** [v.k] when [v] is known not to be [null]: a property of an object, and
    [undefined] on anything else (no key read by the code is an own
    property of a string, number, boolean or array). *)
Definition prop (v : json) (k : string) : option json :=
  match v with
  | JObj props => assoc k props
  | _ => None
  end.

(** The message of the [TypeError] raised by reading property [k] of
    [null]. *)
Definition null_read (k : string) : string :=
  "TypeError: Cannot read properties of null (reading '" ++ k ++ "')".

(** [v?.k] for a possibly [undefined] value [v]. *)
Definition oprop (v : option json) (k : string) : option json :=
  match v with
  | Some j => prop j k
  | None => None
  end.

(** Truthiness of a possibly [undefined] value. *)
Definition truthy (v : option json) : bool :=
  match v with
  | None | Some JNull | Some (JBool false) | Some (JNum 0) | Some (JStr "") => false
  | Some _ => true
  end.

(** [a || b]. *)
Definition or_else (a : option json) (b : json) : json :=
  match a with
  | Some v => if truthy a then v else b
  | None => b
  end.

(** An object literal: a property whose value is [undefined] is left out,
    as [JSON.stringify] does. *)
Definition obj (fields : list (string * option json)) : json :=
  JObj (flat_map (fun kv => match snd kv with
                            | Some v => [(fst kv, v)]
                            | None => []
                            end) fields).

(** [String(v)], as a template literal renders a value. *)
Fixpoint toString (v : json) : string :=
  match v with
  | JNull => "null"
  | JBool true => "true"
  | JBool false => "false"
  | JNum n => Str.ofZ n
  | JStr s => s
  | JArr items =>
      let fix join (l : list json) : string :=
        match l with
        | [] => ""
        | x :: rest =>
            let sx := match x with JNull => "" | _ => toString x end in
            match rest with
            | [] => sx
            | _ => sx ++ "," ++ join rest
            end
        end in
      join items
  | JObj _ => "[object Object]"
  end.

(** [`${v ?? ""}`]. *)
Definition template (v : option json) : string :=
  match v with
  | None | Some JNull => ""
  | Some x => toString x
  end.

End Json.

(* ====================================================================== *)
(** * Cooldown tracker ([src/heartbeat.ts]) *)
(* ====================================================================== *)

Module Heartbeat.
Local Open Scope Z_scope.

(** [DEFAULT_HEARTBEAT_INTERVAL_MS] and [MIN_HEARTBEAT_INTERVAL_MS]. *)
Definition DEFAULT_HEARTBEAT_INTERVAL_MS : Z := 4 * 60 * 60 * 1000.
Definition MIN_HEARTBEAT_INTERVAL_MS : Z := 1 * 60 * 60 * 1000.

(** A persisted time field has type [string | null].  The code only ever
    tests it for truthiness and feeds it to [new Date(_).getTime()]:
    - [Absent]     : [null] or the empty string (falsy);
    - [Unparsable] : a truthy string that [Date] cannot parse, so that
                     [getTime()] is [NaN];
    - [At ms]      : an ISO string; [toISOString] and [Date] parsing
                     round-trip at millisecond resolution, so the field is
                     identified with its epoch milliseconds. *)
Inductive Stamp : Type :=
| Absent
| Unparsable
| At (ms : Z).

(** [HeartbeatState] ([lastResult] is never read by the functions below). *)
Record HeartbeatState : Type := mkState {
  lastCheck : Stamp;
  lastPost : Stamp;
  lastComment : Stamp;
  checkCount : Z
}.

(** The state [loadState] returns when no file exists. *)
Definition defaultState : HeartbeatState :=
  {| lastCheck := Absent; lastPost := Absent; lastComment := Absent;
     checkCount := 0 |}.

(** [!field]: is the field falsy? *)
Definition falsy (s : Stamp) : bool :=
  match s with Absent => true | _ => false end.

(** [new Date(field).getTime()]; [None] stands for [NaN]. *)
Definition getTime (s : Stamp) : option Z :=
  match s with At t => Some t | _ => None end.

(** [now - time >= bound]; every comparison with [NaN] is false. *)
Definition elapsed_at_least (now : Z) (time : option Z) (bound : Z) : bool :=
  match time with
  | Some t => bound <=? now - t
  | None => false
  end.

(** [shouldRunHeartbeat(intervalMs)], with [Date.now()] passed as [now]. *)
Definition shouldRunHeartbeat (intervalMs now : Z) (st : HeartbeatState) : bool :=
  let effectiveInterval := Z.max intervalMs MIN_HEARTBEAT_INTERVAL_MS in
  if falsy (lastCheck st) then true
  else
    let lastCheckTime := getTime (lastCheck st) in
    elapsed_at_least now lastCheckTime effectiveInterval.

(** [canPost()]: 30 minute cooldown. *)
Definition canPost (now : Z) (st : HeartbeatState) : bool :=
  if falsy (lastPost st) then true
  else
    let lastPostTime := getTime (lastPost st) in
    let cooldownMs := 30 * 60 * 1000 in
    elapsed_at_least now lastPostTime cooldownMs.

(** [canComment()]: 20 second cooldown. *)
Definition canComment (now : Z) (st : HeartbeatState) : bool :=
  if falsy (lastComment st) then true
  else
    let lastCommentTime := getTime (lastComment st) in
    let cooldownMs := 20 * 1000 in
    elapsed_at_least now lastCommentTime cooldownMs.

(** [recordPost()] and [recordComment()]: the field becomes the current
    time (the write to disk does not change the in-memory state). *)
Definition recordPost (now : Z) (st : HeartbeatState) : HeartbeatState :=
  {| lastCheck := lastCheck st; lastPost := At now;
     lastComment := lastComment st; checkCount := checkCount st |}.

Definition recordComment (now : Z) (st : HeartbeatState) : HeartbeatState :=
  {| lastCheck := lastCheck st; lastPost := lastPost st;
     lastComment := At now; checkCount := checkCount st |}.

(** "A prior action is recorded at [t] and at least [bound] ms have passed". *)
Definition elapsed (now : Z) (s : Stamp) (bound : Z) : Prop :=
  exists t, s = At t /\ bound <= now - t.

End Heartbeat.

(* ====================================================================== *)
(** * Transport layer ([apiRequest] in [src/tools.ts]) *)
(* ====================================================================== *)

Module Transport.
Import Json.
Local Open Scope string_scope.
Local Open Scope Z_scope.

Definition MOLTBOOK_API_BASE : string := "https://www.moltbook.com/api/v1".
Definition DEFAULT_MAX_RETRIES : Z := 3.
Definition RETRY_DELAY_BASE_MS : Z := 1000.

(** [ApiResponse<T>]. *)
Record RateLimit : Type := mkRateLimit {
  retryAfterSeconds : option json;
  retryAfterMinutes : option json;
  dailyRemaining : option json
}.

Record Debug : Type := mkDebug {
  status : Z;
  endpoint : string;
  retries : Z;
  requestedIdentity : option string;
  resolvedIdentity : option string;
  hasCurrentIdentity : option bool
}.

Record ApiResponse : Type := mkApiResponse {
  success : bool;
  data : option json;
  error : option json;
  hint : option json;
  debug : option Debug;
  rateLimit : option RateLimit
}.

(** What one [fetch] does: it rejects (network failure), or resolves to a
    response with a status and a body; [body = None] when
    [response.json()] rejects, in which case the code uses [{}]. *)
Inductive FetchOutcome : Type :=
| NetworkFailure (reason : string)
| Response (code : Z) (body : option json).

(** What the call does to the outside world, in order: the [attempt]-th
    [fetch], a pause, and the call
    [identityManager.updateLastActive(name)] with the name it is given. *)
Inductive Effect : Type :=
| Fetch (attempt : Z)
| Sleep (ms : Z)
| UpdateLastActive (name : option string).

(** [identityManager.updateLastActive(name)] of [src/identity.ts] as
    [apiRequest] sees it: it returns ([None]), or it throws because
    [saveConfig] could not write the file, and [Some reason] is how the
    exception renders in [`${error}`].  The second argument is the attempt
    of the call it is made in.  Which identity it marks is the manager's
    business: it looks up [name || config.default] exactly as given,
    blanks included. *)
Class IdentityWrites : Type := {
  updateLastActive : option string -> Z -> option string
}.

(** A store that can always be written. *)
#[global] Instance writable : IdentityWrites := {|
  updateLastActive := fun _ _ => None
|}.

(** A store whose file cannot be written. *)
Definition read_only : IdentityWrites := {|
  updateLastActive := fun _ _ =>
    Some "Error: 保存身份配置失败: Error: EACCES: permission denied"
|}.

(** What one pass through the body of the retry loop decides. *)
Inductive Step : Type :=
| Return (r : ApiResponse) (effects : list Effect)
| Next (lastError : json) (lastStatus : Z) (effects : list Effect).

Section ApiRequest.

Context {rt : Js.Runtime} {store : IdentityWrites}.

(** The identity store: [identityManager.getApiKey] and the name of
    [identityManager.getCurrent()]. *)
Variable getApiKey : option string -> option string.
Variable getCurrent : option string.

(** The platform: what the [attempt]-th [fetch] of this call yields. *)
Variable server : Z -> FetchOutcome.

Variable endpointPath : string.
Variable identityName : option string.
Variable maxRetries : Z.

(** [identityName?.trim() || undefined]. *)
Definition normalizedIdentity : option string :=
  match identityName with
  | Some n => if String.eqb (Js.trim n) "" then None else Some (Js.trim n)
  | None => None
  end.

(** [normalizedIdentity || current?.name || null]. *)
Definition resolved : option string :=
  match normalizedIdentity with
  | Some n => Some n
  | None => match getCurrent with
            | Some "" => None
            | c => c
            end
  end.

Definition hasCurrent : bool :=
  match getCurrent with Some _ => true | None => false end.

Definition fullUrl : string := MOLTBOOK_API_BASE ++ endpointPath.

(** The [catch] clause of the loop body. *)
Definition on_exception (attempt : Z) (lastStatus : Z) (reason : string)
  : Step :=
  let lastError := JStr ("网络请求失败: " ++ reason) in
  if attempt <? maxRetries
  then Next lastError lastStatus [Fetch attempt; Sleep (RETRY_DELAY_BASE_MS * attempt)]
  else Next lastError lastStatus [Fetch attempt].

(** The [catch] clause when it is [updateLastActive] that threw, after a
    2xx answer. *)
Definition on_write_failure (attempt : Z) (lastStatus : Z) (reason : string)
  : Step :=
  let lastError := JStr ("网络请求失败: " ++ reason) in
  if attempt <? maxRetries
  then Next lastError lastStatus
            [Fetch attempt; UpdateLastActive identityName;
             Sleep (RETRY_DELAY_BASE_MS * attempt)]
  else Next lastError lastStatus [Fetch attempt; UpdateLastActive identityName].

(** The body of the loop for one [attempt]. *)
Definition attempt_once (attempt : Z) (lastStatus : Z) : Step :=
  match server attempt with
  | NetworkFailure reason => on_exception attempt lastStatus reason
  | Response code body =>
      let lastStatus := code in
      let data := match body with Some d => d | None => JObj [] end in
      if (200 <=? code) && (code <=? 299) then
        match updateLastActive identityName attempt with
        | None =>
            Return {| success := true; data := Some data; error := None;
                      hint := None; debug := None; rateLimit := None |}
                   [Fetch attempt; UpdateLastActive identityName]
        | Some reason => on_write_failure attempt lastStatus reason
        end
      else if code =? 429 then
        match data with
        | JNull => on_exception attempt lastStatus (null_read "error")
        | _ =>
          Return {| success := false; data := None;
                    error := Some (or_else (prop data "error")
                                     (JStr "请求过于频繁，请稍后再试"));
                    hint := prop data "hint";
                    debug := Some {| status := 429; endpoint := fullUrl;
                                     retries := attempt;
                                     requestedIdentity := None;
                                     resolvedIdentity := None;
                                     hasCurrentIdentity := None |};
                    rateLimit := Some
                      {| retryAfterSeconds := prop data "retry_after_seconds";
                         retryAfterMinutes := prop data "retry_after_minutes";
                         dailyRemaining := prop data "daily_remaining" |} |}
                 [Fetch attempt]
        end
      else if (400 <=? code) && (code <? 500) then
        match data with
        | JNull => on_exception attempt lastStatus (null_read "error")
        | _ =>
          Return {| success := false; data := None;
                    error := Some (or_else (prop data "error")
                                     (JStr ("请求失败: HTTP " ++ Str.ofZ code)));
                    hint := prop data "hint";
                    debug := Some {| status := code; endpoint := fullUrl;
                                     retries := attempt;
                                     requestedIdentity := identityName;
                                     resolvedIdentity := resolved;
                                     hasCurrentIdentity := None |};
                    rateLimit := None |}
                 [Fetch attempt]
        end
      else
        match data with
        | JNull => on_exception attempt lastStatus (null_read "error")
        | _ =>
          let lastError :=
            or_else (prop data "error")
                    (JStr ("服务器错误: HTTP " ++ Str.ofZ code)) in
          if attempt <? maxRetries then
            Next lastError lastStatus
                 [Fetch attempt; Sleep (RETRY_DELAY_BASE_MS * attempt)]
          else
            Return {| success := false; data := None;
                      error := Some lastError;
                      hint := prop data "hint";
                      debug := Some {| status := code; endpoint := fullUrl;
                                       retries := attempt;
                                       requestedIdentity := identityName;
                                       resolvedIdentity := resolved;
                                       hasCurrentIdentity := Some hasCurrent |};
                      rateLimit := None |}
                   [Fetch attempt]
        end
  end.

(** The result after the loop: every attempt failed. *)
Definition exhausted (lastError : json) (lastStatus : Z) : ApiResponse :=
  {| success := false; data := None;
     error := Some (or_else (Some lastError) (JStr "请求失败"));
     hint := Some (JStr "请检查网络连接，或稍后重试");
     debug := Some {| status := lastStatus; endpoint := fullUrl;
                      retries := maxRetries;
                      requestedIdentity := identityName;
                      resolvedIdentity := resolved;
                      hasCurrentIdentity := Some hasCurrent |};
     rateLimit := None |}.

(** [for (let attempt = 1; attempt <= maxRetries; attempt++)]: [remaining]
    counts the passes still allowed, [maxRetries - attempt + 1]. *)
Fixpoint retry_loop (remaining : nat) (attempt : Z)
         (lastError : json) (lastStatus : Z) : ApiResponse * list Effect :=
  match remaining with
  | O => (exhausted lastError lastStatus, [])
  | S remaining' =>
      match attempt_once attempt lastStatus with
      | Return r effects => (r, effects)
      | Next lastError' lastStatus' effects =>
          let (r, later) :=
            retry_loop remaining' (attempt + 1) lastError' lastStatus' in
          (r, (effects ++ later)%list)
      end
  end.

(** [apiRequest(endpoint, options, identityName, maxRetries)]. *)
Definition apiRequest : ApiResponse * list Effect :=
  match getApiKey normalizedIdentity with
  | None | Some "" =>
      ({| success := false; data := None;
          error := Some (JStr "没有可用的身份或API Key");
          hint := Some (JStr "请先运行 'openecho identity add' 创建身份");
          debug := Some {| status := 401; endpoint := fullUrl; retries := 0;
                           requestedIdentity := identityName;
                           resolvedIdentity := resolved;
                           hasCurrentIdentity := Some hasCurrent |};
          rateLimit := None |}, [])
  | Some _ => retry_loop (Z.to_nat maxRetries) 1 (JStr "") 0
  end.

End ApiRequest.

(** The attempts made, and the pauses taken, in order. *)
Definition attempts_of (effects : list Effect) : list Z :=
  flat_map (fun e => match e with Fetch a => [a] | _ => [] end) effects.

Definition sleeps_of (effects : list Effect) : list Z :=
  flat_map (fun e => match e with Sleep ms => [ms] | _ => [] end) effects.

(** An outcome after which the loop tries again: the fetch rejected, or
    the status is 5xx. *)
Definition transient (o : FetchOutcome) : Prop :=
  match o with
  | NetworkFailure _ => True
  | Response code _ => 500 <= code <= 599
  end.

(** The error text the loop remembers after a transient outcome. *)
Definition last_error (o : FetchOutcome) : json :=
  match o with
  | NetworkFailure reason => JStr ("网络请求失败: " ++ reason)
  | Response code (Some JNull) => JStr ("网络请求失败: " ++ null_read "error")
  | Response code body =>
      or_else (oprop body "error") (JStr ("服务器错误: HTTP " ++ Str.ofZ code))
  end.

(** Linear backoff: [remaining] attempts numbered from [attempt], with a
    pause of [attempt * RETRY_DELAY_BASE_MS] after each one but the last. *)
Fixpoint schedule (remaining : nat) (attempt : Z) : list Effect :=
  match remaining with
  | O => []
  | S r =>
      match r with
      | O => [Fetch attempt]
      | S _ => Fetch attempt :: Sleep (RETRY_DELAY_BASE_MS * attempt)
                 :: schedule r (attempt + 1)
      end
  end.

(** [count] consecutive integers from [start]. *)
Fixpoint upfrom (start : Z) (count : nat) : list Z :=
  match count with
  | O => []
  | S c => start :: upfrom (start + 1) c
  end.

(** A platform that answers every request with status 429 and the JSON
    body [null]. *)
Definition always_429_null (_ : Z) : FetchOutcome := Response 429 (Some JNull).

(** A platform that answers the first request with status 429 and a body
    carrying advisory fields. *)
Definition rate_limited_once (attempt : Z) : FetchOutcome :=
  if attempt =? 1
  then Response 429 (Some (JObj [("error", JStr "Slow down");
                                  ("retry_after_minutes", JNum 27);
                                  ("daily_remaining", JNum 3)]))
  else Response 200 (Some (JObj [])).

(** A platform that is down: status 503 on every request. *)
Definition always_503 (_ : Z) : FetchOutcome :=
  Response 503 (Some (JObj [("error", JStr "Service unavailable")])).

Definition some_key (_ : option string) : option string := Some "moltbook_sk_test".

End Transport.

(* ====================================================================== *)
(** * Analytics helpers ([analyze_sentiment], [analyze_anomaly]) *)
(* ====================================================================== *)

(** Vote and comment counts are integers.  The source divides them as
    IEEE-754 doubles and compares the quotients with [0.6], [0.4], [0.5]
    and with multiples of a mean; here the quotients are exact rationals.
    Both readings give the same comparisons as long as the counts stay far
    below 2^50, since two distinct fractions of such counts differ by far
    more than the rounding error of a double. *)
Module Analytics.
Local Open Scope Q_scope.

(** The fields of [Post] that the analytics read. *)
Record Post : Type := mkPost {
  id : string;
  title : string;
  upvotes : Z;
  downvotes : Z;
  comment_count : Z
}.

(** [a > b] and [a < b] on numbers. *)
Definition gtb (a b : Q) : bool := negb (Qle_bool a b).
Definition ltb (a b : Q) : bool := negb (Qle_bool b a).

(** ** [analyze_sentiment] *)









(** [xs.length] as a number. *)
Definition len {A : Type} (xs : list A) : Q := inject_Z (Z.of_nat (List.length xs)).





(** ** [analyze_anomaly] *)

(** The four reasons a post can be reported for (the source renders each
    as a sentence and joins them with a semicolon). *)
Inductive Reason : Type :=
| HighUpvotes
| HighDownvotes
| HighDownvoteShare
| HighComments.

Record Unusual : Type := mkUnusual {
  unusual_id : string;
  unusual_title : string;
  reason : list Reason;
  anomalyScore : Z
}.

(** [posts.reduce((sum, p) => sum + f(p), 0) / posts.length]. *)
Definition mean (f : Post -> Z) (posts : list Post) : Q :=
  inject_Z (fold_left (fun sum p => (sum + f p)%Z) posts 0%Z) / len posts.

(** One conditional of the loop body: push a reason and raise the score. *)
Definition note (cond : bool) (r : Reason) (weight : Z)
           (acc : list Reason * Z) : list Reason * Z :=
  if cond then (fst acc ++ [r], (snd acc + weight)%Z) else acc.

(** The body of the loop over the posts, up to the test on [reasons]. *)
Definition inspect (avgUpvotes avgDownvotes avgComments : Q) (post : Post)
  : list Reason * Z :=
  let acc := ([], 0%Z) in
  let acc := note (gtb (inject_Z (upvotes post)) (avgUpvotes * 3))
                  HighUpvotes 2 acc in
  let acc := note (gtb (inject_Z (downvotes post)) (avgDownvotes * 3)
                   && (5 <? downvotes post)%Z)
                  HighDownvotes 2 acc in
  let total := (upvotes post + downvotes post)%Z in
  let acc := note ((10 <? total)%Z
                   && gtb (inject_Z (downvotes post) / inject_Z total) (5 # 10))
                  HighDownvoteShare 1 acc in
  let acc := note (gtb (inject_Z (comment_count post)) (avgComments * 4))
                  HighComments 1 acc in
  acc.

(** The posts pushed on [unusualPosts], in feed order. *)
Definition flag (avgUpvotes avgDownvotes avgComments : Q) (post : Post)
  : list Unusual :=
  let (reasons, sc) := inspect avgUpvotes avgDownvotes avgComments post in
  match reasons with
  | [] => []
  | _ => [{| unusual_id := id post; unusual_title := title post;
             reason := reasons; anomalyScore := sc |}]
  end.

Definition unusualPosts (posts : list Post) : list Unusual :=
  let avgUpvotes := mean upvotes posts in
  let avgDownvotes := mean downvotes posts in
  let avgComments := mean comment_count posts in
  flat_map (flag avgUpvotes avgDownvotes avgComments) posts.

(** [xs.sort((a, b) => b.score - a.score)].  The sort of an array is
    stable, and a stable sort by this comparator has one possible result:
    the one insertion sort gives. *)
Fixpoint insert (x : Unusual) (sorted : list Unusual) : list Unusual :=
  match sorted with
  | [] => [x]
  | y :: rest =>
      if (anomalyScore x <? anomalyScore y)%Z then y :: insert x rest
      else x :: sorted
  end.

Definition sort_by_score (xs : list Unusual) : list Unusual :=
  fold_right insert [] xs.

(** The [unusualPosts] field of the result of [analyze_anomaly] once the
    feed is fetched: [unusualPosts.slice(0, 10)] after sorting. *)
Definition analyze_anomaly (posts : list Post) : list Unusual :=
  firstn 10 (sort_by_score (unusualPosts posts)).

(** *** The same conditions, in the words of the design document *)

(** "downvotes > 3x mean (and > a small absolute floor)": the floor in the
    source is 5. *)
Definition downvote_floor : Z := 5.

Definition spec_high_upvotes (posts : list Post) (p : Post) : Prop :=
  mean upvotes posts * 3 < inject_Z (upvotes p).

Definition spec_high_downvotes (posts : list Post) (p : Post) : Prop :=
  mean downvotes posts * 3 < inject_Z (downvotes p) /\
  (downvote_floor < downvotes p)%Z.

(** "downvote-ratio > 50% with >= 10 total votes", as the document has it. *)
Definition spec_high_share_doc (p : Post) : Prop :=
  (10 <= upvotes p + downvotes p)%Z /\
  5 # 10 < inject_Z (downvotes p) / inject_Z (upvotes p + downvotes p).

(** The same with more than 10 total votes. *)
Definition spec_high_share (p : Post) : Prop :=
  (10 < upvotes p + downvotes p)%Z /\
  5 # 10 < inject_Z (downvotes p) / inject_Z (upvotes p + downvotes p).

Definition spec_high_comments (posts : list Post) (p : Post) : Prop :=
  mean comment_count posts * 4 < inject_Z (comment_count p).

(** The reasons and the score the loop body computes for a post of the
    batch. *)
Definition reasons_of (posts : list Post) (p : Post) : list Reason :=
  fst (inspect (mean upvotes posts) (mean downvotes posts)
               (mean comment_count posts) p).

Definition severity (posts : list Post) (p : Post) : Z :=
  snd (inspect (mean upvotes posts) (mean downvotes posts)
               (mean comment_count posts) p).

(** Is the post reported at all (before sorting and truncation)? *)
Definition flagged (posts : list Post) (p : Post) : Prop :=
  flag (mean upvotes posts) (mean downvotes posts) (mean comment_count posts) p
  <> [].

(** Scores never increase along the list. *)
Definition descending (xs : list Unusual) : Prop :=
  StronglySorted (fun a b => (anomalyScore b <= anomalyScore a)%Z) xs.

(** Weight of a reason in the score. *)
Definition weight (r : Reason) : Z :=
  match r with
  | HighUpvotes | HighDownvotes => 2
  | HighDownvoteShare | HighComments => 1
  end.

(** What is pushed on [unusualPosts] for a reported post. *)
Definition report (posts : list Post) (p : Post) : Unusual :=
  {| unusual_id := id p; unusual_title := title p;
     reason := reasons_of posts p; anomalyScore := severity posts p |}.

(** The flagging rule as the design document words it, with
    "downvote-ratio > 50% with >= 10 total votes". *)
Definition doc_flag_rule : Prop :=
  forall posts p, In p posts ->
    (flagged posts p <->
     spec_high_upvotes posts p \/ spec_high_downvotes posts p \/
     spec_high_share_doc p \/ spec_high_comments posts p).

(** "The flagged items are returned": the result holds every reported
    post. *)
Definition doc_all_returned : Prop :=
  forall posts, Permutation (analyze_anomaly posts) (unusualPosts posts).

(** A lone post with 4 upvotes, 6 downvotes: 10 votes, 60% of them down. *)
Definition ten_votes : Post :=
  {| id := "p1"; title := "ten votes"; upvotes := 4; downvotes := 6;
     comment_count := 0 |}.

(** Eleven posts that each have 0 upvotes and 20 downvotes. *)
Definition eleven_downvoted : list Post :=
  repeat {| id := "p"; title := "downvoted"; upvotes := 0; downvotes := 20;
            comment_count := 0 |} 11.


End Analytics.

(* ====================================================================== *)
(** * The agent ([src/agent.ts]) *)
(* ====================================================================== *)

Module Agent.
Import Json.
Local Open Scope string_scope.

(** A computation that may throw; the message is what [`${error}`] or
    [error.message] renders where the exception is caught. *)
Inductive Outcome (A : Type) : Type :=
| Ok (value : A)
| Throw (message : string).
Arguments Ok {A} value.
Arguments Throw {A} message.

(** What a call of [executeTool] did besides computing its result: the
    handlers it ran, and whether it entered [fallbackSearch]. *)
Inductive Call : Type :=
| Invoked (name : string) (input : json)
| FellBack (input : json).

Definition is_fallback (c : Call) : bool :=
  match c with FellBack _ => true | Invoked _ _ => false end.

(** ** Tool dispatch *)

Section Dispatch.

Context {rt : Js.Runtime}.

(** Everything outside the agent that a handler can read or change: the
    platform, the credential store, the clock. *)
Variable World : Type.

(** [ToolDefinition]: [parameters] is [tool.parameters.parse], which
    returns the validated input or throws. *)
Record ToolDefinition : Type := mkTool {
  name : string;
  parameters : json -> Outcome json;
  handler : json -> World -> Outcome json * World
}.

(** The registry [tools]. *)
Variable tools : list ToolDefinition.

(** [getTool(name)]. *)
Definition getTool (n : string) : option ToolDefinition :=
  find (fun t => String.eqb (name t) n) tools.

Definition unknown_tool (n : string) : json :=
  JObj [("error", JStr ("未知工具: " ++ n))].

Definition tool_failed (message : string) : json :=
  JObj [("error", JStr ("工具执行失败: " ++ message))].

(** [isToolFailure(result)]. *)
Definition isToolFailure (result : json) : bool :=
  match result with
  | JObj _ | JArr _ =>
      match prop result "success" with
      | Some (JBool false) => true
      | _ => false
      end
  | _ => false
  end.

(** [isSearchFailure(result)]. *)
Definition isSearchFailure (result : json) : bool :=
  if negb (isToolFailure result) then false
  else
    let err := match prop result "error" with
               | Some (JStr e) => e
               | _ => ""
               end in
    let status := oprop (prop result "debug") "status" in
    Str.includes (Str.toLowerCase err) "search failed"
    || match status with
       | Some (JNum 500) => true
       | _ => false
       end.

(** [extractSearchQuery(input)]. *)
Definition extractSearchQuery (input : json) : Outcome string :=
  match input with
  | JNull => Throw (null_read "query")
  | _ => match prop input "query" with
         | Some (JStr q) => Ok q
         | _ => Ok ""
         end
  end.

(** The arguments of the feed request made by the fallback. *)
Definition feed_request : json :=
  JObj [("sort", JStr "new"); ("limit", JNum 100)].

Definition feed_unavailable : string :=
  "Search failed (fallback feed unavailable)".

Definition degraded_note : string :=
  "Moltbook 搜索接口当前失败，已使用最新帖子做近似匹配（非语义搜索，结果可能不完整）。".

(** [!feed || typeof feed !== "object"] is false exactly for objects and
    arrays. *)
Definition is_object (v : json) : bool :=
  match v with
  | JObj _ | JArr _ => true
  | _ => false
  end.

(** The text a post is matched on:
    [`${p.title ?? ""} ${p.content ?? ""}`.toLowerCase()]. *)
Definition hay_of (p : json) : Outcome string :=
  match p with
  | JNull => Throw (null_read "title")
  | _ => Ok (Js.toLowerCase
               (template (prop p "title") ++ " " ++ template (prop p "content")))
  end.

(** [posts.filter(p => hay(p).includes(q))]. *)
Fixpoint filter_posts (q : string) (posts : list json) : Outcome (list json) :=
  match posts with
  | [] => Ok []
  | p :: rest =>
      match hay_of p with
      | Throw e => Throw e
      | Ok hay =>
          match filter_posts q rest with
          | Throw e => Throw e
          | Ok matches => Ok (if Str.includes hay q then p :: matches else matches)
          end
      end
  end.

(** The entry built for a match. *)
Definition result_of (p : json) : Outcome json :=
  match p with
  | JNull => Throw (null_read "id")
  | _ => Ok (obj [("id", prop p "id");
                  ("type", Some (JStr "post"));
                  ("title", prop p "title");
                  ("content", Some (match prop p "content" with
                                    | None | Some JNull => JStr ""
                                    | Some c => c
                                    end));
                  ("similarity", Some (JNum 0));
                  ("post_id", prop p "id");
                  ("fallback", Some (JBool true))])
  end.

(** [matches.map(result_of)]. *)
Fixpoint map_results (matches : list json) : Outcome (list json) :=
  match matches with
  | [] => Ok []
  | p :: rest =>
      match result_of p with
      | Throw e => Throw e
      | Ok r =>
          match map_results rest with
          | Throw e => Throw e
          | Ok rs => Ok (r :: rs)
          end
      end
  end.

(** What [fallbackSearch] does once the feed has come back. *)
Definition approximate (input : json) (query : string) (feed : json)
  : Outcome json :=
  if negb (is_object feed) then
    Ok (JObj [("success", JBool false); ("error", JStr feed_unavailable)])
  else
    match truthy (prop feed "success"), prop feed "posts" with
    | true, Some (JArr posts) =>
        let q := Js.toLowerCase (Js.trim query) in
        let matches := if String.eqb q "" then Ok posts
                       else filter_posts q posts in
        match matches with
        | Throw e => Throw e
        | Ok ms =>
            match map_results (firstn 20 ms) with
            | Throw e => Throw e
            | Ok results =>
                Ok (JObj [("success", JBool true);
                          ("results", JArr results);
                          ("note", JStr degraded_note);
                          ("query", JStr query)])
            end
        end
    | _, _ =>
        Ok (JObj [("success", JBool false); ("error", JStr feed_unavailable);
                  ("original", input)])
    end.

(** [executeTool] and [fallbackSearch] call each other; [fuel] bounds the
    depth of the calls, and [None] means the bound was hit. *)
Fixpoint executeTool_fuel (fuel : nat) (n : string) (input : json) (w : World)
  : option (json * World * list Call) :=
  match fuel with
  | O => None
  | S fuel' =>
      match getTool n with
      | None => Some (unknown_tool n, w, [])
      | Some tool =>
          match parameters tool input with
          | Throw e => Some (tool_failed e, w, [])
          | Ok validatedInput =>
              match handler tool validatedInput w with
              | (Throw e, w1) =>
                  Some (tool_failed e, w1, [Invoked n validatedInput])
              | (Ok result, w1) =>
                  if String.eqb n "moltbook_search" && isSearchFailure result
                  then
                    match fallbackSearch_fuel fuel' validatedInput w1 with
                    | None => None
                    | Some (Ok r, w2, calls) =>
                        Some (r, w2, Invoked n validatedInput :: calls)
                    | Some (Throw e, w2, calls) =>
                        Some (tool_failed e, w2, Invoked n validatedInput :: calls)
                    end
                  else Some (result, w1, [Invoked n validatedInput])
              end
          end
      end
  end
with fallbackSearch_fuel (fuel : nat) (input : json) (w : World)
  : option (Outcome json * World * list Call) :=
  match fuel with
  | O => None
  | S fuel' =>
      match extractSearchQuery input with
      | Throw e => Some (Throw e, w, [FellBack input])
      | Ok query =>
          match executeTool_fuel fuel' "moltbook_get_feed" feed_request w with
          | None => None
          | Some (feed, w1, calls) =>
              Some (approximate input query feed, w1, FellBack input :: calls)
          end
      end
  end.

(** Three levels are all a call can use (see [executeTool_fuel_enough]):
    the call itself, the fallback, and the feed request of the fallback. *)
Definition executeTool (n : string) (input : json) (w : World)
  : json * World * list Call :=
  match executeTool_fuel 3 n input w with
  | Some r => r
  | None => (JNull, w, [])
  end.

Definition fallbackSearch (input : json) (w : World)
  : Outcome json * World * list Call :=
  match fallbackSearch_fuel 2 input w with
  | Some r => r
  | None => (Throw "", w, [])
  end.

(** What a call does when the fallback is out of the picture. *)
Definition plain_call (n : string) (input : json) (w : World)
  : json * World * list Call :=
  match getTool n with
  | None => (unknown_tool n, w, [])
  | Some tool =>
      match parameters tool input with
      | Throw e => (tool_failed e, w, [])
      | Ok validatedInput =>
          match handler tool validatedInput w with
          | (Throw e, w1) => (tool_failed e, w1, [Invoked n validatedInput])
          | (Ok result, w1) => (result, w1, [Invoked n validatedInput])
          end
      end
  end.

(** *** Reading the result of a call *)

Definition result_of_call {A : Type} (out : A * World * list Call) : A :=
  fst (fst out).
Definition world_of_call {A : Type} (out : A * World * list Call) : World :=
  snd (fst out).
Definition calls_of_call {A : Type} (out : A * World * list Call) : list Call :=
  snd out.

(** *** What a handler result says *)

(** The result "reports failure": [success] is [false]. *)
Definition reports_failure (r : json) : Prop :=
  is_object r = true /\ prop r "success" = Some (JBool false).

(** The HTTP status the result records, [debug.status]. *)
Definition recorded_status (r : json) : option json :=
  oprop (prop r "debug") "status".

(** The error of the result is a text that mentions "search failed", in
    any letter case. *)
Definition mentions_search_failed (r : json) : Prop :=
  exists e, prop r "error" = Some (JStr e) /\
            Str.includes (Str.toLowerCase e) "search failed" = true.

(** *** The failure classes of the design document *)

(** "ServerError": the platform answered 5xx.  "ClientError": it answered
    4xx.  The diagnostic of a failure result is the status it records. *)
Definition doc_server_fault (r : json) : Prop :=
  exists k, recorded_status r = Some (JNum k) /\ (500 <= k <= 599)%Z.

Definition doc_client_error (r : json) : Prop :=
  exists k, recorded_status r = Some (JNum k) /\ (400 <= k <= 499)%Z.

(** The feed came back usable: an object whose [success] is truthy and
    whose [posts] is the array [posts]. *)
Definition usable_feed (feed : json) (posts : list json) : Prop :=
  is_object feed = true /\ truthy (prop feed "success") = true /\
  prop feed "posts" = Some (JArr posts).

(** The query text of a validated search input. *)
Definition query_of (input : json) : string :=
  match prop input "query" with
  | Some (JStr q) => q
  | _ => ""
  end.

(** Does the post contain [q] in its lower-cased title and body? *)
Definition matches_query (q : string) (p : json) : bool :=
  Str.includes
    (Js.toLowerCase (template (prop p "title") ++ " " ++ template (prop p "content")))
    q.

(** The entry returned for a matching post. *)
Definition entry (p : json) : json :=
  obj [("id", prop p "id");
       ("type", Some (JStr "post"));
       ("title", prop p "title");
       ("content", Some (match prop p "content" with
                         | None | Some JNull => JStr ""
                         | Some c => c
                         end));
       ("similarity", Some (JNum 0));
       ("post_id", prop p "id");
       ("fallback", Some (JBool true))].

End Dispatch.

Arguments mkTool {World} name parameters handler.
Arguments result_of_call {World A} out.
Arguments world_of_call {World A} out.
Arguments calls_of_call {World A} out.
Arguments name {World} t.
Arguments parameters {World} t input.
Arguments handler {World} t input w.

(** ** Conversations, events and providers *)

(** [ToolCallResult]. *)
Record ToolCallResult : Type := mkToolCall {
  call_name : string;
  call_input : json;
  call_output : json
}.

(** [StreamEvent]. *)
Inductive StreamEvent : Type :=
| text (content : string)
| tool_start (name : string)
| tool_end (name : string) (result : json)
| done (toolCalls : option (list ToolCallResult))
| error (message : string).

(** [AgentResponse]; [needsContinue] absent reads as [false]. *)
Record AgentResponse : Type := mkResponse {
  response_text : string;
  response_toolCalls : option (list ToolCallResult);
  needsContinue : bool
}.

(** [toolCalls.length > 0 ? toolCalls : undefined]. *)
Definition if_any (toolCalls : list ToolCallResult)
  : option (list ToolCallResult) :=
  match toolCalls with
  | [] => None
  | _ => Some toolCalls
  end.

(** *** The message-with-blocks protocol *)

Record ToolUse : Type := mkToolUse {
  use_id : string;
  use_name : string;
  use_input : json
}.

Inductive ContentBlock : Type :=
| TextBlock (content : string)
| ToolUseBlock (use : ToolUse)
| OtherBlock.

Record FinalMessage : Type := mkFinal {
  content : list ContentBlock;
  stop_reason : string
}.

(** An event of the provider's stream: a text delta, or anything else. *)
Inductive RawEvent : Type :=
| TextDelta (content : string)
| OtherEvent.

(** One streamed response: the events seen, then either the final message
    or the exception that ended the stream. *)
Record Streamed : Type := mkStreamed {
  seen : list RawEvent;
  final : Outcome FinalMessage
}.

Record ToolResultBlock : Type := mkToolResult {
  tool_use_id : string;
  result_content : string
}.

(** [Anthropic.MessageParam] as the agent builds it. *)
Inductive MessageParam : Type :=
| UserText (content : string)
| AssistantBlocks (content : list ContentBlock)
| UserToolResults (results : list ToolResultBlock).

(** [content.filter(block => block.type === "tool_use")]. *)
Definition tool_uses (blocks : list ContentBlock) : list ToolUse :=
  flat_map (fun b => match b with ToolUseBlock u => [u] | _ => [] end) blocks.

(** [content.filter(block => block.type === "text").map(b => b.text)]. *)
Definition text_blocks (blocks : list ContentBlock) : list string :=
  flat_map (fun b => match b with TextBlock s => [s] | _ => [] end) blocks.

(** The text events yielded while iterating the stream. *)
Definition text_events (raw : list RawEvent) : list StreamEvent :=
  flat_map (fun e => match e with TextDelta s => [text s] | OtherEvent => [] end) raw.

(** *** The delta-chunk protocol *)

Record ToolCallDelta : Type := mkDelta {
  index : Z;
  delta_id : option string;
  delta_name : option string;
  delta_arguments : option string
}.

Record Chunk : Type := mkChunk {
  delta_content : option string;
  delta_tool_calls : list ToolCallDelta
}.

(** One streamed completion: the chunks received, and the exception that
    ended the stream if there was one. *)
Record Completion : Type := mkCompletion {
  chunks : list Chunk;
  failure : option string
}.

(** An entry of [pendingToolCalls]; also the shape of a finished tool
    call in an assistant message. *)
Record Pending : Type := mkPending {
  pending_id : string;
  pending_name : string;
  pending_arguments : string
}.

(** [OpenAI.ChatCompletionMessageParam] as the agent builds it. *)
Inductive ChatMessage : Type :=
| SystemMessage (content : string)
| UserMessage (content : string)
| AssistantMessage (content : option string) (tool_calls : list Pending)
| ToolMessage (tool_call_id : string) (content : string).

(** The message of a completion that is not streamed. *)
Record Choice : Type := mkChoice {
  choice_content : option string;
  choice_tool_calls : list Pending
}.

(** A string that is truthy. *)
Definition nonempty (o : option string) : option string :=
  match o with
  | Some "" | None => None
  | Some s => Some s
  end.

(** [o || ""]. *)
Definition or_empty (o : option string) : string :=
  match nonempty o with
  | Some s => s
  | None => ""
  end.

(** [pendingToolCalls] is a [Map] keyed by index; it is iterated in the
    order of insertion, so it is kept as a list of entries in that order. *)
Definition has (idx : Z) (pending : list (Z * Pending)) : bool :=
  existsb (fun e => Z.eqb (fst e) idx) pending.

Definition update (idx : Z) (f : Pending -> Pending)
           (pending : list (Z * Pending)) : list (Z * Pending) :=
  map (fun e => if Z.eqb (fst e) idx then (fst e, f (snd e)) else e) pending.

(** The body of [for (const tc of delta.tool_calls)]. *)
Definition accumulate (pending : list (Z * Pending)) (tc : ToolCallDelta)
  : list (Z * Pending) :=
  let idx := index tc in
  let pending :=
    if has idx pending then pending
    else (pending ++ [(idx, {| pending_id := or_empty (delta_id tc);
                               pending_name := or_empty (delta_name tc);
                               pending_arguments := "" |})])%list in
  update idx
    (fun p =>
       {| pending_id := match nonempty (delta_id tc) with
                        | Some i => i
                        | None => pending_id p
                        end;
          pending_name := match nonempty (delta_name tc) with
                          | Some n => n
                          | None => pending_name p
                          end;
          pending_arguments := pending_arguments p ++ or_empty (delta_arguments tc) |})
    pending.

(** The body of [for await (const chunk of stream)], folded over the
    chunks: the text events yielded, [fullText] and [pendingToolCalls]. *)
Fixpoint consume (cs : list Chunk) (fullText : string)
         (pending : list (Z * Pending))
  : list StreamEvent * string * list (Z * Pending) :=
  match cs with
  | [] => ([], fullText, pending)
  | c :: rest =>
      let yielded := match nonempty (delta_content c) with
                     | Some s => [text s]
                     | None => []
                     end in
      let fullText := fullText ++ or_empty (delta_content c) in
      let pending := fold_left accumulate (delta_tool_calls c) pending in
      let '(later, fullText', pending') := consume rest fullText pending in
      ((yielded ++ later)%list, fullText', pending')
  end.

(** [config.maxTurns || 10] in the constructor. *)
Definition configured_maxTurns (given : option Z) : Z :=
  match given with
  | Some n => if Z.eqb n 0 then 10%Z else n
  | None => 10%Z
  end.

Definition turn_limit_notice : string := "对话轮次已达上限，请重新开始对话。".

(** ** The orchestration loops *)

Section Loops.

Context {rt : Js.Runtime}.

Variable World : Type.
Variable tools : list (ToolDefinition World).

(** [JSON.stringify(result, null, 2)] and [JSON.parse], the latter
    returning [None] where it throws. *)
Variable JSON_stringify : json -> string.
Variable JSON_parse : string -> option json.

(** The model providers, given the conversation so far:
    [messages.stream] and [messages.create] of the Anthropic client,
    [chat.completions.create] of the OpenAI client with and without
    [stream: true]. *)
Variable claude_stream : World -> list MessageParam -> Streamed * World.
Variable claude_create : World -> list MessageParam -> Outcome FinalMessage * World.
Variable openai_stream : World -> list ChatMessage -> Completion * World.
Variable openai_create : World -> list ChatMessage -> Outcome Choice * World.

(** What a call of one of the four entry points leaves behind: what it
    yielded or returned, the final value of [turn], the tool calls it
    recorded, the conversation and the outside world. *)
Record Run (Out History : Type) : Type := mkRun {
  output : Out;
  turns : Z;
  recorded : list ToolCallResult;
  history : History;
  world : World
}.
Arguments mkRun {Out History} output turns recorded history world.
Arguments output {Out History} r.
Arguments turns {Out History} r.
Arguments recorded {Out History} r.
Arguments history {Out History} r.
Arguments world {Out History} r.

(** Events yielded before the rest of a run. *)
Definition after {History : Type} (evs : list StreamEvent)
           (r : Run (list StreamEvent) History) : Run (list StreamEvent) History :=
  mkRun (evs ++ output r)%list (turns r) (recorded r) (history r) (world r).

(** [for (const toolUse of toolUseBlocks)] of the block protocol: the
    events yielded, and the values of [toolCalls] and [toolResults]
    afterwards.  The loop that is not streamed runs the same statements
    without the two [yield]s. *)
Fixpoint claude_tools (uses : list ToolUse) (w : World)
         (toolCalls : list ToolCallResult) (toolResults : list ToolResultBlock)
  : list StreamEvent * World * list ToolCallResult * list ToolResultBlock :=
  match uses with
  | [] => ([], w, toolCalls, toolResults)
  | toolUse :: rest =>
      let '(result, w1, _) :=
        executeTool World tools (use_name toolUse) (use_input toolUse) w in
      let toolCalls :=
        (toolCalls ++ [{| call_name := use_name toolUse;
                          call_input := use_input toolUse;
                          call_output := result |}])%list in
      let toolResults :=
        (toolResults ++ [{| tool_use_id := use_id toolUse;
                            result_content := JSON_stringify result |}])%list in
      let '(later, w2, toolCalls', toolResults') :=
        claude_tools rest w1 toolCalls toolResults in
      (tool_start (use_name toolUse) :: tool_end (use_name toolUse) result :: later,
       w2, toolCalls', toolResults')
  end.

(** [while (turn < maxTurns)] of [chatStreamWithClaude].  [maxTurns] is an
    integer and [turn] starts at 0 and grows by one per pass, so the loop
    makes at most [Z.to_nat maxTurns] passes; [remaining] counts the passes
    still allowed. *)
Fixpoint claude_stream_loop (remaining : nat) (turn : Z) (w : World)
         (conversation : list MessageParam) (toolCalls : list ToolCallResult)
  : Run (list StreamEvent) (list MessageParam) :=
  match remaining with
  | O => mkRun [done (Some toolCalls)] turn toolCalls conversation w
  | S remaining' =>
      let turn := (turn + 1)%Z in
      let (stream, w1) := claude_stream w conversation in
      let yielded := text_events (seen stream) in
      match final stream with
      | Throw errorMessage =>
          mkRun (yielded ++ [error errorMessage])%list turn toolCalls conversation w1
      | Ok finalMessage =>
          match tool_uses (content finalMessage) with
          | [] =>
              mkRun (yielded ++ [done (if_any toolCalls)])%list turn toolCalls
                    (conversation ++ [AssistantBlocks (content finalMessage)])%list w1
          | toolUseBlocks =>
              let '(evs, w2, toolCalls', toolResults) :=
                claude_tools toolUseBlocks w1 toolCalls [] in
              let conversation' :=
                (conversation ++ [AssistantBlocks (content finalMessage);
                                  UserToolResults toolResults])%list in
              if String.eqb (stop_reason finalMessage) "end_turn" then
                mkRun (yielded ++ evs ++ [done (Some toolCalls')])%list turn
                      toolCalls' conversation' w2
              else
                after (yielded ++ evs)%list
                      (claude_stream_loop remaining' turn w2 conversation' toolCalls')
          end
      end
  end.

(** [chatStreamWithClaude(userMessage)]; [client] tells whether
    [anthropicClient] is set. *)
Definition chatStreamWithClaude (client : bool) (maxTurns : Z) (w : World)
           (conversationHistory : list MessageParam) (userMessage : string)
  : Run (list StreamEvent) (list MessageParam) :=
  if negb client then
    mkRun [error "错误: Claude 客户端未初始化"] 0%Z [] conversationHistory w
  else
    claude_stream_loop (Z.to_nat maxTurns) 0%Z w
      (conversationHistory ++ [UserText userMessage])%list [].

(** [try { functionArgs = JSON.parse(s) } catch { functionArgs = {} }]. *)
Definition parse_arguments (s : string) : json :=
  match JSON_parse s with
  | Some args => args
  | None => JObj []
  end.

(** [for (const [, tc] of pendingToolCalls)] of the chunk protocol. *)
Fixpoint openai_tools (pending : list Pending) (w : World)
         (toolCalls : list ToolCallResult) (conversation : list ChatMessage)
  : list StreamEvent * World * list ToolCallResult * list ChatMessage :=
  match pending with
  | [] => ([], w, toolCalls, conversation)
  | tc :: rest =>
      let functionArgs := parse_arguments (pending_arguments tc) in
      let '(result, w1, _) :=
        executeTool World tools (pending_name tc) functionArgs w in
      let toolCalls :=
        (toolCalls ++ [{| call_name := pending_name tc;
                          call_input := functionArgs;
                          call_output := result |}])%list in
      let conversation :=
        (conversation ++ [ToolMessage (pending_id tc) (JSON_stringify result)])%list in
      let '(later, w2, toolCalls', conversation') :=
        openai_tools rest w1 toolCalls conversation in
      (tool_start (pending_name tc) :: tool_end (pending_name tc) result :: later,
       w2, toolCalls', conversation')
  end.

(** [while (turn < maxTurns)] of [chatStreamWithOpenAI]. *)
Fixpoint openai_stream_loop (remaining : nat) (turn : Z) (w : World)
         (conversation : list ChatMessage) (toolCalls : list ToolCallResult)
  : Run (list StreamEvent) (list ChatMessage) :=
  match remaining with
  | O => mkRun [done (Some toolCalls)] turn toolCalls conversation w
  | S remaining' =>
      let turn := (turn + 1)%Z in
      let (stream, w1) := openai_stream w conversation in
      let '(yielded, fullText, pendingToolCalls) := consume (chunks stream) "" [] in
      match failure stream with
      | Some errorMessage =>
          mkRun (yielded ++ [error errorMessage])%list turn toolCalls conversation w1
      | None =>
          match pendingToolCalls with
          | _ :: _ =>
              let assistantMessage :=
                AssistantMessage (nonempty (Some fullText))
                                 (map snd pendingToolCalls) in
              let '(evs, w2, toolCalls', conversation') :=
                openai_tools (map snd pendingToolCalls) w1 toolCalls
                             (conversation ++ [assistantMessage])%list in
              after (yielded ++ evs)%list
                    (openai_stream_loop remaining' turn w2 conversation' toolCalls')
          | [] =>
              mkRun (yielded ++ [done (if_any toolCalls)])%list turn toolCalls
                    (conversation ++ [AssistantMessage (Some fullText) []])%list w1
          end
      end
  end.

(** [chatStreamWithOpenAI(userMessage)]; [systemPrompt] is the result of
    [buildSystemPrompt()]. *)
Definition chatStreamWithOpenAI (client : bool) (maxTurns : Z) (w : World)
           (systemPrompt : string) (openaiHistory : list ChatMessage)
           (userMessage : string)
  : Run (list StreamEvent) (list ChatMessage) :=
  if negb client then
    mkRun [error "错误: OpenAI 客户端未初始化"] 0%Z [] openaiHistory w
  else
    let openaiHistory := match openaiHistory with
                         | [] => [SystemMessage systemPrompt]
                         | _ => openaiHistory
                         end in
    openai_stream_loop (Z.to_nat maxTurns) 0%Z w
      (openaiHistory ++ [UserMessage userMessage])%list [].

(** [handleError(error, toolCalls)]. *)
Definition handleError (provider : string) (errorMessage : string)
           (toolCalls : list ToolCallResult) : AgentResponse :=
  if Str.includes errorMessage "authentication"
     || Str.includes errorMessage "api_key"
     || Str.includes errorMessage "401"
  then mkResponse ("错误: " ++ provider
                     ++ " API Key 无效或未配置。请检查 ~/.openecho/config.json 配置。")
                  None false
  else mkResponse ("与 AI 通信时发生错误: " ++ errorMessage) (if_any toolCalls) false.

(** [strings.join("\n")]. *)
Definition join_lines (lines : list string) : string :=
  String.concat (String (ascii_of_nat 10) "") lines.

Definition turn_limit (toolCalls : list ToolCallResult) : AgentResponse :=
  mkResponse turn_limit_notice (Some toolCalls) true.

(** [while (turn < maxTurns)] of [chatWithClaude]. *)
Fixpoint claude_loop (provider : string) (remaining : nat) (turn : Z) (w : World)
         (conversation : list MessageParam) (toolCalls : list ToolCallResult)
  : Run AgentResponse (list MessageParam) :=
  match remaining with
  | O => mkRun (turn_limit toolCalls) turn toolCalls conversation w
  | S remaining' =>
      let turn := (turn + 1)%Z in
      match claude_create w conversation with
      | (Throw errorMessage, w1) =>
          mkRun (handleError provider errorMessage toolCalls) turn toolCalls
                conversation w1
      | (Ok response, w1) =>
          let textResponse := join_lines (text_blocks (content response)) in
          match tool_uses (content response) with
          | [] =>
              mkRun (mkResponse textResponse (if_any toolCalls) false) turn toolCalls
                    (conversation ++ [AssistantBlocks (content response)])%list w1
          | toolUseBlocks =>
              let '(_, w2, toolCalls', toolResults) :=
                claude_tools toolUseBlocks w1 toolCalls [] in
              let conversation' :=
                (conversation ++ [AssistantBlocks (content response);
                                  UserToolResults toolResults])%list in
              if String.eqb (stop_reason response) "end_turn" then
                mkRun (mkResponse textResponse (Some toolCalls') false) turn
                      toolCalls' conversation' w2
              else claude_loop provider remaining' turn w2 conversation' toolCalls'
          end
      end
  end.

(** [chatWithClaude(userMessage)]. *)
Definition chatWithClaude (provider : string) (client : bool) (maxTurns : Z)
           (w : World) (conversationHistory : list MessageParam)
           (userMessage : string)
  : Run AgentResponse (list MessageParam) :=
  if negb client then
    mkRun (mkResponse "错误: Claude 客户端未初始化" None false) 0%Z []
          conversationHistory w
  else
    claude_loop provider (Z.to_nat maxTurns) 0%Z w
      (conversationHistory ++ [UserText userMessage])%list [].

(** [while (turn < maxTurns)] of [chatWithOpenAI]. *)
Fixpoint openai_loop (provider : string) (remaining : nat) (turn : Z) (w : World)
         (conversation : list ChatMessage) (toolCalls : list ToolCallResult)
  : Run AgentResponse (list ChatMessage) :=
  match remaining with
  | O => mkRun (turn_limit toolCalls) turn toolCalls conversation w
  | S remaining' =>
      let turn := (turn + 1)%Z in
      match openai_create w conversation with
      | (Throw errorMessage, w1) =>
          mkRun (handleError provider errorMessage toolCalls) turn toolCalls
                conversation w1
      | (Ok message, w1) =>
          let conversation :=
            (conversation ++ [AssistantMessage (choice_content message)
                                               (choice_tool_calls message)])%list in
          match choice_tool_calls message with
          | _ :: _ =>
              let '(_, w2, toolCalls', conversation') :=
                openai_tools (choice_tool_calls message) w1 toolCalls conversation in
              openai_loop provider remaining' turn w2 conversation' toolCalls'
          | [] =>
              mkRun (mkResponse (or_empty (choice_content message))
                                (if_any toolCalls) false)
                    turn toolCalls conversation w1
          end
      end
  end.

(** [chatWithOpenAI(userMessage)]. *)
Definition chatWithOpenAI (provider : string) (client : bool) (maxTurns : Z)
           (w : World) (systemPrompt : string) (openaiHistory : list ChatMessage)
           (userMessage : string)
  : Run AgentResponse (list ChatMessage) :=
  if negb client then
    mkRun (mkResponse "错误: OpenAI 客户端未初始化" None false) 0%Z []
          openaiHistory w
  else
    let openaiHistory := match openaiHistory with
                         | [] => [SystemMessage systemPrompt]
                         | _ => openaiHistory
                         end in
    openai_loop provider (Z.to_nat maxTurns) 0%Z w
      (openaiHistory ++ [UserMessage userMessage])%list [].

(** *** A round, as the design document describes it *)

(** The calls of one round: the requests are run one after the other in
    the order given, each in the world the one before left, and each
    gives one record that holds the result [executeTool] returned for
    it. *)
Fixpoint run_calls (requests : list (string * json)) (w : World)
  : list ToolCallResult * World :=
  match requests with
  | [] => ([], w)
  | (n, input) :: rest =>
      let out := executeTool World tools n input w in
      let (later, w2) := run_calls rest (world_of_call out) in
      ({| call_name := n; call_input := input;
          call_output := result_of_call out |} :: later, w2)
  end.

(** What a response of the block protocol requests, and what the chunks
    of a streamed completion request once accumulated. *)
Definition requests_of_uses (uses : list ToolUse) : list (string * json) :=
  map (fun u => (use_name u, use_input u)) uses.

Definition requests_of_pending (pending : list Pending)
  : list (string * json) :=
  map (fun tc => (pending_name tc, parse_arguments (pending_arguments tc)))
      pending.

(** The results handed back to the model: one per request, under the id
    of the request, holding the text of the result of its call. *)
Definition answers_of_uses (uses : list ToolUse) (calls : list ToolCallResult)
  : list ToolResultBlock :=
  map (fun uc => {| tool_use_id := use_id (fst uc);
                    result_content := JSON_stringify (call_output (snd uc)) |})
      (combine uses calls).

Definition answers_of_pending (pending : list Pending)
           (calls : list ToolCallResult) : list ChatMessage :=
  map (fun pc => ToolMessage (pending_id (fst pc))
                             (JSON_stringify (call_output (snd pc))))
      (combine pending calls).

End Loops.

Arguments output {World Out History} r.
Arguments turns {World Out History} r.
Arguments recorded {World Out History} r.
Arguments history {World Out History} r.
Arguments world {World Out History} r.

(** ** The shape of an event sequence *)

Definition is_terminal (e : StreamEvent) : bool :=
  match e with
  | done _ | error _ => true
  | _ => false
  end.

(** [interleaved calls evs]: [evs] consists of text events, in any number
    and at any place, and of one [tool_start] immediately followed by its
    [tool_end] for each call of [calls], in the order of [calls]. *)
Inductive interleaved : list ToolCallResult -> list StreamEvent -> Prop :=
| interleaved_nil : interleaved [] []
| interleaved_text s calls evs :
    interleaved calls evs -> interleaved calls (text s :: evs)
| interleaved_pair c calls evs :
    interleaved calls evs ->
    interleaved (c :: calls)
                (tool_start (call_name c) :: tool_end (call_name c) (call_output c) :: evs).

(** The events of a run of calls with nothing in between: for each call
    its [tool_start], then its [tool_end]. *)
Definition pairs_of (calls : list ToolCallResult) : list StreamEvent :=
  flat_map (fun c => [tool_start (call_name c);
                      tool_end (call_name c) (call_output c)]) calls.


(** The indices of a sequence of tool-call deltas in the order in which
    each is first seen. *)
Definition see (seen : list Z) (i : Z) : list Z :=
  if existsb (Z.eqb i) seen then seen else (seen ++ [i])%list.

Definition first_seen (indices : list Z) : list Z := fold_left see indices [].

(** The indices of the tool-call deltas of a completion, in stream order. *)
Definition delta_indices (cs : list Chunk) : list Z :=
  flat_map (fun c => map index (delta_tool_calls c)) cs.

(** ** Providers that keep asking for tools *)

(** The response requests at least one call; it does not carry the stop
    reason [end_turn]. *)
Definition requests_calls (m : FinalMessage) : Prop :=
  tool_uses (content m) <> [].

Definition keeps_going (m : FinalMessage) : Prop :=
  stop_reason m <> "end_turn".

(** Every inference succeeds with a response that satisfies [P]. *)
Definition claude_stream_always {World : Type} (P : FinalMessage -> Prop)
           (claude_stream : World -> list MessageParam -> Streamed * World)
  : Prop :=
  forall w conversation,
    exists m, final (fst (claude_stream w conversation)) = Ok m /\ P m.

Definition claude_create_always {World : Type} (P : FinalMessage -> Prop)
           (claude_create : World -> list MessageParam -> Outcome FinalMessage * World)
  : Prop :=
  forall w conversation,
    exists m, fst (claude_create w conversation) = Ok m /\ P m.

(** Every streamed completion ends normally and carries at least one
    tool-call delta; every plain completion carries at least one tool
    call. *)
Definition openai_stream_always_requests {World : Type}
           (openai_stream : World -> list ChatMessage -> Completion * World)
  : Prop :=
  forall w conversation,
    failure (fst (openai_stream w conversation)) = None /\
    delta_indices (chunks (fst (openai_stream w conversation))) <> [].

Definition openai_create_always_requests {World : Type}
           (openai_create : World -> list ChatMessage -> Outcome Choice * World)
  : Prop :=
  forall w conversation,
    exists m, fst (openai_create w conversation) = Ok m /\
              choice_tool_calls m <> [].

(** The round limit in the words of the design document, for the streamed
    block protocol: a provider that requests a call on every round makes
    the loop run [maxTurns] rounds. *)
Definition doc_round_limit : Prop :=
  forall (World : Type) (tools : list (ToolDefinition World))
         (JSON_stringify : json -> string)
         (claude_stream : World -> list MessageParam -> Streamed * World)
         (maxTurns : Z) (w : World) (conversationHistory : list MessageParam)
         (userMessage : string),
    (0 <= maxTurns)%Z ->
    claude_stream_always requests_calls claude_stream ->
    turns (chatStreamWithClaude World tools JSON_stringify claude_stream true
             maxTurns w conversationHistory userMessage) = maxTurns.

(** ** A small registry for examples *)

(** A search tool whose platform endpoint is down: the handler reports
    the failure [apiRequest] returns for a 500. *)
Definition search_down : ToolDefinition unit :=
  mkTool "moltbook_search"
    (fun input => match prop input "query" with
                  | Some (JStr _) => Ok input
                  | _ => Throw "ZodError: query: Required"
                  end)
    (fun _ w => (Ok (JObj [("success", JBool false);
                           ("error", JStr "Search failed");
                           ("debug", JObj [("status", JNum 500)])]), w)).

(** A search tool whose request the platform rejects with a 400. *)
Definition search_rejected : ToolDefinition unit :=
  mkTool "moltbook_search"
    (fun input => Ok input)
    (fun _ w => (Ok (JObj [("success", JBool false);
                           ("error", JStr "Query too long");
                           ("debug", JObj [("status", JNum 400)])]), w)).

(** A feed tool with every field optional, serving two posts. *)
Definition feed_posts : list json :=
  [JObj [("id", JStr "1"); ("title", JStr "Agents at work");
         ("content", JStr "Notes from the field")];
   JObj [("id", JStr "2"); ("title", JStr "Weekly digest")]].

Definition feed_ok : ToolDefinition unit :=
  mkTool "moltbook_get_feed"
    (fun input => Ok input)
    (fun _ w => (Ok (JObj [("success", JBool true);
                           ("posts", JArr feed_posts)]), w)).

Definition demo_tools : list (ToolDefinition unit) := [feed_ok; search_down].

(** The search input of the examples: the query has blanks around it. *)
Definition padded_query : json := JObj [("query", JStr "  agents ")].

(** A block-protocol provider that requests the feed on every round and
    says [end_turn] each time. *)
Definition eager_claude (w : unit) (_ : list MessageParam) : Streamed * unit :=
  (mkStreamed [TextDelta "Let me look."]
     (Ok (mkFinal [ToolUseBlock (mkToolUse "toolu_1" "moltbook_get_feed" (JObj []))]
                  "end_turn")), w).

(** A chunk-protocol provider that requests the feed on every round, with
    arguments that are not JSON. *)
Definition busy_openai (w : unit) (_ : list ChatMessage) : Completion * unit :=
  (mkCompletion
     [mkChunk None [mkDelta 0 (Some "call_1") (Some "moltbook_get_feed") None];
      mkChunk None [mkDelta 0 None None (Some "{sort:")]]
     None, w).

(** A [JSON.parse] that accepts the empty object only. *)
Definition strict_parse (s : string) : option json :=
  if String.eqb s "{}" then Some (JObj []) else None.

Definition show_nothing (_ : json) : string := "".

(** The scenario of the design document: a tool [echo] that returns its
    text, and a provider that asks for [echo("hi")] on the first round and
    answers "done" on the second.  The world is the number of inferences
    made so far. *)
Definition echo : ToolDefinition nat :=
  mkTool "echo"
    (fun input => match prop input "text" with
                  | Some (JStr _) => Ok input
                  | _ => Throw "ZodError: text: Required"
                  end)
    (fun input w => (Ok (obj [("success", Some (JBool true));
                              ("text", prop input "text")]), w)).

Definition hi : json := JObj [("text", JStr "hi")].

Definition scripted_claude (w : nat) (_ : list MessageParam) : Streamed * nat :=
  match w with
  | O => (mkStreamed [OtherEvent]
            (Ok (mkFinal [ToolUseBlock (mkToolUse "toolu_1" "echo" hi)] "tool_use")),
          S w)
  | _ => (mkStreamed [TextDelta "done"] (Ok (mkFinal [TextBlock "done"] "end_turn")),
          S w)
  end.

Definition scripted_openai (w : nat) (_ : list ChatMessage) : Completion * nat :=
  match w with
  | O => (mkCompletion
            [mkChunk None [mkDelta 0 (Some "call_1") (Some "echo") None];
             mkChunk None [mkDelta 0 None None (Some "<h")];
             mkChunk None [mkDelta 0 None None (Some "i>")]]
            None, S w)
  | _ => (mkCompletion [mkChunk (Some "done") []] None, S w)
  end.

(** A [JSON.parse] for the scenario: it knows one text. *)
Definition toy_parse (s : string) : option json :=
  if String.eqb s "<hi>" then Some hi else None.

(** A tool call whose arguments are not JSON. *)
Definition garbled_call : Pending :=
  mkPending "call_1" "moltbook_get_feed" "{sort:".

(** *** Unparseable arguments in the words of the design document *)

(** A structured failure result: it carries an [error], or its [success]
    is [false]. *)
Definition is_failure_result (r : json) : Prop :=
  prop r "error" <> None \/ prop r "success" = Some (JBool false).

(** "Unparseable structured arguments [...] converted into a structured
    failure result for that single invocation". *)
Definition doc_unparseable_fails : Prop :=
  forall (World : Type) (tools : list (ToolDefinition World))
         (JSON_stringify : json -> string) (JSON_parse : string -> option json)
         (tc : Pending) (w : World) (c : ToolCallResult),
    JSON_parse (pending_arguments tc) = None ->
    snd (fst (openai_tools World tools JSON_stringify JSON_parse [tc] w [] [])) = [c] ->
    is_failure_result (call_output c).

(** *** The matching rule in the words of the design document *)

(** "Case-insensitive substring matching of the original query against
    each item's combined title and body". *)
Definition doc_matches (query : string) (p : json) : bool :=
  Str.includes
    (Js.toLowerCase (template (prop p "title") ++ " " ++ template (prop p "content")))
    (Js.toLowerCase query).

Definition doc_fallback_matching : Prop :=
  forall (World : Type) (tools : list (ToolDefinition World))
         (input : json) (w : World) (posts : list json),
    input <> JNull ->
    usable_feed
      (result_of_call (executeTool World tools "moltbook_get_feed" feed_request w))
      posts ->
    Forall (fun p => p <> JNull) posts ->
    result_of_call (fallbackSearch World tools input w) =
    Ok (JObj [("success", JBool true);
              ("results",
               JArr (map entry (firstn 20 (filter (doc_matches (query_of input)) posts))));
              ("note", JStr degraded_note);
              ("query", JStr (query_of input))]).

(** A feed of 101 posts, of which only the last one mentions agents. *)
Definition long_feed : list json :=
  (repeat (JObj [("id", JStr "0"); ("title", JStr "Weekly digest")]) 100
   ++ [JObj [("id", JStr "101"); ("title", JStr "Agents at work")]])%list.

Definition plain_query : json := JObj [("query", JStr "agents")].

(** *** The window in the words of the design document *)

(** "It fetches a recent window of at most 100 feed items": the matches
    (found as the code finds them) are drawn from the first 100 items of
    the feed. *)
Definition doc_fallback_window : Prop :=
  forall (World : Type) (tools : list (ToolDefinition World))
         (input : json) (w : World) (posts : list json),
    input <> JNull ->
    usable_feed
      (result_of_call (executeTool World tools "moltbook_get_feed" feed_request w))
      posts ->
    Forall (fun p => p <> JNull) posts ->
    result_of_call (fallbackSearch World tools input w) =
    Ok (JObj [("success", JBool true);
              ("results",
               JArr (map entry
                       (firstn 20
                          (filter (matches_query
                                     (Js.toLowerCase (Js.trim (query_of input))))
                                  (firstn 100 posts)))));
              ("note", JStr degraded_note);
              ("query", JStr (query_of input))]).

(** *** The contract of the fallback in the words of the design document *)

(** "Invoked only when the search capability's handler reports failure
    whose diagnostic indicates a server-side fault (not a client
    validation error)": for every failing search result whose diagnostic
    does not indicate a server-side fault, the original failure result is
    returned unchanged; and no fallback runs on a client error. *)
Definition doc_fallback_contract : Prop :=
  forall (World : Type) (tools : list (ToolDefinition World))
         (input : json) (w : World),
    let out := executeTool World tools "moltbook_search" input w in
    forall tool v r w1,
      getTool World tools "moltbook_search" = Some tool ->
      parameters tool input = Ok v ->
      handler tool v w = (Ok r, w1) ->
      (reports_failure r -> ~ doc_server_fault r ->
       out = (r, w1, [Invoked "moltbook_search" v])) /\
      (reports_failure r -> doc_client_error r ->
       existsb is_fallback (calls_of_call out) = false).

End Agent.

(* ====================================================================== *)
(** * The heartbeat check ([runHeartbeat] and its helpers in
      [src/heartbeat.ts]) *)
(* ====================================================================== *)

Module HeartbeatRun.
Import Heartbeat.
Import Transport.
Import Agent.
Local Open Scope string_scope.
Local Open Scope Z_scope.

(** [getTimeUntilNextHeartbeat(intervalMs)], with [Date.now()] passed as
    [now]; [None] stands for [NaN] ([Math.max(0, NaN)] is [NaN]). *)
Definition getTimeUntilNextHeartbeat (intervalMs now : Z) (st : HeartbeatState)
  : option Z :=
  if falsy (lastCheck st) then Some 0
  else
    match getTime (lastCheck st) with
    | Some lastCheckTime =>
        let nextCheckTime := lastCheckTime + intervalMs in
        let remaining := nextCheckTime - now in
        Some (Z.max 0 remaining)
    | None => None
    end.

(** What one [fetch] of the heartbeat does: the promise rejects ([reason]
    is the text that [`${error}`] renders), or it resolves to a response
    with a status and a body. *)
Inductive Reply (B : Type) : Type :=
| Rejected (reason : string)
| Answered (status : Z) (body : B).

Arguments Rejected {B} reason.
Arguments Answered {B} status body.

Section FetchWithRetry.

Variable B : Type.
Variable server : Z -> Reply B.
Variable maxRetries : Z.

(** One failed attempt: the request, then the pause unless it was the
    last one ([if (attempt < maxRetries) await this.sleep(1000 * attempt)]). *)
Definition failed_attempt (attempt : Z) : list Effect :=
  if attempt <? maxRetries
  then [Fetch attempt; Sleep (1000 * attempt)]
  else [Fetch attempt].

(** The loop of [fetchWithRetry]; [remaining] counts the passes still
    allowed.  [lastError] holds the rendered error, [None] for [null]. *)
Fixpoint fetch_loop (remaining : nat) (attempt : Z) (lastError : option string)
  : Outcome (Z * B) * list Effect :=
  match remaining with
  | O =>
      (Throw (match lastError with
              | Some e => e
              | None => "Error: 请求失败"
              end), [])
  | S remaining' =>
      match server attempt with
      | Answered status body =>
          if status <? 500 then (Ok (status, body), [Fetch attempt])
          else
            let lastError := Some ("Error: HTTP " ++ Str.ofZ status) in
            let (r, later) := fetch_loop remaining' (attempt + 1) lastError in
            (r, (failed_attempt attempt ++ later)%list)
      | Rejected reason =>
          let lastError := Some reason in
          let (r, later) := fetch_loop remaining' (attempt + 1) lastError in
          (r, (failed_attempt attempt ++ later)%list)
      end
  end.

(** [fetchWithRetry(url, apiKey, maxRetries)]. *)
Definition fetchWithRetry : Outcome (Z * B) * list Effect :=
  fetch_loop (Z.to_nat maxRetries) 1 None.

End FetchWithRetry.

Arguments fetchWithRetry {B} server maxRetries.
Arguments fetch_loop {B} server maxRetries remaining attempt lastError.

(** A post as the feed endpoints list it; [created] is
    [new Date(post.created_at).getTime()], [None] for [NaN]. *)
Record FeedPost : Type := mkFeedPost {
  post_id : string;
  post_title : string;
  post_author : string;
  post_submolt : string;
  post_upvotes : Z;
  post_comment_count : Z;
  created : option Z
}.

(** The body of a feed response: [response.json()] rejects or yields
    something whose [posts] cannot be read ([Unreadable], with the
    rendered error), or it yields an object whose [posts] is the given
    list (the empty list also stands for a missing [posts]). *)
Inductive FeedBody : Type :=
| Unreadable (reason : string)
| Listing (posts : list FeedPost).

(** The entries of [suggestions], before they are rendered as text. *)
Inductive Suggestion : Type :=
| AddIdentityFirst
| NewPosts (count : Z)
| RecommendedHeader
| Recommended (post : FeedPost)
| NothingNew
| CooldownOver
| TryAgainLater.

(** [HeartbeatResult]. *)
Record HeartbeatResult : Type := mkResult {
  result_success : bool;
  timestamp : Z;
  newPostsCount : Z;
  suggestions : list Suggestion;
  result_error : option string
}.

(** The state the manager keeps and saves ([HeartbeatState] in
    [src/heartbeat.ts]): the four fields of [Heartbeat.HeartbeatState]
    and, saved with them, [lastResult]. *)
Record Manager : Type := mkManager {
  state : HeartbeatState;
  lastResult : option HeartbeatResult
}.

(** The clock readings one run can take, in the order of the code:
    [new Date()] on entry, [Date.now()] while reading the personal feed,
    [Date.now()] while reading the global feed, and the one inside
    [canPost()]. *)
Record Clock : Type := mkClock {
  started : Z;
  feedRead : Z;
  globalRead : Z;
  finished : Z
}.

(** [response.ok]. *)
Definition ok (status : Z) : bool := (200 <=? status) && (status <=? 299).

(** [postTime > fourHoursAgo]; every comparison with [NaN] is false. *)
Definition is_recent (now : Z) (p : FeedPost) : bool :=
  let fourHoursAgo := now - DEFAULT_HEARTBEAT_INTERVAL_MS in
  match created p with
  | Some postTime => fourHoursAgo <? postTime
  | None => false
  end.

(** What one feed contributes to [recentPosts]: the posts of the last
    four hours when the response is [ok], nothing otherwise. *)
Definition recent_of (now : Z) (status : Z) (body : FeedBody)
  : Outcome (list FeedPost) :=
  if ok status then
    match body with
    | Unreadable reason => Throw reason
    | Listing posts => Ok (filter (is_recent now) posts)
    end
  else Ok [].

(** [p.comment_count < 10 || p.upvotes > 5]. *)
Definition interesting (p : FeedPost) : bool :=
  (post_comment_count p <? 10) || (5 <? post_upvotes p).

(** Step 3 of [runHeartbeat] and the cooldown hint. *)
Definition suggest (recentPosts : list FeedPost) (canPostNow : bool)
  : list Suggestion :=
  let newPostsCount := Z.of_nat (List.length recentPosts) in
  ((if 0 <? newPostsCount then
      NewPosts newPostsCount ::
      (let interestingPosts := firstn 3 (filter interesting recentPosts) in
       match interestingPosts with
       | [] => []
       | _ => RecommendedHeader :: map Recommended interestingPosts
       end)
    else [NothingNew])
   ++ (if canPostNow then [CooldownOver] else []))%list.

Definition failure (clock : Clock) (hint : Suggestion) (error : string)
  : HeartbeatResult :=
  {| result_success := false; timestamp := started clock; newPostsCount := 0;
     suggestions := [hint]; result_error := Some error |}.

(** The end of the [try] block: the check is recorded. *)
Definition completed (clock : Clock) (m : Manager)
           (recentPosts : list FeedPost) : HeartbeatResult * Manager :=
  let st := state m in
  let result :=
    {| result_success := true; timestamp := started clock;
       newPostsCount := Z.of_nat (List.length recentPosts);
       suggestions := suggest recentPosts (canPost (finished clock) st);
       result_error := None |} in
  (result,
   {| state := {| lastCheck := At (started clock);
                  lastPost := lastPost st;
                  lastComment := lastComment st;
                  checkCount := checkCount st + 1 |};
      lastResult := Some result |}).

(** The [catch] clause and the missing-identity exit: only [lastResult]
    changes. *)
Definition failed (clock : Clock) (m : Manager) (hint : Suggestion)
           (error : string) : HeartbeatResult * Manager :=
  let result := failure clock hint error in
  (result, {| state := state m; lastResult := Some result |}).

Section RunHeartbeat.

(** [identityManager.getApiKey()] and the two endpoints,
    [/feed?sort=new&limit=10] and [/posts?sort=new&limit=10]. *)
Variable apiKey : option string.
Variable feed : Z -> Reply FeedBody.
Variable global : Z -> Reply FeedBody.

(** [runHeartbeat()]: the result, the manager afterwards, and the
    requests and pauses made on the personal and on the global feed. *)
Definition runHeartbeat (clock : Clock) (m : Manager)
  : HeartbeatResult * Manager * list Effect * list Effect :=
  match apiKey with
  | None | Some "" =>
      (failed clock m AddIdentityFirst "没有可用的身份", [], [])
  | Some _ =>
      let (feedResponse, feedEffects) := fetchWithRetry feed 3 in
      match feedResponse with
      | Throw e => (failed clock m TryAgainLater e, feedEffects, [])
      | Ok (status, body) =>
          match recent_of (feedRead clock) status body with
          | Throw e => (failed clock m TryAgainLater e, feedEffects, [])
          | Ok [] =>
              let (globalResponse, globalEffects) := fetchWithRetry global 3 in
              match globalResponse with
              | Throw e =>
                  (failed clock m TryAgainLater e, feedEffects, globalEffects)
              | Ok (status, body) =>
                  match recent_of (globalRead clock) status body with
                  | Throw e =>
                      (failed clock m TryAgainLater e, feedEffects, globalEffects)
                  | Ok recentPosts =>
                      (completed clock m recentPosts, feedEffects, globalEffects)
                  end
              end
          | Ok recentPosts => (completed clock m recentPosts, feedEffects, [])
          end
      end
  end.

End RunHeartbeat.

(** The parts of a run. *)
Definition result_of_run
           (run : HeartbeatResult * Manager * list Effect * list Effect)
  : HeartbeatResult := fst (fst (fst run)).
Definition manager_of_run
           (run : HeartbeatResult * Manager * list Effect * list Effect)
  : Manager := snd (fst (fst run)).
Definition feed_effects
           (run : HeartbeatResult * Manager * list Effect * list Effect)
  : list Effect := snd (fst run).
Definition global_effects
           (run : HeartbeatResult * Manager * list Effect * list Effect)
  : list Effect := snd run.

(** An attempt after which [fetchWithRetry] tries again: the fetch
    rejected, or the status is 500 or more. *)
Definition failing {B : Type} (r : Reply B) : Prop :=
  match r with
  | Rejected _ => True
  | Answered status _ => 500 <= status
  end.

(** The error [fetchWithRetry] remembers after a failing attempt. *)
Definition error_of {B : Type} (r : Reply B) : string :=
  match r with
  | Rejected reason => reason
  | Answered status _ => "Error: HTTP " ++ Str.ofZ status
  end.

(** A post created within the four hours before one of the two feed
    readings of a run. *)
Definition fresh (clock : Clock) (p : FeedPost) : Prop :=
  exists t, created p = Some t /\
            (feedRead clock - DEFAULT_HEARTBEAT_INTERVAL_MS < t \/
             globalRead clock - DEFAULT_HEARTBEAT_INTERVAL_MS < t).


(** Example platforms and inputs: an endpoint that refuses the
    credential, one that is down, and one that lists a single post
    created at time 1000. *)
Definition refusing (_ : Z) : Reply FeedBody :=
  Answered 401 (Unreadable "SyntaxError: Unexpected end of JSON input").

Definition down (_ : Z) : Reply FeedBody := Answered 503 (Listing []).

Definition a_post : FeedPost :=
  {| post_id := "p1"; post_title := "Hello"; post_author := "molty";
     post_submolt := "general"; post_upvotes := 0; post_comment_count := 0;
     created := Some 1000 |}.

Definition listing_one (_ : Z) : Reply FeedBody := Answered 200 (Listing [a_post]).

Definition noon : Clock :=
  {| started := 2000; feedRead := 2100; globalRead := 2200; finished := 2300 |}.

Definition fresh_manager : Manager :=
  {| state := defaultState; lastResult := None |}.

(** The pieces of text [formatDuration] and [formatTimeSince] assemble:
    a number of whole units. *)
Inductive Span : Type :=
| Seconds (n : Z)
| Minutes (n : Z)
| Hours (n : Z)
| HoursMinutes (h m : Z)
| Days (n : Z).

(** [formatDuration(ms)]: [seconds % 3600] is only reached with
    [seconds >= 3600], where the remainder of JavaScript and [Z.modulo]
    agree. *)
Definition formatDuration (ms : Z) : Span :=
  let seconds := ms / 1000 in
  if seconds <? 60 then Seconds seconds
  else if seconds <? 3600 then Minutes (seconds / 60)
  else HoursMinutes (seconds / 3600) ((seconds mod 3600) / 60).

(** [formatTimeSince(date)], with [Date.now()] passed as [now] and
    [date.getTime()] as [time]. *)
Definition formatTimeSince (now time : Z) : Span :=
  let seconds := (now - time) / 1000 in
  if seconds <? 60 then Seconds seconds
  else if seconds <? 3600 then Minutes (seconds / 60)
  else if seconds <? 86400 then Hours (seconds / 3600)
  else Days (seconds / 86400).

(** The least number of milliseconds a rendered span stands for, and the
    width of the range it stands for. *)
Definition span_floor (s : Span) : Z :=
  match s with
  | Seconds n => n * 1000
  | Minutes n => n * 60000
  | Hours n => n * 3600000
  | HoursMinutes h m => h * 3600000 + m * 60000
  | Days n => n * 86400000
  end.

Definition span_width (s : Span) : Z :=
  match s with
  | Seconds _ => 1000
  | Minutes _ => 60000
  | Hours _ => 3600000
  | HoursMinutes _ _ => 60000
  | Days _ => 86400000
  end.

End HeartbeatRun.

(* ====================================================================== *)
(** * Tool handlers over the transport layer ([src/tools.ts]) *)
(* ====================================================================== *)

Module Tools.
Import Json.
Import Heartbeat.
Import Transport.
Import Agent.
Local Open Scope string_scope.
Local Open Scope Z_scope.

(** [`${v}`] for a possibly [undefined] value. *)
Definition interpolate (v : option json) : string :=
  match v with
  | None => "undefined"
  | Some x => toString x
  end.

(** The [debug] object a handler passes on.  The 429 branch of
    [apiRequest] builds it with three fields only; it is the one branch
    that yields status 429 without [hasCurrentIdentity].  Every other
    branch sets [resolvedIdentity], to [null] when no name resolves. *)
Definition debug_json (d : Debug) : json :=
  obj ([("status", Some (JNum (status d)));
        ("endpoint", Some (JStr (endpoint d)));
        ("retries", Some (JNum (retries d)))]
       ++ match status d =? 429, hasCurrentIdentity d with
          | true, None => []
          | _, _ =>
              [("requestedIdentity", option_map JStr (requestedIdentity d));
               ("resolvedIdentity",
                Some (match resolvedIdentity d with
                      | Some n => JStr n
                      | None => JNull
                      end));
               ("hasCurrentIdentity", option_map JBool (hasCurrentIdentity d))]
          end)%list.

(** The [identity] of validated parameters: a string or [undefined]. *)
Definition identity_of (params : json) : option string :=
  match prop params "identity" with
  | Some (JStr s) => Some s
  | _ => None
  end.

(** [result.data?.message]. *)
Definition message_of (data : option json) : option json :=
  match data with
  | None | Some JNull => None
  | Some d => prop d "message"
  end.

Definition post_cooldown : json :=
  JObj [("success", JBool false);
        ("error", JStr "发帖冷却中，请稍后再试");
        ("hint", JStr "发帖限制: 每 30 分钟 1 帖");
        ("retry_after_minutes", JNum 30)].

Definition comment_cooldown : json :=
  JObj [("success", JBool false);
        ("error", JStr "评论冷却中，请稍后再试");
        ("hint", JStr "评论限制: 每 20 秒 1 条，每天 50 条");
        ("retry_after_seconds", JNum 20)].

Definition still_readable : string :=
  "删除请求已提交，但帖子暂时仍可访问。Moltbook 平台可能存在较长延迟或删除功能异常；建议稍后再检查或在网页端确认。".

Section Handlers.

Context {rt : Js.Runtime} {store : IdentityWrites}.

(** The identity store, as [apiRequest] reads it. *)
Variable getApiKey : option string -> option string.
Variable getCurrent : option string.

(** [new URLSearchParams({ q, type, limit }).toString()]. *)
Variable searchParams : string -> string -> string -> string.

(** Every handler below receives parameters that its schema has
    validated, and the platform as the answers to the attempts of the one
    request it makes. *)

(** [moltbook_get_feed(params)]. *)
Definition moltbook_get_feed (server : Z -> FetchOutcome) (params : json)
  : json * list Effect :=
  let sort := interpolate (prop params "sort") in
  let limit := interpolate (prop params "limit") in
  let endpoint :=
    if truthy (prop params "submolt")
    then "/submolts/" ++ interpolate (prop params "submolt")
         ++ "/feed?sort=" ++ sort ++ "&limit=" ++ limit
    else "/posts?sort=" ++ sort ++ "&limit=" ++ limit in
  let (result, effects) :=
    apiRequest getApiKey getCurrent server endpoint (identity_of params)
               DEFAULT_MAX_RETRIES in
  if success result && truthy (data result) then
    (obj [("success", Some (JBool true));
          ("posts", Some (or_else (oprop (data result) "posts")
                            (or_else (oprop (data result) "data") (JArr []))))],
     effects)
  else
    (obj [("success", Some (JBool false));
          ("error", Transport.error result);
          ("debug", option_map debug_json (debug result))],
     effects).

(** [moltbook_search(params)]. *)
Definition moltbook_search (server : Z -> FetchOutcome) (params : json)
  : json * list Effect :=
  let endpoint :=
    "/search?" ++ searchParams (interpolate (prop params "query"))
                               (interpolate (prop params "type"))
                               (interpolate (prop params "limit")) in
  let (result, effects) :=
    apiRequest getApiKey getCurrent server endpoint (identity_of params)
               DEFAULT_MAX_RETRIES in
  if success result && truthy (data result) then
    (obj [("success", Some (JBool true));
          ("results", oprop (data result) "results")],
     effects)
  else
    (obj [("success", Some (JBool false));
          ("error", Transport.error result);
          ("hint", hint result);
          ("debug", option_map debug_json (debug result))],
     effects).

(** [moltbook_post(params)]: [now] is the clock reading inside
    [canPost()], [later] the one inside [recordPost()]. *)
Definition moltbook_post (server : Z -> FetchOutcome) (params : json)
           (now later : Z) (st : HeartbeatState)
  : json * HeartbeatState * list Effect :=
  if negb (canPost now st) then (post_cooldown, st, [])
  else
    let (result, effects) :=
      apiRequest getApiKey getCurrent server "/posts" (identity_of params)
                 DEFAULT_MAX_RETRIES in
    if success result && truthy (data result) then
      (obj [("success", Some (JBool true));
            ("post", oprop (data result) "post")],
       recordPost later st, effects)
    else
      let advice := match rateLimit result with
                    | Some limit => retryAfterMinutes limit
                    | None => None
                    end in
      if truthy advice then
        (obj [("success", Some (JBool false));
              ("error", Transport.error result);
              ("hint", hint result);
              ("retry_after_minutes", advice)],
         st, effects)
      else
        (obj [("success", Some (JBool false));
              ("error", Transport.error result);
              ("hint", hint result)],
         st, effects).

(** [moltbook_comment(params)]. *)
Definition moltbook_comment (server : Z -> FetchOutcome) (params : json)
           (now later : Z) (st : HeartbeatState)
  : json * HeartbeatState * list Effect :=
  if negb (canComment now st) then (comment_cooldown, st, [])
  else
    let endpoint := "/posts/" ++ interpolate (prop params "post_id")
                    ++ "/comments" in
    let (result, effects) :=
      apiRequest getApiKey getCurrent server endpoint (identity_of params)
                 DEFAULT_MAX_RETRIES in
    if success result && truthy (data result) then
      (obj [("success", Some (JBool true));
            ("comment", oprop (data result) "comment");
            ("daily_remaining", oprop (data result) "daily_remaining")],
       recordComment later st, effects)
    else
      match rateLimit result with
      | Some limit =>
          (obj [("success", Some (JBool false));
                ("error", Transport.error result);
                ("hint", hint result);
                ("retry_after_seconds", retryAfterSeconds limit);
                ("daily_remaining", dailyRemaining limit)],
           st, effects)
      | None =>
          (obj [("success", Some (JBool false));
                ("error", Transport.error result);
                ("hint", hint result)],
           st, effects)
      end.

(** [moltbook_delete_post(params)]: the result, the effects of the
    [DELETE] request and those of the verifying [GET]. *)
Definition moltbook_delete_post (deleting verifying : Z -> FetchOutcome)
           (params : json) : json * list Effect * list Effect :=
  let endpoint := "/posts/" ++ interpolate (prop params "post_id") in
  let (result, effects) :=
    apiRequest getApiKey getCurrent deleting endpoint (identity_of params)
               DEFAULT_MAX_RETRIES in
  if success result then
    let (verify, verifyEffects) :=
      apiRequest getApiKey getCurrent verifying endpoint (identity_of params) 1 in
    if success verify then
      (obj [("success", Some (JBool true));
            ("message", Some (or_else (message_of (data result))
                                      (JStr "Delete requested")));
            ("note", Some (JStr still_readable))],
       effects, verifyEffects)
    else
      (obj [("success", Some (JBool true));
            ("message", Some (or_else (message_of (data result))
                                      (JStr "Post deleted")))],
       effects, verifyEffects)
  else
    (obj [("success", Some (JBool false)); ("error", Transport.error result)],
     effects, []).

(** The two entries of the registry [tools] that a search can reach, in
    the order of the registry.  The world of these handlers is the trace
    of the requests and pauses made so far. *)
Variable getFeedSchema searchSchema : json -> Outcome json.
Variable feedServer searchServer : Z -> FetchOutcome.

Definition registry : list (ToolDefinition (list Effect)) :=
  [mkTool "moltbook_get_feed" getFeedSchema
          (fun params w =>
             let (result, effects) := moltbook_get_feed feedServer params in
             (Ok result, (w ++ effects)%list));
   mkTool "moltbook_search" searchSchema
          (fun params w =>
             let (result, effects) := moltbook_search searchServer params in
             (Ok result, (w ++ effects)%list))].

End Handlers.

(** The parts of what a posting handler returns. *)
Definition answer (out : json * HeartbeatState * list Effect) : json :=
  fst (fst out).
Definition tracker (out : json * HeartbeatState * list Effect)
  : HeartbeatState := snd (fst out).
Definition requests (out : json * HeartbeatState * list Effect)
  : list Effect := snd out.

(** Reading a property of an object literal: the first field of that
    name whose value is not [undefined]. *)
Fixpoint field (k : string) (fields : list (string * option json))
  : option json :=
  match fields with
  | [] => None
  | (k', v) :: rest =>
      if String.eqb k k'
      then match v with
           | Some x => Some x
           | None => field k rest
           end
      else field k rest
  end.

(** The status of a response. *)
Definition code_of (o : FetchOutcome) : option Z :=
  match o with
  | Response code _ => Some code
  | NetworkFailure _ => None
  end.

(** A platform that answers, with a 5xx status. *)
Definition server_error (o : FetchOutcome) : Prop :=
  exists code body, o = Response code body /\ 500 <= code <= 599.

(** Example platforms: one accepts the request and returns the created
    post, one fails the search with status 500, one lists two posts. *)
Definition accepting (_ : Z) : FetchOutcome :=
  Response 201 (Some (JObj [("post", JObj [("id", JStr "p9")])])).

Definition search_broken (_ : Z) : FetchOutcome := Response 500 None.

Definition two_posts : list json :=
  [JObj [("id", JStr "1"); ("title", JStr "Agents at work")];
   JObj [("id", JStr "2"); ("title", JStr "Weather")]].

Definition listing (_ : Z) : FetchOutcome :=
  Response 200 (Some (JObj [("posts", JArr two_posts)])).

Definition accept_all (input : json) : Outcome json := Ok input.

Definition plain_params (q type limit : string) : string :=
  "q=" ++ q ++ "&type=" ++ type ++ "&limit=" ++ limit.

(** A platform without a search index: it answers the search with status
    404 and an error text of its own, and lists two posts. *)
Definition not_found (_ : Z) : FetchOutcome :=
  Response 404 (Some (JObj [("error", JStr "Search failed: no such index")])).

Definition not_found_registry : list (ToolDefinition (list Effect)) :=
  registry some_key None plain_params accept_all accept_all listing not_found.

(** A platform whose search is broken and whose feed lists 101 posts
    whatever [limit] it is asked for. *)
Definition crowded (_ : Z) : FetchOutcome :=
  Response 200 (Some (JObj [("posts", JArr long_feed)])).

Definition crowded_registry : list (ToolDefinition (list Effect)) :=
  registry some_key None plain_params accept_all accept_all crowded
           search_broken.

End Tools.

(* ====================================================================== *)
(** * Trend and topic analysis ([analyze_trend] and [analyze_topics] in
      [src/tools.ts]) *)
(* ====================================================================== *)

Module Trends.
Local Open Scope string_scope.
Local Open Scope Z_scope.

(** The fields of [Post] that the two analyses read ([author] and
    [submolt] stand for [post.author.name] and [post.submolt.name]). *)
Record Post : Type := mkPost {
  id : string;
  title : string;
  author : string;
  submolt : string;
  upvotes : Z;
  downvotes : Z;
  comment_count : Z
}.

Section Sorting.

Variable A : Type.
Variable key : A -> Z.

(** [xs.sort((a, b) => key(b) - key(a))]: the sort of an array is stable,
    and a stable sort by this comparator has one possible result, the
    one insertion sort gives. *)
Fixpoint insert_by (x : A) (sorted : list A) : list A :=
  match sorted with
  | [] => [x]
  | y :: rest =>
      if key x <? key y then y :: insert_by x rest else x :: sorted
  end.

Definition sort_desc (xs : list A) : list A := fold_right insert_by [] xs.

(** Keys never increase along the list. *)
Definition descending_by (xs : list A) : Prop :=
  StronglySorted (fun a b => key b <= key a) xs.

End Sorting.

Arguments insert_by {A} key x sorted.
Arguments sort_desc {A} key xs.
Arguments descending_by {A} key xs.

Section Maps.

Variable V : Type.

(** A [Map] with string keys, as the list of its entries in insertion
    order: [get] and [set]. *)
Fixpoint get (k : string) (m : list (string * V)) : option V :=
  match m with
  | [] => None
  | (k', v) :: rest => if String.eqb k k' then Some v else get k rest
  end.

Fixpoint set (k : string) (v : V) (m : list (string * V))
  : list (string * V) :=
  match m with
  | [] => [(k, v)]
  | (k', v') :: rest =>
      if String.eqb k k' then (k, v) :: rest else (k', v') :: set k v rest
  end.

End Maps.

Arguments get {V} k m.
Arguments set {V} k v m.

(** ** [analyze_trend], once the feed is fetched *)

Record HotTopic : Type := mkHotTopic {
  topic_title : string;
  score : Z;
  topic_post_id : string
}.

Definition hot (post : Post) : HotTopic :=
  {| topic_title := title post;
     score := upvotes post - downvotes post + comment_count post * 2;
     topic_post_id := id post |}.

Definition hotTopics (posts : list Post) : list HotTopic :=
  firstn 10 (sort_desc score (map hot posts)).

Record AuthorStats : Type := mkAuthorStats {
  posts_written : Z;
  engagement : Z
}.

(** The body of the loop over [authorStats]. *)
Definition count_author (stats : list (string * AuthorStats)) (post : Post)
  : list (string * AuthorStats) :=
  let name := author post in
  let existing := match get name stats with
                  | Some e => e
                  | None => {| posts_written := 0; engagement := 0 |}
                  end in
  set name
      {| posts_written := posts_written existing + 1;
         engagement := engagement existing
                       + (upvotes post + comment_count post) |}
      stats.

Definition authorStats (posts : list Post) : list (string * AuthorStats) :=
  fold_left count_author posts [].

Definition risingAuthors (posts : list Post) : list (string * AuthorStats) :=
  firstn 10 (sort_desc (fun entry => engagement (snd entry)) (authorStats posts)).

(** The body of the loop over [submoltStats];
    [submoltStats.get(name) || 0] is the count, or 0 without one. *)
Definition count_submolt (stats : list (string * Z)) (post : Post)
  : list (string * Z) :=
  let name := submolt post in
  set name (match get name stats with
            | Some n => n
            | None => 0
            end + 1) stats.

Definition submoltStats (posts : list Post) : list (string * Z) :=
  fold_left count_submolt posts [].

Definition activeSubmolts (posts : list Post) : list (string * Z) :=
  firstn 10 (sort_desc snd (submoltStats posts)).

Record TrendReport : Type := mkTrends {
  trend_hotTopics : list HotTopic;
  trend_risingAuthors : list (string * AuthorStats);
  trend_activeSubmolts : list (string * Z)
}.

(** [analyze_trend(params)], given the posts of the feed. *)
Definition analyze_trend (posts : list Post) : TrendReport :=
  {| trend_hotTopics := hotTopics posts;
     trend_risingAuthors := risingAuthors posts;
     trend_activeSubmolts := activeSubmolts posts |}.

(** What the counts are counts of. *)
Definition written_by (name : string) (posts : list Post) : list Post :=
  filter (fun p => String.eqb (author p) name) posts.

Definition posted_in (name : string) (posts : list Post) : list Post :=
  filter (fun p => String.eqb (submolt p) name) posts.

Definition total (f : Post -> Z) (posts : list Post) : Z :=
  fold_right (fun p acc => f p + acc) 0 posts.

(** ** [analyze_topics], once the feed is fetched *)

Definition stopWords : list string :=
  ["the"; "a"; "an"; "is"; "are"; "was"; "were"; "be"; "been";
   "being"; "have"; "has"; "had"; "do"; "does"; "did"; "will";
   "would"; "could"; "should"; "may"; "might"; "can"; "to"; "of";
   "in"; "for"; "on"; "with"; "at"; "by"; "from"; "as"; "into";
   "through"; "during"; "before"; "after"; "above"; "below";
   "and"; "or"; "but"; "if"; "then"; "else"; "when"; "where";
   "why"; "how"; "all"; "each"; "every"; "both"; "few"; "more";
   "most"; "other"; "some"; "such"; "no"; "nor"; "not"; "only";
   "own"; "same"; "so"; "than"; "too"; "very"; "just"; "i"; "me";
   "my"; "myself"; "we"; "our"; "you"; "your"; "he"; "him"; "his";
   "she"; "her"; "it"; "its"; "they"; "them"; "their"; "what";
   "which"; "who"; "whom"; "this"; "that"; "these"; "those"; "am"].

(** [[a-z0-9]]. *)
Definition is_word_char (c : ascii) : bool :=
  let n := nat_of_ascii c in
  ((97 <=? n)%nat && (n <=? 122)%nat) || ((48 <=? n)%nat && (n <=? 57)%nat).

(** [.replace(/[^a-z0-9\s]/g, " ")]. *)
Fixpoint blank_out (s : string) : string :=
  match s with
  | EmptyString => EmptyString
  | String c r =>
      String (if is_word_char c || Str.is_space c then c else " "%char)
             (blank_out r)
  end.

(** [.split(/\s+/)]: [current] is the piece being read, [inGap] tells
    that the previous character was white space.  White space at either
    end yields an empty piece there, as in JavaScript. *)
Fixpoint split_from (s : string) (current : string) (inGap : bool)
  : list string :=
  match s with
  | EmptyString => [current]
  | String c r =>
      if Str.is_space c then
        if inGap then split_from r current true
        else current :: split_from r EmptyString true
      else split_from r (current ++ String c EmptyString) false
  end.

Definition split_spaces (s : string) : list string :=
  split_from s EmptyString false.

(** [w.length > 2 && !stopWords.has(w)]. *)
Definition keep (w : string) : bool :=
  (2 <? Z.of_nat (String.length w)) && negb (existsb (String.eqb w) stopWords).

Definition words (text : string) : list string :=
  filter keep (split_spaces (blank_out (Str.toLowerCase text))).

(** The body of the inner loop over [wordMap]. *)
Definition note_word (post : Post)
           (wordMap : list (string * list (string * string))) (word : string)
  : list (string * list (string * string)) :=
  let existing := match get word wordMap with
                  | Some e => e
                  | None => []
                  end in
  if existsb (fun p => String.eqb (fst p) (id post)) existing then wordMap
  else set word (existing ++ [(id post, title post)])%list wordMap.

Definition note_post (wordMap : list (string * list (string * string)))
           (post : Post) : list (string * list (string * string)) :=
  fold_left (note_word post) (words (title post)) wordMap.

Definition wordMap_of (posts : list Post)
  : list (string * list (string * string)) :=
  fold_left note_post posts [].

Record Topic : Type := mkTopic {
  keyword : string;
  count : Z;
  topic_posts : list (string * string)
}.

Definition topic_of (entry : string * list (string * string)) : Topic :=
  {| keyword := fst entry;
     count := Z.of_nat (List.length (snd entry));
     topic_posts := snd entry |}.

(** [analyze_topics(params)], given the posts of the feed. *)
Definition analyze_topics (posts : list Post) : list Topic :=
  firstn 10
    (sort_desc count
       (filter (fun t => 2 <=? count t) (map topic_of (wordMap_of posts)))).

(** What a topic lists: the posts whose title has the word, one entry
    per post id, in feed order. *)
Definition mentions (w : string) (p : Post) : bool :=
  existsb (String.eqb w) (words (title p)).

Definition add_once (listed : list (string * string)) (p : Post)
  : list (string * string) :=
  if existsb (fun q => String.eqb (fst q) (id p)) listed then listed
  else (listed ++ [(id p, title p)])%list.

Definition posts_for (w : string) (posts : list Post)
  : list (string * string) :=
  fold_left add_once (filter (mentions w) posts) [].

(** Every character of a text satisfies [f]. *)
Fixpoint all_chars (f : ascii -> bool) (s : string) : bool :=
  match s with
  | EmptyString => true
  | String c r => f c && all_chars f r
  end.

(** Every character of a word is a lower-case letter or a digit. *)
Fixpoint plain (w : string) : bool :=
  match w with
  | EmptyString => true
  | String c r => is_word_char c && plain r
  end.

(** Example feed: three posts, two of them on agents. *)
Definition sample : list Post :=
  [mkPost "1" "AI Agents: the future!" "ann" "general" 10 1 2;
   mkPost "2" "Agents and agents at WORK" "bob" "general" 3 0 9;
   mkPost "3" "Weather" "ann" "offtopic" 1 0 0].

End Trends.

(* ====================================================================== *)
(** * Conversations and direct calls ([src/agent.ts]) *)
(* ====================================================================== *)

Module Dialogue.
Import Json.
Import Agent.
Local Open Scope string_scope.

Section Direct.

Variable World : Type.
Variable tools : list (ToolDefinition World).

(** [callToolDirect(toolName, params)]. *)
Definition callToolDirect (toolName : string) (params : json) (w : World)
  : json * World :=
  match getTool World tools toolName with
  | None =>
      (JObj [("success", JBool false);
             ("error", JStr ("未知工具: " ++ toolName))], w)
  | Some tool =>
      match parameters tool params with
      | Throw e =>
          (JObj [("success", JBool false);
                 ("error", JStr ("工具调用失败: " ++ e))], w)
      | Ok validatedParams =>
          match handler tool validatedParams w with
          | (Ok result, w1) => (result, w1)
          | (Throw e, w1) =>
              (JObj [("success", JBool false);
                     ("error", JStr ("工具调用失败: " ++ e))], w1)
          end
      end
  end.

End Direct.

(** A conversation of the chunk protocol in which every request is
    answered: each assistant message is followed at once by one tool
    message per call it requests, in the order of the calls and under
    their ids, and no tool message stands anywhere else. *)
Inductive answered : list ChatMessage -> Prop :=
| answered_nil : answered []
| answered_system s rest :
    answered rest -> answered (SystemMessage s :: rest)
| answered_user s rest :
    answered rest -> answered (UserMessage s :: rest)
| answered_calls c calls replies rest :
    map fst replies = map pending_id calls ->
    answered rest ->
    answered (AssistantMessage c calls
                :: map (fun r => ToolMessage (fst r) (snd r)) replies ++ rest).

(** A conversation of the block protocol in which every request is
    answered: each assistant message that holds tool-use blocks is
    followed at once by a user message holding one result per block, in
    the order of the blocks and under their ids, and no message of
    results stands anywhere else. *)
Inductive resolved : list MessageParam -> Prop :=
| resolved_nil : resolved []
| resolved_user s rest :
    resolved rest -> resolved (UserText s :: rest)
| resolved_plain blocks rest :
    tool_uses blocks = [] ->
    resolved rest ->
    resolved (AssistantBlocks blocks :: rest)
| resolved_calls blocks results rest :
    tool_uses blocks <> [] ->
    map tool_use_id results = map use_id (tool_uses blocks) ->
    resolved rest ->
    resolved (AssistantBlocks blocks :: UserToolResults results :: rest).

(** The two ways of calling the block protocol see the same provider:
    [messages.create] returns what [messages.stream] ends with. *)
Definition same_provider {World : Type}
           (claude_stream : World -> list MessageParam -> Streamed * World)
           (claude_create : World -> list MessageParam -> Outcome FinalMessage * World)
  : Prop :=
  forall w conversation,
    claude_create w conversation =
    (final (fst (claude_stream w conversation)),
     snd (claude_stream w conversation)).

(** The tool calls a finished stream reports: those of its last event. *)
Definition reported (events : list StreamEvent)
  : option (option (list ToolCallResult)) :=
  match last events (text "") with
  | done toolCalls => Some toolCalls
  | _ => None
  end.

(** [messages.create] for the provider of [scripted_claude]. *)
Definition scripted_create (w : nat) (conversation : list MessageParam)
  : Outcome FinalMessage * nat :=
  (final (fst (scripted_claude w conversation)),
   snd (scripted_claude w conversation)).

End Dialogue.

(* ====================================================================== *)
(** * Formatting helpers ([formatTime], [formatRelativeTime] and
      [truncate] in [src/tools.ts]) *)
(* ====================================================================== *)

Module Format.
Local Open Scope string_scope.
Local Open Scope Z_scope.

(** What a relative-time formatter returns: a text it has put together,
    or whatever [date.toLocaleDateString("zh-CN")] gives, which is the
    engine's. *)
Inductive Printed : Type :=
| Text (s : string)
| LocaleDate.

(** [formatTime(isoString)]: [diff] is
    [now.getTime() - date.getTime()], [None] for [NaN] (a text that is
    not a date); every comparison with [NaN] is false. *)
Definition formatTime (diff : option Z) : Printed :=
  match diff with
  | None => LocaleDate
  | Some diff =>
      let minutes := diff / 60000 in
      let hours := diff / 3600000 in
      let days := diff / 86400000 in
      if minutes <? 1 then Text "刚刚"
      else if minutes <? 60 then Text (Str.ofZ minutes ++ " 分钟前")
      else if hours <? 24 then Text (Str.ofZ hours ++ " 小时前")
      else if days <? 30 then Text (Str.ofZ days ++ " 天前")
      else LocaleDate
  end.

(** [formatRelativeTime(dateStr)]. *)
Definition formatRelativeTime (diffMs : option Z) : Printed :=
  match diffMs with
  | None => LocaleDate
  | Some diffMs =>
      let diffMins := diffMs / 60000 in
      let diffHours := diffMins / 60 in
      let diffDays := diffHours / 24 in
      if diffMins <? 1 then Text "刚刚"
      else if diffMins <? 60 then Text (Str.ofZ diffMins ++ "分钟前")
      else if diffHours <? 24 then Text (Str.ofZ diffHours ++ "小时前")
      else if diffDays <? 30 then Text (Str.ofZ diffDays ++ "天前")
      else LocaleDate
  end.

(** What there is to say about an instant relative to now: "just now", a
    number of minutes, hours or days, or the calendar date. *)
Inductive Ago : Type :=
| JustNow
| MinutesAgo (n : Z)
| HoursAgo (n : Z)
| DaysAgo (n : Z)
| OnDate.

(** The unit and the number for an elapsed time in milliseconds: whole
    minutes below an hour, whole hours below a day, whole days below
    thirty days. *)
Definition ago (diff : option Z) : Ago :=
  match diff with
  | None => OnDate
  | Some d =>
      if d <? 60000 then JustNow
      else if d <? 3600000 then MinutesAgo (d / 60000)
      else if d <? 86400000 then HoursAgo (d / 3600000)
      else if d <? 30 * 86400000 then DaysAgo (d / 86400000)
      else OnDate
  end.

(** The two ways of writing it down: with a blank between the number and
    the unit, and without. *)
Definition render (gap : string) (a : Ago) : Printed :=
  match a with
  | JustNow => Text "刚刚"
  | MinutesAgo n => Text (Str.ofZ n ++ gap ++ "分钟前")
  | HoursAgo n => Text (Str.ofZ n ++ gap ++ "小时前")
  | DaysAgo n => Text (Str.ofZ n ++ gap ++ "天前")
  | OnDate => LocaleDate
  end.

Section Truncate.

(** A text is the list of its UTF-16 code units, which is what [length]
    and [substring] count; [dot] is the unit of ["."]. *)
Variable Unit : Type.
Variable dot : Unit.

(** [truncate(text, maxLength)]: [substring(0, k)] takes the first [k]
    units and treats a negative [k] as 0. *)
Definition truncate (text : list Unit) (maxLength : Z) : list Unit :=
  if Z.of_nat (List.length text) <=? maxLength then text
  else (firstn (Z.to_nat (maxLength - 3)) text ++ [dot; dot; dot])%list.

End Truncate.

Arguments truncate {Unit} dot text maxLength.

End Format.

(* ====================================================================== *)
(** * More on the transport layer *)
(* ====================================================================== *)

Module Attempts.
Import Transport.
Local Open Scope string_scope.
Local Open Scope Z_scope.

(** The requests and pauses of [count] failed attempts numbered from
    [attempt], none of them the last one allowed. *)
Fixpoint failed_attempts (attempt : Z) (count : nat) : list Effect :=
  match count with
  | O => []
  | S c => Fetch attempt :: Sleep (RETRY_DELAY_BASE_MS * attempt)
             :: failed_attempts (attempt + 1) c
  end.

(** A platform that is down once and then refuses the request. *)
Definition down_then_forbidden (attempt : Z) : FetchOutcome :=
  if attempt =? 1 then Response 502 None
  else Response 403 (Some (Json.JObj [("error", Json.JStr "Forbidden")])).

End Attempts.

(* ====================================================================== *)
(** * What a streamed completion adds up to ([chatStreamWithOpenAI] in
      [src/agent.ts]) *)
(* ====================================================================== *)

Module Chunks.
Import Agent.
Local Open Scope string_scope.
Local Open Scope Z_scope.

(** The tool-call deltas of a completion, in stream order, and those of
    one index. *)
Definition deltas_of (cs : list Chunk) : list ToolCallDelta :=
  flat_map delta_tool_calls cs.

Definition for_index (i : Z) (ds : list ToolCallDelta) : list ToolCallDelta :=
  filter (fun d => index d =? i) ds.

(** What one delta does to the call it belongs to. *)
Definition absorb (p : Pending) (d : ToolCallDelta) : Pending :=
  {| pending_id := match nonempty (delta_id d) with
                   | Some i => i
                   | None => pending_id p
                   end;
     pending_name := match nonempty (delta_name d) with
                     | Some n => n
                     | None => pending_name p
                     end;
     pending_arguments := pending_arguments p ++ or_empty (delta_arguments d) |}.

Definition blank : Pending :=
  {| pending_id := ""; pending_name := ""; pending_arguments := "" |}.

(** The call assembled from the deltas of index [i]: the last non-empty
    id and name, and the argument pieces joined in order of arrival. *)
Definition assembled (i : Z) (ds : list ToolCallDelta) : Pending :=
  fold_left absorb (for_index i ds) blank.

(** The text pieces of a completion, joined in order of arrival. *)
Definition spoken (cs : list Chunk) : string :=
  fold_left (fun acc c => acc ++ or_empty (delta_content c)) cs "".

(** The entry of index [i] in [pendingToolCalls]. *)
Definition entry_of (i : Z) (pending : list (Z * Pending)) : option Pending :=
  option_map snd (find (fun e => fst e =? i) pending).

(** Example: a call whose name arrives first and whose arguments arrive
    in two pieces, around a piece of another call. *)
Definition piecewise : list Chunk :=
  [mkChunk (Some "Let me ") [mkDelta 0 (Some "call_a") (Some "echo") None];
   mkChunk None [mkDelta 0 None None (Some "<h")];
   mkChunk (Some "check.") [mkDelta 1 (Some "call_b") (Some "moltbook_search")
                                   (Some "{}");
                            mkDelta 0 None None (Some "i>")]].

End Chunks.

(* ====================================================================== *)
(** * Properties of the cooldown tracker *)
(* ====================================================================== *)

Section HeartbeatFacts.
Import Heartbeat.
Local Open Scope Z_scope.

Lemma gate_spec now s bound :
  (if falsy s then true else elapsed_at_least now (getTime s) bound) = true
  <-> s = Absent \/ elapsed now s bound.
Proof.
  unfold elapsed; destruct s as [| |t]; simpl.
  - split; auto.
  - split; [discriminate | intros [H | (t & H & _)]; discriminate].
  - rewrite Z.leb_le; split.
    + intros H; right; exists t; auto.
    + intros [H | (t' & [= ->] & H)]; [discriminate | exact H].
Qed.

(** C6.  [canPost] is true exactly when no post is recorded or at least 30
    minutes (1 800 000 ms) have passed since the recorded one; [canComment]
    likewise with 20 seconds (20 000 ms).  Right after [recordPost] at time
    [t], whatever was recorded before, [canPost] is false at [t] itself,
    and at any clock reading it is true exactly when 30 minutes have passed
    since [t]. *)
Theorem cooldown_gates :
  (forall now st,
      canPost now st = true <->
      lastPost st = Absent \/ elapsed now (lastPost st) 1800000) /\
  (forall now st,
      canComment now st = true <->
      lastComment st = Absent \/ elapsed now (lastComment st) 20000) /\
  (forall earlier t st,
      canPost t (recordPost t (fold_left (fun s u => recordPost u s) earlier st))
      = false) /\
  (forall earlier t now st,
      canPost now (recordPost t (fold_left (fun s u => recordPost u s) earlier st))
      = true <-> 1800000 <= now - t).
Proof.
  split; [|split; [|split]].
  - intros now st; unfold canPost; apply gate_spec.
  - intros now st; unfold canComment; apply gate_spec.
  - intros earlier t st; unfold canPost; simpl.
    apply Z.leb_gt; lia.
  - intros earlier t now st; unfold canPost; simpl.
    apply Z.leb_le.
Qed.

(** C10.  For every interval argument, [shouldRunHeartbeat] is true exactly
    when no check is recorded or at least [max interval (1 hour)] has passed
    since the recorded check; so within one hour (3 600 000 ms) of a
    recorded check it is false whatever interval is passed. *)
Theorem heartbeat_interval_clamped :
  (forall i now st,
      shouldRunHeartbeat i now st = true <->
      lastCheck st = Absent \/
      elapsed now (lastCheck st) (Z.max i 3600000)) /\
  (forall i now t st,
      lastCheck st = At t -> now - t < 3600000 ->
      shouldRunHeartbeat i now st = false).
Proof.
  split.
  - intros i now st; unfold shouldRunHeartbeat; apply gate_spec.
  - intros i now t st Hc Hlt; unfold shouldRunHeartbeat; rewrite Hc; simpl.
    apply Z.leb_gt. unfold MIN_HEARTBEAT_INTERVAL_MS. lia.
Qed.

End HeartbeatFacts.

(* ====================================================================== *)
(** * Properties of the transport layer *)
(* ====================================================================== *)

Section TransportFacts.
Import Json Transport.
Local Open Scope string_scope.
Local Open Scope Z_scope.

Context {rt : Js.Runtime} {store : IdentityWrites}.

Lemma attempts_of_schedule remaining attempt :
  attempts_of (schedule remaining attempt) = upfrom attempt remaining.
Proof.
  revert attempt; induction remaining as [|r IH]; intros attempt; [reflexivity|].
  destruct r as [|r']; [reflexivity|].
  change (attempts_of (schedule (S (S r')) attempt))
    with (attempt :: attempts_of (schedule (S r') (attempt + 1))).
  rewrite IH; reflexivity.
Qed.

Lemma sleeps_of_schedule remaining attempt :
  sleeps_of (schedule remaining attempt) =
  map (fun a => RETRY_DELAY_BASE_MS * a) (upfrom attempt (pred remaining)).
Proof.
  revert attempt; induction remaining as [|r IH]; intros attempt; [reflexivity|].
  destruct r as [|r']; [reflexivity|].
  change (sleeps_of (schedule (S (S r')) attempt))
    with (RETRY_DELAY_BASE_MS * attempt :: sleeps_of (schedule (S r') (attempt + 1))).
  rewrite IH; reflexivity.
Qed.

Lemma attempts_of_app l1 l2 :
  attempts_of (l1 ++ l2) = (attempts_of l1 ++ attempts_of l2)%list.
Proof. apply flat_map_app. Qed.

Lemma sleeps_of_app l1 l2 :
  sleeps_of (l1 ++ l2) = (sleeps_of l1 ++ sleeps_of l2)%list.
Proof. apply flat_map_app. Qed.

Lemma upfrom_length start count : List.length (upfrom start count) = count.
Proof. revert start; induction count; intros; simpl; auto. Qed.

Section Loop.
Variable getCurrent : option string.
Variable server : Z -> FetchOutcome.
Variable endpointPath : string.
Variable identityName : option string.
Variable maxRetries : Z.

Let loop := retry_loop getCurrent server endpointPath identityName maxRetries.
Let once := attempt_once getCurrent server endpointPath identityName maxRetries.

Lemma transient_step attempt lastStatus :
  transient (server attempt) ->
  exists ls,
    ((attempt <? maxRetries) = true ->
     once attempt lastStatus =
     Next (last_error (server attempt)) ls
          [Fetch attempt; Sleep (RETRY_DELAY_BASE_MS * attempt)]) /\
    ((attempt <? maxRetries) = false ->
     (once attempt lastStatus = Next (last_error (server attempt)) ls [Fetch attempt] /\
      truthy (Some (last_error (server attempt))) = true) \/
     exists r, once attempt lastStatus = Return r [Fetch attempt] /\
               success r = false /\
               error r = Some (last_error (server attempt))).
Proof.
  unfold once, attempt_once, transient.
  destruct (server attempt) as [reason | code body]; intros Ht.
  - exists lastStatus; unfold on_exception; split; intros ->; auto.
  - assert (H1 : (200 <=? code) && (code <=? 299) = false)
      by (apply andb_false_iff; right; apply Z.leb_gt; lia).
    assert (H2 : (code =? 429) = false) by (apply Z.eqb_neq; lia).
    assert (H3 : (400 <=? code) && (code <? 500) = false)
      by (apply andb_false_iff; right; apply Z.ltb_ge; lia).
    rewrite H1, H2, H3; exists code.
    destruct body as [[| b | n | s | items | props] |];
      unfold on_exception; simpl; split; intros ->; eauto.
Qed.

Lemma all_transient remaining : forall attempt lastError lastStatus,
  maxRetries = attempt + Z.of_nat remaining - 1 ->
  (forall a, attempt <= a <= maxRetries -> transient (server a)) ->
  snd (loop remaining attempt lastError lastStatus) = schedule remaining attempt /\
  success (fst (loop remaining attempt lastError lastStatus)) = false /\
  (remaining <> O ->
   error (fst (loop remaining attempt lastError lastStatus)) =
   Some (last_error (server maxRetries))).
Proof.
  induction remaining as [|r IH]; intros attempt lastError lastStatus Hmax Hall.
  - simpl; repeat split; auto; intros H; congruence.
  - destruct (transient_step attempt lastStatus) as (ls & Hlt & Hge);
      [apply Hall; lia|].
    unfold loop, once in *.
    destruct r as [|r'].
    + assert (Hlast : attempt = maxRetries) by lia.
      assert (Hb : (attempt <? maxRetries) = false) by (apply Z.ltb_ge; lia).
      destruct (Hge Hb) as [[E Htr] | (res & E & Hs & He)];
        cbn [retry_loop]; rewrite E; cbn [fst snd app].
      * repeat split; auto; intros _.
        rewrite <- Hlast; unfold exhausted, or_else; cbn [error].
        rewrite Htr; reflexivity.
      * repeat split; auto; intros _; rewrite <- Hlast; exact He.
    + assert (Hb : (attempt <? maxRetries) = true) by (apply Z.ltb_lt; lia).
      specialize (IH (attempt + 1) (last_error (server attempt)) ls).
      destruct IH as (IH1 & IH2 & IH3); [lia | intros a Ha; apply Hall; lia |].
      change (retry_loop getCurrent server endpointPath identityName maxRetries
                (S (S r')) attempt lastError lastStatus)
        with (match attempt_once getCurrent server endpointPath identityName
                      maxRetries attempt lastStatus with
              | Return r effects => (r, effects)
              | Next lastError' lastStatus' effects =>
                  let (r, later) :=
                    retry_loop getCurrent server endpointPath identityName
                      maxRetries (S r') (attempt + 1) lastError' lastStatus' in
                  (r, (effects ++ later)%list)
              end).
      rewrite (Hlt Hb).
      destruct (retry_loop getCurrent server endpointPath identityName
                  maxRetries (S r') (attempt + 1) (last_error (server attempt)) ls)
        as [res later]; cbn [fst snd] in *.
      split; [|split].
      * rewrite IH1; reflexivity.
      * exact IH2.
      * intros _; apply IH3; discriminate.
Qed.

Lemma rate_limited_step attempt lastStatus body :
  server attempt = Response 429 body -> body <> Some JNull ->
  exists r,
    once attempt lastStatus = Return r [Fetch attempt] /\
    success r = false /\
    rateLimit r =
      Some {| retryAfterSeconds := oprop body "retry_after_seconds";
              retryAfterMinutes := oprop body "retry_after_minutes";
              dailyRemaining := oprop body "daily_remaining" |}.
Proof.
  intros E Hnn; unfold once, attempt_once; rewrite E.
  change ((200 <=? 429) && (429 <=? 299)) with false.
  change (429 =? 429) with true; cbv iota.
  destruct body as [[| b | n | s | items | props] |];
    try congruence; eexists; repeat split; reflexivity.
Qed.

Lemma first_rate_limit remaining : forall attempt lastError lastStatus k body,
  maxRetries = attempt + Z.of_nat remaining - 1 ->
  attempt <= k <= maxRetries ->
  (forall a, attempt <= a < k -> transient (server a)) ->
  server k = Response 429 body -> body <> Some JNull ->
  attempts_of (snd (loop remaining attempt lastError lastStatus)) =
    upfrom attempt (Z.to_nat (k - attempt + 1)) /\
  sleeps_of (snd (loop remaining attempt lastError lastStatus)) =
    map (fun a => RETRY_DELAY_BASE_MS * a) (upfrom attempt (Z.to_nat (k - attempt))) /\
  success (fst (loop remaining attempt lastError lastStatus)) = false /\
  rateLimit (fst (loop remaining attempt lastError lastStatus)) =
    Some {| retryAfterSeconds := oprop body "retry_after_seconds";
            retryAfterMinutes := oprop body "retry_after_minutes";
            dailyRemaining := oprop body "daily_remaining" |}.
Proof.
  induction remaining as [|r IH];
    intros attempt lastError lastStatus k body Hmax Hk Hall E Hnn; [lia|].
  unfold loop; cbn [retry_loop]; fold once.
  destruct (Z.eq_dec attempt k) as [-> | Hne].
  - destruct (rate_limited_step k lastStatus body E Hnn) as (res & -> & Hs & Hr).
    replace (k - k + 1) with 1 by lia; replace (k - k) with 0 by lia.
    cbn [fst snd]; repeat split; auto.
  - destruct (transient_step attempt lastStatus) as (ls & Hlt & _);
      [apply Hall; lia|].
    rewrite Hlt by (apply Z.ltb_lt; lia).
    specialize (IH (attempt + 1) (last_error (server attempt)) ls k body).
    destruct IH as (IH1 & IH2 & IH3 & IH4); auto; try lia.
    { intros a Ha; apply Hall; lia. }
    unfold loop in *.
    destruct (retry_loop getCurrent server endpointPath identityName
                maxRetries r (attempt + 1) (last_error (server attempt)) ls)
      as [res later]; cbn [fst snd] in *.
    replace (k - attempt + 1) with (Z.succ (k - attempt)) by lia.
    rewrite Z2Nat.inj_succ by lia.
    replace (k - attempt) with (Z.succ (k - (attempt + 1))) at 2 by lia.
    rewrite Z2Nat.inj_succ by lia.
    replace (k - (attempt + 1) + 1) with (k - attempt) in IH1 by lia.
    split; [|split; [|split]]; auto.
    + rewrite attempts_of_app, IH1; reflexivity.
    + rewrite sleeps_of_app, IH2; reflexivity.
Qed.

End Loop.

(** Retry ceiling (used for C2).  With a credential, a retry limit of at
    least one and a platform that answers every attempt with a 5xx status or
    a network failure, the call makes the attempts [1 .. maxRetries] and no
    other, pauses [attempt * 1000] ms after each attempt but the last, and
    returns a failure carrying the error of the last attempt. *)
Lemma retry_ceiling getApiKey getCurrent server endpointPath identityName
      maxRetries key :
  getApiKey (normalizedIdentity identityName) = Some key -> key <> "" ->
  1 <= maxRetries ->
  (forall a, 1 <= a <= maxRetries -> transient (server a)) ->
  let out := apiRequest getApiKey getCurrent server endpointPath identityName
                        maxRetries in
  snd out = schedule (Z.to_nat maxRetries) 1 /\
  attempts_of (snd out) = upfrom 1 (Z.to_nat maxRetries) /\
  Z.of_nat (List.length (attempts_of (snd out))) = maxRetries /\
  sleeps_of (snd out) =
    map (fun a => RETRY_DELAY_BASE_MS * a) (upfrom 1 (pred (Z.to_nat maxRetries))) /\
  success (fst out) = false /\
  error (fst out) = Some (last_error (server maxRetries)).
Proof.
  intros Hkey Hne Hmax Hall out.
  assert (Hout : out = retry_loop getCurrent server endpointPath identityName
                         maxRetries (Z.to_nat maxRetries) 1 (JStr "") 0).
  { unfold out, apiRequest; rewrite Hkey.
    destruct key as [|c key']; [congruence | reflexivity]. }
  destruct (all_transient getCurrent server endpointPath identityName maxRetries
              (Z.to_nat maxRetries) 1 (JStr "") 0) as (H1 & H2 & H3);
    [lia | exact Hall |].
  rewrite <- Hout in *.
  rewrite H1, attempts_of_schedule, sleeps_of_schedule, upfrom_length.
  repeat split; auto; [lia | apply H3; lia].
Qed.

(** Rate limit on a JSON object (used for C2).  With a credential, if the
    attempts before the [k]-th are transient failures and the [k]-th is
    answered with status 429 and a body other than JSON [null], then the
    attempts made are [1 .. k] and no other, and the failure returned
    carries the three advisory fields of that body. *)
Lemma rate_limit_not_retried getApiKey getCurrent server endpointPath
      identityName maxRetries key k body :
  getApiKey (normalizedIdentity identityName) = Some key -> key <> "" ->
  1 <= k <= maxRetries ->
  (forall a, 1 <= a < k -> transient (server a)) ->
  server k = Response 429 body -> body <> Some JNull ->
  let out := apiRequest getApiKey getCurrent server endpointPath identityName
                        maxRetries in
  attempts_of (snd out) = upfrom 1 (Z.to_nat k) /\
  success (fst out) = false /\
  rateLimit (fst out) =
    Some {| retryAfterSeconds := oprop body "retry_after_seconds";
            retryAfterMinutes := oprop body "retry_after_minutes";
            dailyRemaining := oprop body "daily_remaining" |}.
Proof.
  intros Hkey Hne Hk Hall E Hnn out.
  assert (Hout : out = retry_loop getCurrent server endpointPath identityName
                         maxRetries (Z.to_nat maxRetries) 1 (JStr "") 0).
  { unfold out, apiRequest; rewrite Hkey.
    destruct key as [|c key']; [congruence | reflexivity]. }
  destruct (first_rate_limit getCurrent server endpointPath identityName
              maxRetries (Z.to_nat maxRetries) 1 (JStr "") 0 k body)
    as (H1 & _ & H3 & H4); auto; try lia.
  rewrite <- Hout in *.
  replace (k - 1 + 1) with k in H1 by lia; auto.
Qed.

(** C2.  Against a platform that answers status 429 with the JSON body
    [null], a call with the default limit of 3 does retry: it makes three
    attempts with pauses of 1000 and 2000 ms, and the failure it returns
    has status 429 but no rate-limit advice. *)
Theorem rate_limit_null_body_is_retried :
  let out := apiRequest some_key None always_429_null "/search?q=x" None
                        DEFAULT_MAX_RETRIES in
  attempts_of (snd out) = [1; 2; 3] /\
  sleeps_of (snd out) = [1000; 2000] /\
  success (fst out) = false /\
  rateLimit (fst out) = None /\
  option_map status (debug (fst out)) = Some 429 /\
  option_map retries (debug (fst out)) = Some 3.
Proof. vm_compute; repeat split; reflexivity. Qed.

End TransportFacts.

(* ====================================================================== *)
(** * Properties of the analytics helpers *)
(* ====================================================================== *)

Section AnalyticsFacts.
Import Analytics.
Local Open Scope Q_scope.

Lemma gtb_lt a b : gtb a b = true <-> b < a.
Proof.
  unfold gtb; rewrite negb_true_iff, <- not_true_iff_false, Qle_bool_iff.
  split; [apply Qnot_le_lt | apply Qlt_not_le].
Qed.

Lemma ltb_lt a b : ltb a b = true <-> a < b.
Proof. unfold ltb; apply gtb_lt. Qed.












Lemma note_spec cond r w acc :
  note cond r w acc =
  (fst acc ++ (if cond then [r] else []),
   (snd acc + (if cond then w else 0))%Z).
Proof.
  unfold note; destruct cond, acc; cbn [fst snd].
  - reflexivity.
  - rewrite app_nil_r, Z.add_0_r; reflexivity.
Qed.

(** The reasons pushed for a post are the conditions that hold for it, and
    its score is the sum of their weights. *)
Lemma inspect_spec posts p :
  (In HighUpvotes (reasons_of posts p) <-> spec_high_upvotes posts p) /\
  (In HighDownvotes (reasons_of posts p) <-> spec_high_downvotes posts p) /\
  (In HighDownvoteShare (reasons_of posts p) <-> spec_high_share p) /\
  (In HighComments (reasons_of posts p) <-> spec_high_comments posts p) /\
  severity posts p = fold_right Z.add 0%Z (map weight (reasons_of posts p)).
Proof.
  unfold reasons_of, severity, inspect.
  unfold spec_high_upvotes, spec_high_downvotes, spec_high_share,
    spec_high_comments, downvote_floor.
  rewrite !note_spec; cbn [fst snd app].
  rewrite <- (gtb_lt (inject_Z (upvotes p))), <- (gtb_lt (inject_Z (downvotes p))),
    <- (gtb_lt (inject_Z (comment_count p))), <- (gtb_lt (_ / _)),
    <- !Z.ltb_lt, <- !andb_true_iff.
  destruct (gtb (inject_Z (upvotes p)) (mean upvotes posts * 3));
    destruct (gtb (inject_Z (downvotes p)) (mean downvotes posts * 3)
              && (5 <? downvotes p)%Z);
    destruct ((10 <? upvotes p + downvotes p)%Z
              && gtb (inject_Z (downvotes p) / inject_Z (upvotes p + downvotes p))
                     (5 # 10));
    destruct (gtb (inject_Z (comment_count p)) (mean comment_count posts * 4));
    cbn; repeat split; auto; try discriminate;
    intros H; repeat (destruct H as [H | H]; try discriminate); try contradiction.
Qed.

Lemma flagged_reasons posts p : flagged posts p <-> reasons_of posts p <> [].
Proof.
  unfold flagged, flag, reasons_of.
  destruct (inspect _ _ _ p) as [[|r rs] sc]; cbn [fst]; split; congruence.
Qed.

Lemma reason_cases (rs : list Reason) :
  rs <> [] <->
  In HighUpvotes rs \/ In HighDownvotes rs \/ In HighDownvoteShare rs \/
  In HighComments rs.
Proof.
  split.
  - destruct rs as [|[] rs]; [congruence | | | |]; intros _; cbn; auto.
  - intros H E; subst rs; cbn in H; tauto.
Qed.

Lemma insert_perm x l : Permutation (insert x l) (x :: l).
Proof.
  induction l as [|y l IH]; cbn; [reflexivity|].
  destruct (anomalyScore x <? anomalyScore y)%Z; [|reflexivity].
  rewrite IH; apply perm_swap.
Qed.

Lemma sort_perm l : Permutation (sort_by_score l) l.
Proof.
  induction l as [|x l IH]; cbn; [reflexivity|].
  rewrite insert_perm; auto.
Qed.

Lemma insert_descending x l : descending l -> descending (insert x l).
Proof.
  unfold descending; induction l as [|y l IH]; intros Hs; cbn.
  - repeat constructor.
  - inversion Hs as [|? ? Hl Hy]; subst.
    destruct (Z.ltb_spec (anomalyScore x) (anomalyScore y)).
    + constructor; [apply IH; exact Hl|].
      rewrite Forall_forall; intros z Hz.
      apply (Permutation_in _ (insert_perm x l)) in Hz.
      destruct Hz as [<- | Hz]; [lia|].
      rewrite Forall_forall in Hy; apply Hy; exact Hz.
    + constructor; [exact Hs|].
      constructor; [lia|].
      rewrite Forall_forall in *; intros z Hz; specialize (Hy z Hz); lia.
Qed.

Lemma sort_descending l : descending (sort_by_score l).
Proof.
  induction l as [|x l IH]; cbn; [constructor | apply insert_descending, IH].
Qed.

Lemma descending_app l1 l2 :
  descending (l1 ++ l2) ->
  descending l1 /\
  forall u v, In u l1 -> In v l2 -> (anomalyScore v <= anomalyScore u)%Z.
Proof.
  unfold descending; induction l1 as [|x l1 IH]; cbn; intros Hs.
  - split; [constructor | intros u v []].
  - inversion Hs as [|? ? Hl Hx]; subst.
    destruct (IH Hl) as [Hd Hc]; split.
    + constructor; [exact Hd|].
      rewrite Forall_forall in *; intros z Hz; apply Hx, in_or_app; auto.
    + intros u v [<- | Hu] Hv; [|auto].
      rewrite Forall_forall in Hx; apply Hx, in_or_app; auto.
Qed.

Lemma unusual_members posts u :
  In u (unusualPosts posts) <->
  exists p, In p posts /\ flagged posts p /\ u = report posts p.
Proof.
  unfold unusualPosts; rewrite in_flat_map; split.
  - intros (p & Hp & Hu); exists p; split; [exact Hp|].
    unfold flagged, report, reasons_of, severity.
    unfold flag in *.
    destruct (inspect _ _ _ p) as [[|r rs] sc]; cbn [fst snd] in *;
      [contradiction|].
    destruct Hu as [<- | []]; split; [discriminate | reflexivity].
  - intros (p & Hp & Hf & ->); exists p; split; [exact Hp|].
    unfold flagged, report, reasons_of, severity in *.
    unfold flag in *.
    destruct (inspect _ _ _ p) as [[|r rs] sc]; cbn [fst snd] in *;
      [congruence | left; reflexivity].
Qed.

(** C8.  As the code has it: a post of the batch is reported exactly when
    its upvotes exceed 3 times the mean, or its downvotes exceed 3 times the
    mean and 5, or more than half of its more than 10 votes are downvotes,
    or its comments exceed 4 times the mean.  The reasons kept for it are
    the conditions that hold, its score is the sum of their weights (2, 2,
    1, 1).  The result is the first ten entries of the reported posts
    sorted by descending score: it is itself descending, holds at most ten
    entries, and what is left out scores no higher than what is kept. *)
Theorem anomaly_flags posts :
  (forall p,
     flagged posts p <->
     spec_high_upvotes posts p \/ spec_high_downvotes posts p \/
     spec_high_share p \/ spec_high_comments posts p) /\
  (forall u,
     In u (unusualPosts posts) <->
     exists p, In p posts /\ flagged posts p /\ u = report posts p) /\
  (forall p,
     (In HighUpvotes (reasons_of posts p) <-> spec_high_upvotes posts p) /\
     (In HighDownvotes (reasons_of posts p) <-> spec_high_downvotes posts p) /\
     (In HighDownvoteShare (reasons_of posts p) <-> spec_high_share p) /\
     (In HighComments (reasons_of posts p) <-> spec_high_comments posts p) /\
     severity posts p = fold_right Z.add 0%Z (map weight (reasons_of posts p))) /\
  exists rest,
    Permutation (analyze_anomaly posts ++ rest) (unusualPosts posts) /\
    descending (analyze_anomaly posts ++ rest) /\
    descending (analyze_anomaly posts) /\
    (List.length (analyze_anomaly posts) <= 10)%nat /\
    (rest <> [] -> List.length (analyze_anomaly posts) = 10%nat) /\
    forall u v, In u (analyze_anomaly posts) -> In v rest ->
                (anomalyScore v <= anomalyScore u)%Z.
Proof.
  split; [|split; [|split]].
  - intros p; rewrite flagged_reasons, reason_cases.
    destruct (inspect_spec posts p) as (H1 & H2 & H3 & H4 & _).
    rewrite H1, H2, H3, H4; reflexivity.
  - apply unusual_members.
  - apply inspect_spec.
  - exists (skipn 10 (sort_by_score (unusualPosts posts))).
    unfold analyze_anomaly.
    pose proof (sort_descending (unusualPosts posts)) as Hd.
    rewrite <- (firstn_skipn 10 (sort_by_score (unusualPosts posts))) in Hd.
    destruct (descending_app _ _ Hd) as [Hd1 Hd2].
    repeat split; auto.
    + rewrite firstn_skipn; apply sort_perm.
    + rewrite length_firstn; lia.
    + intros Hne; rewrite length_firstn.
      destruct (Nat.le_gt_cases 10 (List.length (sort_by_score (unusualPosts posts))))
        as [Hle | Hgt]; [lia|].
      exfalso; apply Hne, skipn_all2; lia.
Qed.

(** C8, as worded, fails.  A lone post with 4 upvotes and 6 downvotes has
    10 votes, 60% of them down, and is not reported; and of eleven posts
    that are all reported only ten are returned. *)
Lemma anomaly_claim_fails : ~ doc_flag_rule /\ ~ doc_all_returned.
Proof.
  split.
  - intros H.
    destruct (H [ten_votes] ten_votes (or_introl eq_refl)) as [_ Hback].
    apply Hback; [|reflexivity].
    right; right; left; split; [cbn; lia | reflexivity].
  - intros H; specialize (H eleven_downvoted).
    apply Permutation_length in H; vm_compute in H; discriminate.
Qed.

End AnalyticsFacts.

(* ====================================================================== *)
(** * Properties of tool dispatch and of the search fallback *)
(* ====================================================================== *)

Section DispatchFacts.
Import Json Agent.
Local Open Scope string_scope.

Context {rt : Js.Runtime}.

Variable World : Type.
Variable tools : list (ToolDefinition World).

Abbreviation exec_fuel := (executeTool_fuel World tools).
Abbreviation fallback_fuel := (fallbackSearch_fuel World tools).
Abbreviation exec := (executeTool World tools).

Lemma executeTool_fuel_S fuel n input w :
  exec_fuel (S fuel) n input w =
  match getTool World tools n with
  | None => Some (unknown_tool n, w, [])
  | Some tool =>
      match parameters tool input with
      | Throw e => Some (tool_failed e, w, [])
      | Ok validatedInput =>
          match handler tool validatedInput w with
          | (Throw e, w1) => Some (tool_failed e, w1, [Invoked n validatedInput])
          | (Ok result, w1) =>
              if String.eqb n "moltbook_search" && isSearchFailure result
              then
                match fallback_fuel fuel validatedInput w1 with
                | None => None
                | Some (Ok r, w2, calls) =>
                    Some (r, w2, Invoked n validatedInput :: calls)
                | Some (Throw e, w2, calls) =>
                    Some (tool_failed e, w2, Invoked n validatedInput :: calls)
                end
              else Some (result, w1, [Invoked n validatedInput])
          end
      end
  end.
Proof. reflexivity. Qed.

Lemma fallbackSearch_fuel_S fuel input w :
  fallback_fuel (S fuel) input w =
  match extractSearchQuery input with
  | Throw e => Some (Throw e, w, [FellBack input])
  | Ok query =>
      match exec_fuel fuel "moltbook_get_feed" feed_request w with
      | None => None
      | Some (feed, w1, calls) =>
          Some (approximate input query feed, w1, FellBack input :: calls)
      end
  end.
Proof. reflexivity. Qed.

(** A call for a tool other than the search never reaches the fallback,
    so one level of fuel is all it uses. *)
Lemma plain_call_fuel fuel n input w :
  n <> "moltbook_search" ->
  exec_fuel (S fuel) n input w = Some (plain_call World tools n input w).
Proof.
  intros Hn; rewrite executeTool_fuel_S; unfold plain_call.
  apply String.eqb_neq in Hn; rewrite Hn; cbn [andb].
  destruct (getTool World tools n) as [tool|]; [|reflexivity].
  destruct (parameters tool input) as [v|e]; [|reflexivity].
  destruct (handler tool v w) as [[r|e] w1]; reflexivity.
Qed.

Lemma fallback_fuel_enough fuel input w :
  fallback_fuel (S (S fuel)) input w = Some (fallbackSearch World tools input w).
Proof.
  unfold fallbackSearch; rewrite !fallbackSearch_fuel_S.
  destruct (extractSearchQuery input); [|reflexivity].
  rewrite !plain_call_fuel by discriminate.
  destruct (plain_call World tools _ _ w) as [[feed w1] calls]; reflexivity.
Qed.

(** [fallbackSearch], without fuel. *)
Lemma fallbackSearch_eq input w :
  fallbackSearch World tools input w =
  match extractSearchQuery input with
  | Throw e => (Throw e, w, [FellBack input])
  | Ok query =>
      let out := plain_call World tools "moltbook_get_feed" feed_request w in
      (approximate input query (result_of_call out), world_of_call out,
       FellBack input :: calls_of_call out)
  end.
Proof.
  unfold fallbackSearch; rewrite fallbackSearch_fuel_S.
  destruct (extractSearchQuery input); [|reflexivity].
  rewrite plain_call_fuel by discriminate.
  destruct (plain_call World tools _ _ w) as [[feed w1] calls]; reflexivity.
Qed.

(** [executeTool], without fuel. *)
Lemma executeTool_eq n input w :
  exec n input w =
  match getTool World tools n with
  | None => (unknown_tool n, w, [])
  | Some tool =>
      match parameters tool input with
      | Throw e => (tool_failed e, w, [])
      | Ok validatedInput =>
          match handler tool validatedInput w with
          | (Throw e, w1) => (tool_failed e, w1, [Invoked n validatedInput])
          | (Ok result, w1) =>
              if String.eqb n "moltbook_search" && isSearchFailure result
              then
                match fallbackSearch World tools validatedInput w1 with
                | (Ok r, w2, calls) => (r, w2, Invoked n validatedInput :: calls)
                | (Throw e, w2, calls) =>
                    (tool_failed e, w2, Invoked n validatedInput :: calls)
                end
              else (result, w1, [Invoked n validatedInput])
          end
      end
  end.
Proof.
  unfold executeTool; rewrite executeTool_fuel_S.
  destruct (getTool World tools n) as [tool|]; [|reflexivity].
  destruct (parameters tool input) as [v|e]; [|reflexivity].
  destruct (handler tool v w) as [[r|e] w1]; [|reflexivity].
  destruct (String.eqb n "moltbook_search" && isSearchFailure r); [|reflexivity].
  rewrite fallback_fuel_enough.
  destruct (fallbackSearch World tools v w1) as [[[r'|e] w2] calls]; reflexivity.
Qed.

(** Enough fuel gives the result: from depth three on, the bounded
    functions return what [executeTool] returns. *)
Lemma executeTool_fuel_enough fuel n input w :
  exec_fuel (S (S (S fuel))) n input w = Some (exec n input w).
Proof.
  rewrite executeTool_eq, executeTool_fuel_S.
  destruct (getTool World tools n) as [tool|]; [|reflexivity].
  destruct (parameters tool input) as [v|e]; [|reflexivity].
  destruct (handler tool v w) as [[r|e] w1]; [|reflexivity].
  destruct (String.eqb n "moltbook_search" && isSearchFailure r); [|reflexivity].
  rewrite fallback_fuel_enough.
  destruct (fallbackSearch World tools v w1) as [[[r'|e] w2] calls]; reflexivity.
Qed.

Lemma executeTool_plain n input w :
  n <> "moltbook_search" -> exec n input w = plain_call World tools n input w.
Proof.
  intros Hn; unfold executeTool; rewrite plain_call_fuel by exact Hn.
  reflexivity.
Qed.

Lemma isToolFailure_spec r : isToolFailure r = true <-> reports_failure r.
Proof.
  unfold isToolFailure, reports_failure, is_object.
  destruct r as [| b | k | s | items | props]; cbn [prop];
    try (split; [discriminate | intros [H _]; discriminate]).
  - split; [discriminate | intros [_ H]; discriminate].
  - destruct (assoc "success" props) as [[| [] | | | |]|];
      split; intros H; try discriminate; auto;
      destruct H as [_ H]; discriminate.
Qed.

Lemma isSearchFailure_spec r :
  isSearchFailure r = true <->
  reports_failure r /\
  (mentions_search_failed r \/ recorded_status r = Some (JNum 500)).
Proof.
  unfold isSearchFailure, mentions_search_failed, recorded_status.
  rewrite <- isToolFailure_spec.
  destruct (isToolFailure r); cbn [negb];
    [|split; [discriminate | intros [H _]; discriminate]].
  rewrite orb_true_iff; split.
  - intros [H | H]; split; auto.
    + left; destruct (prop r "error") as [[| | | e | |]|];
        try (cbn in H; discriminate).
      exists e; auto.
    + right.
      destruct (oprop (prop r "debug") "status") as [[| | k | | |]|];
        try discriminate.
      destruct (Z.eq_dec k 500) as [-> | Hk]; [reflexivity|].
      destruct k as [|p|p]; try discriminate.
      exfalso; apply Hk.
      repeat (destruct p as [p|p|]; try discriminate); reflexivity.
  - intros [_ [(e & -> & H) | ->]]; auto.
Qed.

(** Identify the tool, the validated input and the handler result named
    in a hypothesis with the ones the call has computed. *)
Ltac same_call Ep Eh :=
  repeat match goal with
         | H : Some _ = Some _ |- _ => injection H as <-
         | H : parameters _ _ = _ |- _ =>
             rewrite Ep in H; first [discriminate H | injection H as <-]
         | H : handler _ _ _ = _ |- _ =>
             rewrite Eh in H; first [discriminate H | injection H as <- <-]
         end.

(** What the call returns once its handler has returned a search failure:
    the answer of the fallback, or the failure object when the fallback
    threw. *)
Lemma executeTool_falls_back input w tool v r w1 :
  getTool World tools "moltbook_search" = Some tool ->
  parameters tool input = Ok v ->
  handler tool v w = (Ok r, w1) ->
  isSearchFailure r = true ->
  let fb := fallbackSearch World tools v w1 in
  exec "moltbook_search" input w =
  (match result_of_call fb with Ok answer => answer | Throw e => tool_failed e end,
   world_of_call fb,
   Invoked "moltbook_search" v :: calls_of_call fb) /\
  existsb is_fallback (calls_of_call fb) = true.
Proof.
  intros Ht Hp Hh Hf fb; rewrite executeTool_eq, Ht, Hp, Hh, Hf.
  cbn [String.eqb Ascii.eqb Bool.eqb andb]; unfold fb.
  rewrite fallbackSearch_eq.
  destruct (extractSearchQuery v) as [q|e]; cbv zeta;
    [match goal with
     | |- context [approximate ?a ?b ?c] => destruct (approximate a b c)
     end|]; split; reflexivity.
Qed.

(** C4.  As the code has it: a call of [executeTool] enters the fallback
    exactly when the tool is [moltbook_search], its input passed
    validation, its handler returned, and the result is an object whose
    [success] is [false] and whose error text mentions "search failed" (in
    any letter case) or whose recorded status is 500; the caller then gets
    the answer of the fallback.  The class of the failure plays no part: a
    client error (a 4xx status) with such an error text starts the
    fallback, and a server error with a status other than 500 and no such
    text does not.  For any other handler result the result is returned as
    it is and only the handler ran; when validation rejects the input, no
    handler and no fallback runs; when the handler throws, no fallback
    runs. *)
Theorem fallback_runs_on_search_failure n input w :
  let out := exec n input w in
  (existsb is_fallback (calls_of_call out) = true <->
   n = "moltbook_search" /\
   exists tool v r w1,
     getTool World tools n = Some tool /\ parameters tool input = Ok v /\
     handler tool v w = (Ok r, w1) /\
     reports_failure r /\
     (mentions_search_failed r \/ recorded_status r = Some (JNum 500))) /\
  (forall tool v r w1,
     n = "moltbook_search" ->
     getTool World tools n = Some tool -> parameters tool input = Ok v ->
     handler tool v w = (Ok r, w1) ->
     reports_failure r ->
     mentions_search_failed r \/ recorded_status r = Some (JNum 500) ->
     let fb := fallbackSearch World tools v w1 in
     out = (match result_of_call fb with
            | Ok answer => answer
            | Throw e => tool_failed e
            end,
            world_of_call fb, Invoked n v :: calls_of_call fb)) /\
  (forall tool v r w1,
     getTool World tools n = Some tool -> parameters tool input = Ok v ->
     handler tool v w = (Ok r, w1) ->
     ~ (reports_failure r /\
        (mentions_search_failed r \/ recorded_status r = Some (JNum 500))) ->
     out = (r, w1, [Invoked n v])) /\
  (forall tool v r w1 k,
     getTool World tools n = Some tool -> parameters tool input = Ok v ->
     handler tool v w = (Ok r, w1) ->
     recorded_status r = Some (JNum k) -> k <> 500%Z ->
     ~ mentions_search_failed r ->
     out = (r, w1, [Invoked n v])) /\
  (forall tool e,
     getTool World tools n = Some tool -> parameters tool input = Throw e ->
     out = (tool_failed e, w, [])) /\
  (forall tool v e w1,
     getTool World tools n = Some tool -> parameters tool input = Ok v ->
     handler tool v w = (Throw e, w1) ->
     out = (tool_failed e, w1, [Invoked n v])).
Proof.
  intros out.
  assert (Plain : forall tool v r w1,
             getTool World tools n = Some tool -> parameters tool input = Ok v ->
             handler tool v w = (Ok r, w1) ->
             ~ (reports_failure r /\
                (mentions_search_failed r \/ recorded_status r = Some (JNum 500))) ->
             out = (r, w1, [Invoked n v])).
  { intros tool v r w1 Ht Hp Hh Hno; unfold out.
    rewrite executeTool_eq, Ht, Hp, Hh.
    destruct (isSearchFailure r) eqn:Ef;
      [apply isSearchFailure_spec in Ef; contradiction|].
    rewrite andb_false_r; reflexivity. }
  split; [|split; [|split; [exact Plain|split; [|split]]]].
  - unfold out; rewrite executeTool_eq.
    destruct (getTool World tools n) as [tool|] eqn:Et.
    2:{ cbn; split; [discriminate | intros (_ & t & v & r & w1 & H & _); discriminate]. }
    destruct (parameters tool input) as [v|e] eqn:Ep.
    2:{ cbn; split; [discriminate|].
        intros (_ & t & v & r & w1 & Ht & Hp & _); same_call Ep Ep. }
    destruct (handler tool v w) as [[r|e] w1] eqn:Eh.
    2:{ cbn; split; [discriminate|].
        intros (_ & t & v' & r & w1' & Ht & Hp & Hh & _); same_call Ep Eh. }
    destruct (String.eqb_spec n "moltbook_search") as [Hn | Hn]; cbn [andb].
    + destruct (isSearchFailure r) eqn:Ef.
      * rewrite fallbackSearch_eq.
        apply isSearchFailure_spec in Ef.
        split; [intros _; split; [exact Hn|]; exists tool, v, r, w1; tauto|].
        intros _.
        destruct (extractSearchQuery v) as [q|e]; cbv zeta;
          [match goal with
           | |- context [approximate ?a ?b ?c] => destruct (approximate a b c)
           end|]; reflexivity.
      * assert (Hno : ~ (reports_failure r /\
                         (mentions_search_failed r \/
                          recorded_status r = Some (JNum 500))))
          by (rewrite <- isSearchFailure_spec; congruence).
        cbn; split; [discriminate|].
        intros (_ & t & v' & r' & w1' & Ht & Hp & Hh & H); same_call Ep Eh.
        tauto.
    + cbn; split; [discriminate | intros [H _]; contradiction].
  - intros tool v r w1 Hn Ht Hp Hh Hr Hd fb; unfold out; subst n.
    apply (executeTool_falls_back input w tool v r w1 Ht Hp Hh).
    apply isSearchFailure_spec; split; assumption.
  - intros tool v r w1 k Ht Hp Hh Hs Hk Hm.
    apply (Plain tool v r w1 Ht Hp Hh).
    intros [_ [H | H]]; [contradiction|].
    rewrite Hs in H; injection H as H; contradiction.
  - intros tool e Ht Hp; unfold out; rewrite executeTool_eq, Ht, Hp; reflexivity.
  - intros tool v e w1 Ht Hp Hh; unfold out.
    rewrite executeTool_eq, Ht, Hp, Hh; reflexivity.
Qed.

End DispatchFacts.

(** C4, on concrete inputs: the platform rejects the search with a 400
    and the error "Query too long", and the result comes back unchanged;
    the search fails with status 500, and the call enters the fallback. *)
Lemma fallback_runs_on_search_failure_witness :
  Agent.executeTool unit [Agent.feed_ok; Agent.search_rejected]
    "moltbook_search" Agent.padded_query tt =
  (Json.JObj [("success", Json.JBool false);
              ("error", Json.JStr "Query too long");
              ("debug", Json.JObj [("status", Json.JNum 400)])]%string,
   tt, [Agent.Invoked "moltbook_search" Agent.padded_query]) /\
  existsb Agent.is_fallback
    (Agent.calls_of_call
       (Agent.executeTool unit Agent.demo_tools "moltbook_search"
          Agent.padded_query tt)) = true.
Proof.
  split.
  - apply (proj1 (proj2 (proj2 (fallback_runs_on_search_failure unit
                                  [Agent.feed_ok; Agent.search_rejected]
                                  "moltbook_search" Agent.padded_query tt)))
                 Agent.search_rejected);
      try reflexivity.
    intros [_ [(e & He & Hinc) | Hs]].
    + vm_compute in He; injection He as <-; vm_compute in Hinc; discriminate.
    + vm_compute in Hs; discriminate.
  - apply (proj1 (fallback_runs_on_search_failure unit Agent.demo_tools
                    "moltbook_search" Agent.padded_query tt)).
    split; [reflexivity|].
    exists Agent.search_down, Agent.padded_query,
      (Json.JObj [("success", Json.JBool false);
                  ("error", Json.JStr "Search failed");
                  ("debug", Json.JObj [("status", Json.JNum 500)])]%string), tt.
    repeat split; right; reflexivity.
Defined.

(** C4, as worded, fails: the platform answers the search with 404 and
    the error "Search failed: no such index".  The handler's result
    reports a failure whose recorded status is that of a client error, not
    of a server-side fault, and the call enters the fallback and answers
    from the feed. *)
Lemma client_error_starts_fallback : ~ Agent.doc_fallback_contract.
Proof.
  intros H.
  specialize (H (list Transport.Effect) Tools.not_found_registry
                (Json.JObj [("query", Json.JStr "agents")]%string) []).
  cbv zeta in H.
  match type of H with
  | forall tool v r w1, _ = Some tool -> _ =>
      specialize (H _ _ _ _ eq_refl eq_refl eq_refl)
  end.
  assert (Hr : Agent.reports_failure
                 (fst (Tools.moltbook_search Transport.some_key None
                         Tools.plain_params Tools.not_found
                         (Json.JObj [("query", Json.JStr "agents")]%string))))
    by (split; reflexivity).
  assert (Hc : Agent.doc_client_error
                 (fst (Tools.moltbook_search Transport.some_key None
                         Tools.plain_params Tools.not_found
                         (Json.JObj [("query", Json.JStr "agents")]%string))))
    by (exists 404%Z; split; [reflexivity | lia]).
  assert (Hs : ~ Agent.doc_server_fault
                 (fst (Tools.moltbook_search Transport.some_key None
                         Tools.plain_params Tools.not_found
                         (Json.JObj [("query", Json.JStr "agents")]%string)))).
  { intros (k & Hk & Hrange); vm_compute in Hk; injection Hk as <-; lia. }
  destruct H as [H1 H2].
  specialize (H1 Hr Hs); vm_compute in H1; discriminate.
Qed.

Section FallbackFacts.
Import Json Agent.
Local Open Scope string_scope.

Context {rt : Js.Runtime}.

Variable World : Type.
Variable tools : list (ToolDefinition World).

Lemma filter_posts_ok q posts :
  Forall (fun p => p <> JNull) posts ->
  filter_posts q posts = Ok (filter (matches_query q) posts).
Proof.
  induction 1 as [|p posts Hp _ IH]; [reflexivity|].
  cbn [filter_posts filter]; rewrite IH.
  destruct p; try congruence; reflexivity.
Qed.

Lemma map_results_ok posts :
  Forall (fun p => p <> JNull) posts ->
  map_results posts = Ok (map entry posts).
Proof.
  induction 1 as [|p posts Hp _ IH]; [reflexivity|].
  cbn [map_results map]; rewrite IH.
  destruct p; try congruence; reflexivity.
Qed.

Lemma filter_empty_query posts : filter (matches_query "") posts = posts.
Proof.
  induction posts as [|p posts IH]; [reflexivity|].
  cbn [filter]; unfold matches_query at 1.
  destruct (Js.toLowerCase _); cbn; rewrite IH; reflexivity.
Qed.

Lemma entry_is_tagged p : prop (entry p) "fallback" = Some (JBool true).
Proof.
  unfold entry, obj; cbn [flat_map fst snd app].
  destruct (prop p "id"), (prop p "title"); reflexivity.
Qed.

Lemma Forall_firstn {A} (P : A -> Prop) k (l : list A) :
  Forall P l -> Forall P (firstn k l).
Proof.
  intros H; revert k; induction H; intros [|k]; cbn; auto.
Qed.

Lemma Forall_filter {A} (P : A -> Prop) f (l : list A) :
  Forall P l -> Forall P (filter f l).
Proof.
  induction 1 as [|x l Hx _ IH]; cbn; auto.
  destruct (f x); auto.
Qed.

(** C5.  As the code has it, whatever [toLowerCase] and [trim] do: for a
    search input that is an object, the fallback makes one call,
    [executeTool("moltbook_get_feed", {sort: "new", limit: 100})], which
    runs at most the feed handler and never the fallback again.  If the
    feed does not come back usable, the result is the failure "Search
    failed (fallback feed unavailable)".  If it does, and no post is
    [null], every post that came back is considered, however many there
    are: the result holds the first 20 of them whose lower-cased title and
    body contain the trimmed, lower-cased query (the first 20 posts when
    that is empty), each tagged [fallback: true], with the note and the
    query as given. *)
Theorem fallback_is_bounded input w :
  input <> JNull ->
  let query := query_of input in
  let fetch := executeTool World tools "moltbook_get_feed" feed_request w in
  let out := fallbackSearch World tools input w in
  feed_request = JObj [("sort", JStr "new"); ("limit", JNum 100)] /\
  calls_of_call out = FellBack input :: calls_of_call fetch /\
  existsb is_fallback (calls_of_call fetch) = false /\
  (forall c, In c (calls_of_call fetch) ->
             exists v, c = Invoked "moltbook_get_feed" v) /\
  world_of_call out = world_of_call fetch /\
  ((forall posts, ~ usable_feed (result_of_call fetch) posts) ->
   exists extra,
     result_of_call out =
     Ok (JObj (("success", JBool false) :: ("error", JStr feed_unavailable)
                 :: extra))) /\
  (forall posts,
     usable_feed (result_of_call fetch) posts ->
     Forall (fun p => p <> JNull) posts ->
     let found :=
       firstn 20 (filter (matches_query (Js.toLowerCase (Js.trim query))) posts) in
     result_of_call out =
     Ok (JObj [("success", JBool true);
               ("results", JArr (map entry found));
               ("note", JStr degraded_note);
               ("query", JStr query)]) /\
     (List.length (map entry found) <= 20)%nat /\
     Forall (fun r => prop r "fallback" = Some (JBool true)) (map entry found) /\
     (Js.toLowerCase (Js.trim query) = "" -> found = firstn 20 posts)) /\
  (forall posts, filter (matches_query "") posts = posts).
Proof.
  intros Hin query fetch out.
  assert (Hq : extractSearchQuery input = Ok query).
  { unfold extractSearchQuery, query, query_of.
    destruct input; try congruence;
      destruct (prop _ "query") as [[| | | q | |]|]; reflexivity. }
  assert (Hout : out = (approximate input query (result_of_call fetch),
                        world_of_call fetch,
                        FellBack input :: calls_of_call fetch)).
  { unfold out, fetch; rewrite fallbackSearch_eq, Hq.
    rewrite executeTool_plain by discriminate; reflexivity. }
  assert (Hcalls : forall c, In c (calls_of_call fetch) ->
                             exists v, c = Invoked "moltbook_get_feed" v).
  { unfold fetch; rewrite executeTool_plain by discriminate.
    unfold plain_call.
    destruct (getTool World tools _) as [tool|]; [|intros c []].
    destruct (parameters tool _) as [v|e]; [|intros c []].
    destruct (handler tool v w) as [[r|e] w1]; cbn;
      intros c [<- | []]; eauto. }
  split; [reflexivity|].
  rewrite Hout; cbn [calls_of_call world_of_call result_of_call fst snd].
  split; [reflexivity|];
    split; [|split; [exact Hcalls|split; [reflexivity|split; [|split]]]].
  - destruct (existsb is_fallback (calls_of_call fetch)) eqn:E; [|reflexivity].
    apply existsb_exists in E; destruct E as (c & Hc & Hf).
    destruct (Hcalls c Hc) as (v & ->); discriminate.
  - intros Hbad; unfold approximate.
    destruct (is_object (result_of_call fetch)) eqn:Eo; cbn [negb];
      [|eexists; reflexivity].
    destruct (truthy (prop (result_of_call fetch) "success")) eqn:Es;
      [|eexists; reflexivity].
    destruct (prop (result_of_call fetch) "posts") as [[| | | | posts |]|] eqn:Ea;
      try (eexists; reflexivity).
    exfalso; apply (Hbad posts); repeat split; auto.
  - intros posts (Ho & Hs & Ha) Hnn.
    set (found := firstn 20 _).
    unfold approximate; rewrite Ho, Hs, Ha; cbn [negb].
    assert (Hm : (if String.eqb (Js.toLowerCase (Js.trim query)) ""
                  then Ok posts
                  else filter_posts (Js.toLowerCase (Js.trim query)) posts) =
                 Ok (filter (matches_query (Js.toLowerCase (Js.trim query))) posts)).
    { destruct (String.eqb_spec (Js.toLowerCase (Js.trim query)) "") as [-> | _].
      - rewrite filter_empty_query; reflexivity.
      - apply filter_posts_ok, Hnn. }
    rewrite Hm, map_results_ok by (apply Forall_firstn, Forall_filter, Hnn).
    fold found; split; [reflexivity|]; split; [|split].
    + rewrite length_map; unfold found; rewrite length_firstn; lia.
    + rewrite Forall_map, Forall_forall; intros p _; apply entry_is_tagged.
    + intros Hempty; unfold found; rewrite Hempty, filter_empty_query.
      reflexivity.
  - apply filter_empty_query.
Qed.

End FallbackFacts.

(** C5, on a concrete input: the query ["  agents "] against a feed of two
    posts, one of which has "Agents" in its title.  One request for the
    feed, and one match, tagged. *)
Lemma fallback_is_bounded_witness :
  Agent.padded_query <> Json.JNull /\
  Agent.calls_of_call (Agent.fallbackSearch unit Agent.demo_tools Agent.padded_query tt) =
  Agent.FellBack Agent.padded_query
    :: Agent.calls_of_call
         (Agent.executeTool unit Agent.demo_tools "moltbook_get_feed"
            Agent.feed_request tt) /\
  Agent.result_of_call
    (Agent.fallbackSearch unit Agent.demo_tools Agent.padded_query tt) =
  Agent.Ok
    (Json.JObj
       [("success", Json.JBool true);
        ("results",
         Json.JArr
           [Json.JObj [("id", Json.JStr "1"); ("type", Json.JStr "post");
                       ("title", Json.JStr "Agents at work");
                       ("content", Json.JStr "Notes from the field");
                       ("similarity", Json.JNum 0); ("post_id", Json.JStr "1");
                       ("fallback", Json.JBool true)]]);
        ("note", Json.JStr Agent.degraded_note);
        ("query", Json.JStr "  agents ")]%string).
Proof.
  split; [discriminate|].
  pose proof (fallback_is_bounded unit Agent.demo_tools Agent.padded_query tt
                ltac:(discriminate)) as H.
  cbv zeta in H; destruct H as (_ & Hcalls & _ & _ & _ & _ & Hposts & _).
  split; [exact Hcalls|].
  destruct (Hposts Agent.feed_posts) as [Hr _].
  - repeat split.
  - repeat constructor; discriminate.
  - exact Hr.
Defined.

(** C5, as worded, fails twice.  With the query ["  agents "] the
    fallback returns the post titled "Agents at work", which does not
    contain the original query, blanks included: the code matches on the
    trimmed query.  And when the platform answers the request for 100
    posts with 101, of which only the last mentions agents, the fallback
    returns that post: the code asks for 100 posts and searches all that
    come back. *)
Lemma fallback_claim_fails :
  ~ Agent.doc_fallback_matching /\ ~ Agent.doc_fallback_window.
Proof.
  split; intros H.
  - specialize (H unit Agent.demo_tools Agent.padded_query tt Agent.feed_posts).
    assert (Hu : Agent.usable_feed
                   (Agent.result_of_call
                      (Agent.executeTool unit Agent.demo_tools "moltbook_get_feed"
                         Agent.feed_request tt)) Agent.feed_posts)
      by (repeat split).
    assert (Hn : Forall (fun p => p <> Json.JNull) Agent.feed_posts)
      by (repeat constructor; discriminate).
    specialize (H ltac:(discriminate) Hu Hn).
    vm_compute in H; discriminate.
  - specialize (H (list Transport.Effect) Tools.crowded_registry
                  Agent.plain_query [] Agent.long_feed).
    assert (Hu : Agent.usable_feed
                   (Agent.result_of_call
                      (Agent.executeTool (list Transport.Effect)
                         Tools.crowded_registry
                         "moltbook_get_feed" Agent.feed_request []))
                   Agent.long_feed)
      by (repeat split).
    assert (Hn : Forall (fun p => p <> Json.JNull) Agent.long_feed).
    { apply Forall_forall; intros p Hp.
      apply in_app_or in Hp; destruct Hp as [Hp | [<- | []]]; [|discriminate].
      apply repeat_spec in Hp; subst p; discriminate. }
    specialize (H ltac:(discriminate) Hu Hn).
    vm_compute in H; discriminate.
Qed.

(* ====================================================================== *)
(** * Properties of the orchestration loops *)
(* ====================================================================== *)

Section LoopFacts.
Import Json Agent.
Local Open Scope string_scope.

Context {rt : Js.Runtime}.

Variable World : Type.
Variable tools : list (ToolDefinition World).
Variable JSON_stringify : json -> string.
Variable JSON_parse : string -> option json.
Variable claude_stream : World -> list MessageParam -> Streamed * World.
Variable claude_create : World -> list MessageParam -> Outcome FinalMessage * World.
Variable openai_stream : World -> list ChatMessage -> Completion * World.
Variable openai_create : World -> list ChatMessage -> Outcome Choice * World.

Abbreviation run_claude_tools := (claude_tools World tools JSON_stringify).
Abbreviation run_openai_tools := (openai_tools World tools JSON_stringify JSON_parse).

Lemma interleaved_app c1 e1 c2 e2 :
  interleaved c1 e1 -> interleaved c2 e2 ->
  interleaved (c1 ++ c2) (e1 ++ e2).
Proof.
  induction 1; intros H2; cbn; auto; constructor; auto.
Qed.

Lemma interleaved_texts raw : interleaved [] (text_events raw).
Proof.
  induction raw as [|[s|] raw IH]; cbn; [constructor | | exact IH].
  constructor; exact IH.
Qed.

Lemma interleaved_pairs calls : interleaved calls (pairs_of calls).
Proof.
  induction calls as [|c calls IH]; cbn; constructor; exact IH.
Qed.

Lemma consume_texts cs : forall fullText pending,
  interleaved [] (fst (fst (consume cs fullText pending))).
Proof.
  induction cs as [|c cs IH]; intros fullText pending; cbn [consume].
  - constructor.
  - specialize (IH (fullText ++ or_empty (delta_content c))
                   (fold_left accumulate (delta_tool_calls c) pending)).
    destruct (consume cs _ _) as [[later ft] pd]; cbn [fst] in *.
    destruct (nonempty (delta_content c)); cbn; [constructor|]; exact IH.
Qed.

Abbreviation arguments_of :=
  (fun tc => parse_arguments JSON_parse (pending_arguments tc)).

(** One round of the block protocol runs every requested call, in order. *)
Lemma claude_tools_spec uses : forall w toolCalls toolResults,
  exists new,
    snd (fst (run_claude_tools uses w toolCalls toolResults)) = (toolCalls ++ new)%list /\
    fst (fst (fst (run_claude_tools uses w toolCalls toolResults))) = pairs_of new /\
    map call_name new = map use_name uses /\
    map call_input new = map use_input uses /\
    snd (run_claude_tools uses w toolCalls toolResults) =
      (toolResults ++
       map (fun uc => mkToolResult (use_id (fst uc))
                                   (JSON_stringify (call_output (snd uc))))
           (combine uses new))%list.
Proof.
  induction uses as [|u uses IH]; intros w toolCalls toolResults.
  - exists []; cbn; rewrite !app_nil_r; repeat split.
  - cbn [claude_tools].
    destruct (executeTool World tools (use_name u) (use_input u) w)
      as [[result w1] trace].
    match goal with
    | |- context [claude_tools World tools JSON_stringify uses w1 ?c ?r] =>
        destruct (IH w1 c r) as (new & H1 & H2 & H3 & H4 & H5);
        destruct (claude_tools World tools JSON_stringify uses w1 c r)
          as [[[later w2] calls'] results']
    end.
    cbn [fst snd] in *.
    exists (mkToolCall (use_name u) (use_input u) result :: new).
    rewrite H1, H5, <- !app_assoc; cbn [app map combine fst snd call_name
                                         call_input call_output use_id].
    rewrite H2, H3, H4; repeat split.
Qed.

(** One round of the chunk protocol runs every accumulated call, in order,
    and appends one tool message per call to the conversation. *)
Lemma openai_tools_spec pending : forall w toolCalls conversation,
  exists new,
    snd (fst (run_openai_tools pending w toolCalls conversation)) = (toolCalls ++ new)%list /\
    fst (fst (fst (run_openai_tools pending w toolCalls conversation))) = pairs_of new /\
    map call_name new = map pending_name pending /\
    map call_input new = map arguments_of pending /\
    snd (run_openai_tools pending w toolCalls conversation) =
      (conversation ++
       map (fun pc => ToolMessage (pending_id (fst pc))
                                  (JSON_stringify (call_output (snd pc))))
           (combine pending new))%list.
Proof.
  induction pending as [|tc pending IH]; intros w toolCalls conversation.
  - exists []; cbn; rewrite !app_nil_r; repeat split.
  - cbn [openai_tools].
    destruct (executeTool World tools (pending_name tc) (arguments_of tc) w)
      as [[result w1] trace].
    match goal with
    | |- context [openai_tools World tools JSON_stringify JSON_parse pending w1 ?c ?r] =>
        destruct (IH w1 c r) as (new & H1 & H2 & H3 & H4 & H5);
        destruct (openai_tools World tools JSON_stringify JSON_parse pending w1 c r)
          as [[[later w2] calls'] conversation']
    end.
    cbn [fst snd] in *.
    exists (mkToolCall (pending_name tc) (arguments_of tc) result :: new).
    rewrite H1, H5, <- !app_assoc; cbn [app map combine fst snd call_name
                                         call_input call_output pending_id].
    rewrite H2, H3, H4; repeat split.
Qed.

Abbreviation calls_of_round := (run_calls World tools).

(** The records of a round name the requests, in order. *)
Lemma run_calls_requests requests : forall w,
  map (fun c => (call_name c, call_input c)) (fst (calls_of_round requests w))
  = requests.
Proof.
  induction requests as [|[n input] requests IH]; intros w; [reflexivity|].
  cbn [run_calls].
  specialize (IH (world_of_call (executeTool World tools n input w))).
  destruct (calls_of_round requests _) as [later w2]; cbn [fst map] in *.
  rewrite IH; reflexivity.
Qed.

Lemma run_calls_cons n input requests w :
  fst (calls_of_round ((n, input) :: requests) w) =
  mkToolCall n input (result_of_call (executeTool World tools n input w))
    :: fst (calls_of_round requests
              (world_of_call (executeTool World tools n input w))) /\
  snd (calls_of_round ((n, input) :: requests) w) =
  snd (calls_of_round requests
         (world_of_call (executeTool World tools n input w))).
Proof.
  cbn [run_calls].
  destruct (calls_of_round requests _) as [later w2]; split; reflexivity.
Qed.

Lemma run_calls_length requests w :
  List.length (fst (calls_of_round requests w)) = List.length requests.
Proof.
  rewrite <- (run_calls_requests requests w) at 2.
  rewrite length_map; reflexivity.
Qed.

Lemma calls_of_uses uses w :
  map call_name (fst (calls_of_round (requests_of_uses uses) w))
  = map use_name uses /\
  map call_input (fst (calls_of_round (requests_of_uses uses) w))
  = map use_input uses /\
  List.length (fst (calls_of_round (requests_of_uses uses) w))
  = List.length uses.
Proof.
  pose proof (run_calls_requests (requests_of_uses uses) w) as H.
  split; [|split].
  - transitivity (map fst (map (fun c => (call_name c, call_input c))
                             (fst (calls_of_round (requests_of_uses uses) w))));
      [rewrite map_map; reflexivity|].
    rewrite H; unfold requests_of_uses; rewrite map_map; reflexivity.
  - transitivity (map snd (map (fun c => (call_name c, call_input c))
                             (fst (calls_of_round (requests_of_uses uses) w))));
      [rewrite map_map; reflexivity|].
    rewrite H; unfold requests_of_uses; rewrite map_map; reflexivity.
  - rewrite run_calls_length; unfold requests_of_uses; apply length_map.
Qed.

Lemma calls_of_pending pending w :
  map call_name (fst (calls_of_round (requests_of_pending JSON_parse pending) w))
  = map pending_name pending /\
  map call_input (fst (calls_of_round (requests_of_pending JSON_parse pending) w))
  = map arguments_of pending /\
  List.length (fst (calls_of_round (requests_of_pending JSON_parse pending) w))
  = List.length pending.
Proof.
  pose proof (run_calls_requests (requests_of_pending JSON_parse pending) w) as H.
  split; [|split].
  - transitivity (map fst (map (fun c => (call_name c, call_input c))
                             (fst (calls_of_round (requests_of_pending JSON_parse pending) w))));
      [rewrite map_map; reflexivity|].
    rewrite H; unfold requests_of_pending; rewrite map_map; reflexivity.
  - transitivity (map snd (map (fun c => (call_name c, call_input c))
                             (fst (calls_of_round (requests_of_pending JSON_parse pending) w))));
      [rewrite map_map; reflexivity|].
    rewrite H; unfold requests_of_pending; rewrite map_map; reflexivity.
  - rewrite run_calls_length; unfold requests_of_pending; apply length_map.
Qed.

(** The loop over the requested calls of the block protocol does what
    the design document says of a round. *)
Lemma claude_tools_run uses : forall w toolCalls toolResults,
  run_claude_tools uses w toolCalls toolResults =
  (pairs_of (fst (calls_of_round (requests_of_uses uses) w)),
   snd (calls_of_round (requests_of_uses uses) w),
   (toolCalls ++ fst (calls_of_round (requests_of_uses uses) w))%list,
   (toolResults
      ++ answers_of_uses JSON_stringify uses
           (fst (calls_of_round (requests_of_uses uses) w)))%list).
Proof.
  induction uses as [|u uses IH]; intros w toolCalls toolResults.
  - cbn; rewrite !app_nil_r; reflexivity.
  - change (requests_of_uses (u :: uses))
      with ((use_name u, use_input u) :: requests_of_uses uses).
    destruct (run_calls_cons (use_name u) (use_input u) (requests_of_uses uses) w)
      as [-> ->].
    cbn [claude_tools]; unfold result_of_call, world_of_call.
    destruct (executeTool World tools (use_name u) (use_input u) w)
      as [[result w1] trace]; cbn [fst snd].
    rewrite IH.
    unfold answers_of_uses, pairs_of;
      cbn [combine map flat_map app fst snd call_name call_output].
    rewrite <- !app_assoc; reflexivity.
Qed.

(** So does the loop over the accumulated calls of the chunk protocol. *)
Lemma openai_tools_run pending : forall w toolCalls conversation,
  run_openai_tools pending w toolCalls conversation =
  (pairs_of (fst (calls_of_round (requests_of_pending JSON_parse pending) w)),
   snd (calls_of_round (requests_of_pending JSON_parse pending) w),
   (toolCalls ++ fst (calls_of_round (requests_of_pending JSON_parse pending) w))%list,
   (conversation
      ++ answers_of_pending JSON_stringify pending
           (fst (calls_of_round (requests_of_pending JSON_parse pending) w)))%list).
Proof.
  induction pending as [|tc pending IH]; intros w toolCalls conversation.
  - cbn; rewrite !app_nil_r; reflexivity.
  - change (requests_of_pending JSON_parse (tc :: pending))
      with ((pending_name tc, arguments_of tc)
              :: requests_of_pending JSON_parse pending).
    destruct (run_calls_cons (pending_name tc) (arguments_of tc)
                (requests_of_pending JSON_parse pending) w) as [-> ->].
    cbn [openai_tools]; unfold result_of_call, world_of_call.
    destruct (executeTool World tools (pending_name tc) (arguments_of tc) w)
      as [[result w1] trace]; cbn [fst snd].
    rewrite IH.
    unfold answers_of_pending, pairs_of;
      cbn [combine map flat_map app fst snd call_name call_output].
    rewrite <- !app_assoc; reflexivity.
Qed.

(** The results handed back carry the ids of the requests and the texts
    of the results, in order. *)
Lemma answers_of_uses_spec uses calls :
  List.length calls = List.length uses ->
  map tool_use_id (answers_of_uses JSON_stringify uses calls) = map use_id uses /\
  map result_content (answers_of_uses JSON_stringify uses calls)
  = map (fun c => JSON_stringify (call_output c)) calls.
Proof.
  unfold answers_of_uses; revert calls.
  induction uses as [|u uses IH]; intros [|c calls] Hl; try discriminate;
    [split; reflexivity|].
  destruct (IH calls ltac:(cbn in Hl; lia)) as [H1 H2].
  cbn [combine map fst snd tool_use_id result_content]; rewrite H1, H2.
  split; reflexivity.
Qed.

Lemma answers_of_pending_spec pending calls :
  List.length calls = List.length pending ->
  answers_of_pending JSON_stringify pending calls =
  map (fun ic => ToolMessage (fst ic) (JSON_stringify (snd ic)))
      (combine (map pending_id pending) (map call_output calls)).
Proof.
  unfold answers_of_pending; revert calls.
  induction pending as [|tc pending IH]; intros [|c calls] Hl; try discriminate;
    [reflexivity|].
  cbn [combine map fst snd]; rewrite (IH calls) by (cbn in Hl; lia).
  reflexivity.
Qed.

Abbreviation claude_streaming := (claude_stream_loop World tools JSON_stringify claude_stream).
Abbreviation openai_streaming :=
  (openai_stream_loop World tools JSON_stringify JSON_parse openai_stream).
Abbreviation claude_returning := (claude_loop World tools JSON_stringify claude_create).
Abbreviation openai_returning :=
  (openai_loop World tools JSON_stringify JSON_parse openai_create).

(** One pass of each loop, with the round written as the design document
    describes it. *)
Lemma claude_stream_round remaining turn w conversation toolCalls :
  let stream := fst (claude_stream w conversation) in
  let w1 := snd (claude_stream w conversation) in
  claude_streaming (S remaining) turn w conversation toolCalls =
  match final stream with
  | Throw e =>
      mkRun World _ _ (text_events (seen stream) ++ [error e])%list (turn + 1)%Z
            toolCalls conversation w1
  | Ok m =>
      let uses := tool_uses (content m) in
      let round := calls_of_round (requests_of_uses uses) w1 in
      let conversation' :=
        (conversation
           ++ [AssistantBlocks (content m);
               UserToolResults (answers_of_uses JSON_stringify uses (fst round))])%list in
      match uses with
      | [] =>
          mkRun World _ _ (text_events (seen stream) ++ [done (if_any toolCalls)])%list
                (turn + 1)%Z toolCalls
                (conversation ++ [AssistantBlocks (content m)])%list w1
      | _ :: _ =>
          if String.eqb (stop_reason m) "end_turn" then
            mkRun World _ _
                  (text_events (seen stream) ++ pairs_of (fst round)
                     ++ [done (Some (toolCalls ++ fst round)%list)])%list
                  (turn + 1)%Z (toolCalls ++ fst round)%list conversation'
                  (snd round)
          else
            after World (text_events (seen stream) ++ pairs_of (fst round))%list
                  (claude_streaming remaining (turn + 1)%Z (snd round)
                                    conversation' (toolCalls ++ fst round)%list)
      end
  end.
Proof.
  cbv zeta; cbn [claude_stream_loop].
  destruct (claude_stream w conversation) as [stream w1]; cbn [fst snd].
  destruct (final stream) as [m|e]; [|reflexivity].
  destruct (tool_uses (content m)) as [|u us] eqn:Eu; [reflexivity|].
  rewrite claude_tools_run; cbn [app]; reflexivity.
Qed.

Lemma openai_stream_round remaining turn w conversation toolCalls :
  let stream := fst (openai_stream w conversation) in
  let w1 := snd (openai_stream w conversation) in
  let texts := fst (fst (consume (chunks stream) "" [])) in
  let fullText := snd (fst (consume (chunks stream) "" [])) in
  let pending := map snd (snd (consume (chunks stream) "" [])) in
  let round := calls_of_round (requests_of_pending JSON_parse pending) w1 in
  openai_streaming (S remaining) turn w conversation toolCalls =
  match failure stream with
  | Some e =>
      mkRun World _ _ (texts ++ [error e])%list (turn + 1)%Z toolCalls conversation w1
  | None =>
      match pending with
      | _ :: _ =>
          after World (texts ++ pairs_of (fst round))%list
                (openai_streaming remaining (turn + 1)%Z (snd round)
                   ((conversation ++ [AssistantMessage (nonempty (Some fullText)) pending])
                      ++ answers_of_pending JSON_stringify pending (fst round))%list
                   (toolCalls ++ fst round)%list)
      | [] =>
          mkRun World _ _ (texts ++ [done (if_any toolCalls)])%list (turn + 1)%Z toolCalls
                (conversation ++ [AssistantMessage (Some fullText) []])%list w1
      end
  end.
Proof.
  cbv zeta; cbn [openai_stream_loop].
  destruct (openai_stream w conversation) as [stream w1]; cbn [fst snd].
  destruct (consume (chunks stream) "" []) as [[yielded fullText] pending];
    cbn [fst snd].
  destruct (failure stream) as [e|]; [reflexivity|].
  destruct pending as [|p ps]; [reflexivity|].
  rewrite openai_tools_run; reflexivity.
Qed.

Lemma claude_round provider remaining turn w conversation toolCalls :
  let w1 := snd (claude_create w conversation) in
  claude_returning provider (S remaining) turn w conversation toolCalls =
  match fst (claude_create w conversation) with
  | Throw e =>
      mkRun World _ _ (handleError provider e toolCalls) (turn + 1)%Z toolCalls
            conversation w1
  | Ok m =>
      let uses := tool_uses (content m) in
      let round := calls_of_round (requests_of_uses uses) w1 in
      let conversation' :=
        (conversation
           ++ [AssistantBlocks (content m);
               UserToolResults (answers_of_uses JSON_stringify uses (fst round))])%list in
      let textResponse := join_lines (text_blocks (content m)) in
      match uses with
      | [] =>
          mkRun World _ _ (mkResponse textResponse (if_any toolCalls) false)
                (turn + 1)%Z toolCalls
                (conversation ++ [AssistantBlocks (content m)])%list w1
      | _ :: _ =>
          if String.eqb (stop_reason m) "end_turn" then
            mkRun World _ _
                  (mkResponse textResponse (Some (toolCalls ++ fst round)%list) false)
                  (turn + 1)%Z (toolCalls ++ fst round)%list conversation'
                  (snd round)
          else
            claude_returning provider remaining (turn + 1)%Z (snd round)
                             conversation' (toolCalls ++ fst round)%list
      end
  end.
Proof.
  cbv zeta; cbn [claude_loop].
  destruct (claude_create w conversation) as [[m|e] w1]; cbn [fst snd];
    [|reflexivity].
  destruct (tool_uses (content m)) as [|u us] eqn:Eu; [reflexivity|].
  rewrite claude_tools_run; cbn [app]; reflexivity.
Qed.

Lemma openai_round provider remaining turn w conversation toolCalls :
  let w1 := snd (openai_create w conversation) in
  openai_returning provider (S remaining) turn w conversation toolCalls =
  match fst (openai_create w conversation) with
  | Throw e =>
      mkRun World _ _ (handleError provider e toolCalls) (turn + 1)%Z toolCalls
            conversation w1
  | Ok message =>
      let pending := choice_tool_calls message in
      let round := calls_of_round (requests_of_pending JSON_parse pending) w1 in
      let conversation' :=
        (conversation ++ [AssistantMessage (choice_content message) pending])%list in
      match pending with
      | _ :: _ =>
          openai_returning provider remaining (turn + 1)%Z (snd round)
            (conversation' ++ answers_of_pending JSON_stringify pending (fst round))%list
            (toolCalls ++ fst round)%list
      | [] =>
          mkRun World _ _ (mkResponse (or_empty (choice_content message))
                                  (if_any toolCalls) false)
                (turn + 1)%Z toolCalls conversation' w1
      end
  end.
Proof.
  cbv zeta; cbn [openai_loop].
  destruct (openai_create w conversation) as [[message|e] w1]; cbn [fst snd];
    [|reflexivity].
  destruct (choice_tool_calls message) as [|p ps] eqn:Ep; [reflexivity|].
  rewrite openai_tools_run; reflexivity.
Qed.

Lemma after_output {H} evs (r : Run World (list StreamEvent) H) :
  output (after World evs r) = (evs ++ output r)%list /\
  recorded (after World evs r) = recorded r /\
  turns (after World evs r) = turns r.
Proof. repeat split. Qed.

Lemma claude_stream_loop_shape remaining : forall turn w conversation toolCalls,
  exists body last new,
    output (claude_streaming remaining turn w conversation toolCalls) =
      (body ++ [last])%list /\
    is_terminal last = true /\
    recorded (claude_streaming remaining turn w conversation toolCalls) =
      (toolCalls ++ new)%list /\
    interleaved new body.
Proof.
  induction remaining as [|r IH]; intros turn w conversation toolCalls.
  - exists [], (done (Some toolCalls)), []; cbn; rewrite app_nil_r.
    repeat split; constructor.
  - cbn [claude_stream_loop].
    destruct (claude_stream w conversation) as [stream w1].
    pose proof (interleaved_texts (seen stream)) as Ht.
    destruct (final stream) as [finalMessage | errorMessage].
    2:{ exists (text_events (seen stream)), (error errorMessage), [].
        cbn; rewrite app_nil_r; repeat split; exact Ht. }
    destruct (tool_uses (content finalMessage)) as [|u us].
    { exists (text_events (seen stream)), (done (if_any toolCalls)), [].
      cbn; rewrite app_nil_r; repeat split; exact Ht. }
    destruct (claude_tools_spec (u :: us) w1 toolCalls []) as (new & H1 & H2 & _).
    destruct (run_claude_tools (u :: us) w1 toolCalls [])
      as [[[evs w2] toolCalls'] toolResults]; cbn [fst snd] in H1, H2; subst toolCalls' evs.
    pose proof (interleaved_pairs new) as H2.
    set (evs := pairs_of new) in *.
    destruct (String.eqb (stop_reason finalMessage) "end_turn").
    + exists (text_events (seen stream) ++ evs)%list, (done (Some (toolCalls ++ new)%list)), new.
      cbn [output recorded]; rewrite <- app_assoc; repeat split.
      exact (interleaved_app [] _ new _ Ht H2).
    + match goal with
      | |- context [claude_stream_loop _ _ _ _ r ?t ?w ?c ?k] =>
          destruct (IH t w c k) as (body & last & new' & E1 & E2 & E3 & E4)
      end.
      exists ((text_events (seen stream) ++ evs) ++ body)%list, last, (new ++ new')%list.
      cbn [output recorded after]; rewrite E1, E3, <- !app_assoc.
      repeat split; auto.
      rewrite app_assoc.
      apply (interleaved_app new _ new' _); [|exact E4].
      exact (interleaved_app [] _ new _ Ht H2).
Qed.


Lemma has_keys idx pending :
  has idx pending = existsb (Z.eqb idx) (map fst pending).
Proof.
  unfold has; induction pending as [|e pending IH]; cbn; [reflexivity|].
  rewrite IH, (Z.eqb_sym (fst e) idx); reflexivity.
Qed.

Lemma update_keys idx f pending : map fst (update idx f pending) = map fst pending.
Proof.
  unfold update; rewrite map_map; apply map_ext.
  intros e; destruct (Z.eqb (fst e) idx); reflexivity.
Qed.

Lemma accumulate_keys pending tc :
  map fst (accumulate pending tc) = see (map fst pending) (index tc).
Proof.
  unfold accumulate, see; rewrite update_keys, has_keys.
  destruct (existsb (Z.eqb (index tc)) (map fst pending)); [reflexivity|].
  rewrite map_app; reflexivity.
Qed.

Lemma accumulate_all_keys deltas : forall pending,
  map fst (fold_left accumulate deltas pending) =
  fold_left see (map index deltas) (map fst pending).
Proof.
  induction deltas as [|tc deltas IH]; intros pending; cbn; [reflexivity|].
  rewrite IH, accumulate_keys; reflexivity.
Qed.

Lemma consume_keys cs : forall fullText pending,
  map fst (snd (consume cs fullText pending)) =
  fold_left see (delta_indices cs) (map fst pending).
Proof.
  induction cs as [|c cs IH]; intros fullText pending; cbn [consume];
    [reflexivity|].
  specialize (IH (fullText ++ or_empty (delta_content c))
                 (fold_left accumulate (delta_tool_calls c) pending)).
  destruct (consume cs _ _) as [[later ft] pd]; cbn [snd] in *.
  rewrite IH, accumulate_all_keys.
  unfold delta_indices; cbn [flat_map]; rewrite fold_left_app; reflexivity.
Qed.


Lemma see_keeps seen indices : seen <> [] -> fold_left see indices seen <> [].
Proof.
  revert seen; induction indices as [|i indices IH]; intros seen Hs; cbn; auto.
  apply IH; unfold see; destruct (existsb (Z.eqb i) seen); auto.
  destruct seen; discriminate.
Qed.

Lemma first_seen_nonempty indices : indices <> [] -> first_seen indices <> [].
Proof.
  destruct indices as [|i indices]; [congruence|]; intros _.
  unfold first_seen; cbn; apply see_keeps; discriminate.
Qed.

Lemma claude_stream_limit remaining : forall turn w conversation toolCalls,
  claude_stream_always (fun m => requests_calls m /\ keeps_going m) claude_stream ->
  let r := claude_streaming remaining turn w conversation toolCalls in
  turns r = (turn + Z.of_nat remaining)%Z /\
  exists body new,
    output r = (body ++ [done (Some (recorded r))])%list /\
    recorded r = (toolCalls ++ new)%list /\ interleaved new body.
Proof.
  induction remaining as [|n IH]; intros turn w conversation toolCalls Hp r.
  - unfold r; cbn; split; [lia|].
    exists [], []; rewrite app_nil_r; repeat split; constructor.
  - unfold r; cbn [claude_stream_loop].
    destruct (Hp w conversation) as (m & Hm & Hreq & Hgo).
    destruct (claude_stream w conversation) as [stream w1]; cbn [fst] in Hm.
    rewrite Hm.
    pose proof (interleaved_texts (seen stream)) as Ht.
    unfold requests_calls in Hreq.
    destruct (tool_uses (content m)) as [|u us]; [congruence|].
    destruct (claude_tools_spec (u :: us) w1 toolCalls []) as (new & H1 & H2 & _).
    destruct (run_claude_tools (u :: us) w1 toolCalls [])
      as [[[evs w2] toolCalls'] toolResults]; cbn [fst snd] in H1, H2;
      subst toolCalls' evs.
    apply String.eqb_neq in Hgo; rewrite Hgo.
    match goal with
    | |- context [claude_stream_loop _ _ _ _ n ?t ?w ?c ?k] =>
        destruct (IH t w c k Hp) as (E0 & body & new' & E1 & E3 & E4)
    end.
    cbn [turns output recorded after] in *; split; [lia|].
    exists ((text_events (seen stream) ++ pairs_of new) ++ body)%list, (new ++ new')%list.
    rewrite E1, E3, <- !app_assoc; repeat split.
    rewrite app_assoc.
    apply (interleaved_app new _ new' _); [|exact E4].
    exact (interleaved_app [] _ new _ Ht (interleaved_pairs new)).
Qed.

Lemma openai_stream_limit remaining : forall turn w conversation toolCalls,
  openai_stream_always_requests openai_stream ->
  let r := openai_streaming remaining turn w conversation toolCalls in
  turns r = (turn + Z.of_nat remaining)%Z /\
  exists body new,
    output r = (body ++ [done (Some (recorded r))])%list /\
    recorded r = (toolCalls ++ new)%list /\ interleaved new body.
Proof.
  induction remaining as [|n IH]; intros turn w conversation toolCalls Hp r.
  - unfold r; cbn; split; [lia|].
    exists [], []; rewrite app_nil_r; repeat split; constructor.
  - unfold r; cbn [openai_stream_loop].
    destruct (Hp w conversation) as (Hf & Hreq).
    destruct (openai_stream w conversation) as [stream w1]; cbn [fst] in Hf, Hreq.
    pose proof (consume_texts (chunks stream) "" []) as Ht.
    pose proof (consume_keys (chunks stream) "" []) as Hk.
    destruct (consume (chunks stream) "" []) as [[yielded fullText] pending];
      cbn [fst snd] in Ht, Hk.
    rewrite Hf.
    destruct pending as [|p ps].
    { exfalso; apply (first_seen_nonempty _ Hreq); symmetry; exact Hk. }
    match goal with
    | |- context [openai_tools _ _ _ _ ?l w1 toolCalls ?c] =>
        destruct (openai_tools_spec l w1 toolCalls c) as (new & H1 & H2 & _);
        destruct (run_openai_tools l w1 toolCalls c)
          as [[[evs w2] toolCalls'] conversation']
    end.
    cbn [fst snd] in H1, H2; subst toolCalls' evs.
    match goal with
    | |- context [openai_stream_loop _ _ _ _ _ n ?t ?w ?c ?k] =>
        destruct (IH t w c k Hp) as (E0 & body & new' & E1 & E3 & E4)
    end.
    cbn [turns output recorded after] in *; split; [lia|].
    exists ((yielded ++ pairs_of new) ++ body)%list, (new ++ new')%list.
    rewrite E1, E3, <- !app_assoc; repeat split.
    rewrite app_assoc.
    apply (interleaved_app new _ new' _); [|exact E4].
    exact (interleaved_app [] _ new _ Ht (interleaved_pairs new)).
Qed.

Lemma claude_limit provider remaining : forall turn w conversation toolCalls,
  claude_create_always (fun m => requests_calls m /\ keeps_going m) claude_create ->
  let r := claude_loop World tools JSON_stringify claude_create provider
             remaining turn w conversation toolCalls in
  turns r = (turn + Z.of_nat remaining)%Z /\ output r = turn_limit (recorded r).
Proof.
  induction remaining as [|n IH]; intros turn w conversation toolCalls Hp r.
  - unfold r; cbn; split; [lia | reflexivity].
  - unfold r; cbn [claude_loop].
    destruct (Hp w conversation) as (m & Hm & Hreq & Hgo).
    destruct (claude_create w conversation) as [response w1]; cbn [fst] in Hm.
    subst response.
    unfold requests_calls in Hreq.
    destruct (tool_uses (content m)) as [|u us]; [congruence|].
    destruct (run_claude_tools (u :: us) w1 toolCalls [])
      as [[[evs w2] toolCalls'] toolResults].
    apply String.eqb_neq in Hgo; rewrite Hgo.
    match goal with
    | |- context [claude_loop _ _ _ _ _ n ?t ?w ?c ?k] =>
        destruct (IH t w c k Hp) as (E0 & E1)
    end.
    split; [lia | exact E1].
Qed.

Lemma openai_limit provider remaining : forall turn w conversation toolCalls,
  openai_create_always_requests openai_create ->
  let r := openai_loop World tools JSON_stringify JSON_parse openai_create provider
             remaining turn w conversation toolCalls in
  turns r = (turn + Z.of_nat remaining)%Z /\ output r = turn_limit (recorded r).
Proof.
  induction remaining as [|n IH]; intros turn w conversation toolCalls Hp r.
  - unfold r; cbn; split; [lia | reflexivity].
  - unfold r; cbn [openai_loop].
    destruct (Hp w conversation) as (m & Hm & Hreq).
    destruct (openai_create w conversation) as [response w1]; cbn [fst] in Hm.
    subst response.
    destruct (choice_tool_calls m) as [|p ps] eqn:Ec; [congruence|].
    match goal with
    | |- context [openai_tools _ _ _ _ ?l w1 toolCalls ?c] =>
        destruct (run_openai_tools l w1 toolCalls c)
          as [[[evs w2] toolCalls'] conversation']
    end.
    match goal with
    | |- context [openai_loop _ _ _ _ _ _ n ?t ?w ?c ?k] =>
        destruct (IH t w c k Hp) as (E0 & E1)
    end.
    split; [lia | exact E1].
Qed.

(** C3.  As the code has it: with an initialised client and a round limit
    [maxTurns >= 0]: if every inference succeeds and requests at least one
    call (and, in the block protocol, never carries the stop reason
    [end_turn]), each of the four loops runs exactly [maxTurns] rounds.  The
    streaming ones then end with [done] carrying the recorded calls, after
    text events and call pairs only, so without an [error] event; the
    others return the turn-limit notice with [needsContinue] set.  The
    constructor's default limit is 10. *)
Theorem turn_limit_outcome maxTurns :
  (0 <= maxTurns)%Z ->
  (forall w conversationHistory userMessage,
     claude_stream_always (fun m => requests_calls m /\ keeps_going m) claude_stream ->
     let r := chatStreamWithClaude World tools JSON_stringify claude_stream true
                maxTurns w conversationHistory userMessage in
     turns r = maxTurns /\
     exists body, output r = (body ++ [done (Some (recorded r))])%list /\
                  interleaved (recorded r) body) /\
  (forall w systemPrompt openaiHistory userMessage,
     openai_stream_always_requests openai_stream ->
     let r := chatStreamWithOpenAI World tools JSON_stringify JSON_parse
                openai_stream true maxTurns w systemPrompt openaiHistory
                userMessage in
     turns r = maxTurns /\
     exists body, output r = (body ++ [done (Some (recorded r))])%list /\
                  interleaved (recorded r) body) /\
  (forall provider w conversationHistory userMessage,
     claude_create_always (fun m => requests_calls m /\ keeps_going m) claude_create ->
     let r := chatWithClaude World tools JSON_stringify claude_create provider true
                maxTurns w conversationHistory userMessage in
     turns r = maxTurns /\
     output r = mkResponse turn_limit_notice (Some (recorded r)) true) /\
  (forall provider w systemPrompt openaiHistory userMessage,
     openai_create_always_requests openai_create ->
     let r := chatWithOpenAI World tools JSON_stringify JSON_parse openai_create
                provider true maxTurns w systemPrompt openaiHistory userMessage in
     turns r = maxTurns /\
     output r = mkResponse turn_limit_notice (Some (recorded r)) true) /\
  configured_maxTurns None = 10%Z.
Proof.
  intros Hmax; split; [|split; [|split; [|split; [|reflexivity]]]].
  - intros w h msg Hp r; unfold r, chatStreamWithClaude; cbn [negb].
    destruct (claude_stream_limit (Z.to_nat maxTurns) 0%Z w
                (h ++ [UserText msg])%list [] Hp)
      as (E0 & body & new & E1 & E3 & E4).
    split; [rewrite E0; lia|].
    exists body; split; [exact E1 | rewrite E3; exact E4].
  - intros w prompt h msg Hp r; unfold r, chatStreamWithOpenAI; cbn [negb].
    match goal with
    | |- context [openai_stream_loop _ _ _ _ _ ?n ?t ?w ?c ?k] =>
        destruct (openai_stream_limit n t w c k Hp)
          as (E0 & body & new & E1 & E3 & E4)
    end.
    split; [rewrite E0; lia|].
    exists body; split; [exact E1 | rewrite E3; exact E4].
  - intros provider w h msg Hp r; unfold r, chatWithClaude; cbn [negb].
    destruct (claude_limit provider (Z.to_nat maxTurns) 0%Z w
                (h ++ [UserText msg])%list [] Hp) as (E0 & E1).
    split; [rewrite E0; lia | exact E1].
  - intros provider w prompt h msg Hp r; unfold r, chatWithOpenAI; cbn [negb].
    match goal with
    | |- context [openai_loop _ _ _ _ _ _ ?n ?t ?w ?c ?k] =>
        destruct (openai_limit provider n t w c k Hp) as (E0 & E1)
    end.
    split; [rewrite E0; lia | exact E1].
Qed.

End LoopFacts.


(** C3, on a concrete input: a chunk-protocol provider that requests the
    feed on every round, and a limit of 3. *)
Lemma turn_limit_outcome_witness :
  (0 <= 3)%Z /\
  Agent.turns
    (Agent.chatStreamWithOpenAI unit Agent.demo_tools Agent.show_nothing
       Agent.strict_parse Agent.busy_openai true 3 tt "system"%string [] "hello"%string) = 3%Z.
Proof.
  split; [lia|].
  apply (proj1 (proj2 (turn_limit_outcome unit Agent.demo_tools Agent.show_nothing
                         Agent.strict_parse Agent.eager_claude
                         (fun w _ => (Agent.Throw ""%string, w)) Agent.busy_openai
                         (fun w _ => (Agent.Throw ""%string, w)) 3 ltac:(lia)))
               tt "system"%string [] "hello"%string).
  intros w h; split; [reflexivity | discriminate].
Defined.

(** C3, as worded, fails for the block protocol: a provider that requests
    a call on every round but says [end_turn] stops the loop after one
    round, not after the ten allowed. *)
Lemma end_turn_stops_early : ~ Agent.doc_round_limit.
Proof.
  intros H.
  specialize (H unit Agent.demo_tools Agent.show_nothing Agent.eager_claude
                10%Z tt [] "hello"%string ltac:(lia)).
  assert (Hp : Agent.claude_stream_always Agent.requests_calls Agent.eager_claude).
  { intros w h; eexists; split; [reflexivity | discriminate]. }
  specialize (H Hp); vm_compute in H; discriminate.
Qed.

Section FailureFacts.
Import Json Agent.
Local Open Scope string_scope.

Context {rt : Js.Runtime}.

Variable World : Type.
Variable tools : list (ToolDefinition World).
Variable JSON_stringify : json -> string.
Variable JSON_parse : string -> option json.
Variable claude_stream : World -> list MessageParam -> Streamed * World.
Variable claude_create : World -> list MessageParam -> Outcome FinalMessage * World.
Variable openai_stream : World -> list ChatMessage -> Completion * World.
Variable openai_create : World -> list ChatMessage -> Outcome Choice * World.

Abbreviation run_claude_tools := (claude_tools World tools JSON_stringify).
Abbreviation run_openai_tools := (openai_tools World tools JSON_stringify JSON_parse).
Abbreviation claude_streaming := (claude_stream_loop World tools JSON_stringify claude_stream).
Abbreviation openai_streaming :=
  (openai_stream_loop World tools JSON_stringify JSON_parse openai_stream).
Abbreviation claude_returning := (claude_loop World tools JSON_stringify claude_create).
Abbreviation openai_returning :=
  (openai_loop World tools JSON_stringify JSON_parse openai_create).
Abbreviation calls_of_round := (run_calls World tools).

(** The conversation only grows during a run. *)
Lemma claude_history_grows remaining : forall turn w conversation toolCalls,
  exists rest,
    history (claude_streaming remaining turn w conversation toolCalls) =
    (conversation ++ rest)%list.
Proof.
  induction remaining as [|n IH]; intros turn w conversation toolCalls.
  - exists []; cbn; rewrite app_nil_r; reflexivity.
  - cbn [claude_stream_loop].
    destruct (claude_stream w conversation) as [stream w1].
    destruct (final stream) as [m|e];
      [|exists []; cbn; rewrite app_nil_r; reflexivity].
    destruct (tool_uses (content m)) as [|u us]; [eexists; reflexivity|].
    destruct (run_claude_tools (u :: us) w1 toolCalls [])
      as [[[evs w2] toolCalls'] toolResults].
    destruct (String.eqb (stop_reason m) "end_turn"); [eexists; reflexivity|].
    match goal with
    | |- context [claude_stream_loop _ _ _ _ n ?t ?w ?c ?k] =>
        destruct (IH t w c k) as (rest & E)
    end.
    cbn [history after]; rewrite E, <- app_assoc; eexists; reflexivity.
Qed.

Lemma openai_history_grows remaining : forall turn w conversation toolCalls,
  exists rest,
    history (openai_streaming remaining turn w conversation toolCalls) =
    (conversation ++ rest)%list.
Proof.
  induction remaining as [|n IH]; intros turn w conversation toolCalls.
  - exists []; cbn; rewrite app_nil_r; reflexivity.
  - cbn [openai_stream_loop].
    destruct (openai_stream w conversation) as [stream w1].
    destruct (consume (chunks stream) "" []) as [[yielded fullText] pending].
    destruct (failure stream) as [e|];
      [exists []; cbn; rewrite app_nil_r; reflexivity|].
    destruct pending as [|p ps]; [eexists; reflexivity|].
    match goal with
    | |- context [openai_tools _ _ _ _ ?l w1 toolCalls ?c] =>
        destruct (openai_tools_spec World tools JSON_stringify JSON_parse
                    l w1 toolCalls c) as (new & _ & _ & _ & _ & H5);
        destruct (run_openai_tools l w1 toolCalls c)
          as [[[evs w2] toolCalls'] conversation']
    end.
    cbn [snd] in H5; subst conversation'.
    match goal with
    | |- context [openai_stream_loop _ _ _ _ _ n ?t ?w ?c ?k] =>
        destruct (IH t w c k) as (rest & E)
    end.
    cbn [history after]; rewrite E, <- !app_assoc; eexists; reflexivity.
Qed.

Lemma claude_returning_history_grows provider remaining :
  forall turn w conversation toolCalls,
  exists rest,
    history (claude_returning provider remaining turn w conversation toolCalls) =
    (conversation ++ rest)%list.
Proof.
  induction remaining as [|n IH]; intros turn w conversation toolCalls.
  - exists []; cbn; rewrite app_nil_r; reflexivity.
  - rewrite (claude_round World tools JSON_stringify claude_create).
    destruct (fst (claude_create w conversation)) as [m|e];
      [|exists []; cbn; rewrite app_nil_r; reflexivity].
    cbv zeta.
    destruct (tool_uses (content m)) as [|u us]; [eexists; reflexivity|].
    destruct (String.eqb (stop_reason m) "end_turn"); [eexists; reflexivity|].
    match goal with
    | |- context [claude_loop _ _ _ _ _ n ?t ?w ?c ?k] =>
        destruct (IH t w c k) as (rest & E)
    end.
    rewrite E, <- app_assoc; eexists; reflexivity.
Qed.

Lemma openai_returning_history_grows provider remaining :
  forall turn w conversation toolCalls,
  exists rest,
    history (openai_returning provider remaining turn w conversation toolCalls) =
    (conversation ++ rest)%list.
Proof.
  induction remaining as [|n IH]; intros turn w conversation toolCalls.
  - exists []; cbn; rewrite app_nil_r; reflexivity.
  - rewrite (openai_round World tools JSON_stringify JSON_parse openai_create).
    destruct (fst (openai_create w conversation)) as [message|e];
      [|exists []; cbn; rewrite app_nil_r; reflexivity].
    cbv zeta.
    destruct (choice_tool_calls message) as [|p ps]; [eexists; reflexivity|].
    match goal with
    | |- context [openai_loop _ _ _ _ _ _ n ?t ?w ?c ?k] =>
        destruct (IH t w c k) as (rest & E)
    end.
    rewrite E, <- !app_assoc; eexists; reflexivity.
Qed.

(** C9.  As the code has it: [executeTool] returns a result for every
    name, input and state of the world.  An unknown name, an input that
    validation rejects, a handler that throws and a search fallback that
    throws each give the result [{error: ...}], a structured failure.  A
    round runs every requested call whatever the earlier ones returned,
    each in the world the one before left; the result [executeTool]
    returned for each, whether a failure or not, is what is put in the
    conversation, as the text [JSON.stringify] gives for it and under the
    id of its request, and the next inference is made on the conversation
    so extended (or the run ends there); the results are still in the
    conversation when the run is over.  Arguments that do not parse are
    replaced by [{}], on which the call is then run.  A failure of the
    inference itself ends the run: the streaming loops yield [error] with
    its message as their last event, the others return the error response
    of [handleError]; the conversation is left as it was. *)
Theorem tool_failures_are_results :
  (forall fuel n input w,
     executeTool_fuel World tools (3 + fuel) n input w =
     Some (executeTool World tools n input w)) /\
  (forall n input w,
     getTool World tools n = None ->
     executeTool World tools n input w = (unknown_tool n, w, [])) /\
  (forall n input w tool e,
     getTool World tools n = Some tool -> parameters tool input = Throw e ->
     executeTool World tools n input w = (tool_failed e, w, [])) /\
  (forall n input w tool v e w1,
     getTool World tools n = Some tool -> parameters tool input = Ok v ->
     handler tool v w = (Throw e, w1) ->
     executeTool World tools n input w = (tool_failed e, w1, [Invoked n v])) /\
  (forall input w tool v r w1 e w2 calls,
     getTool World tools "moltbook_search" = Some tool ->
     parameters tool input = Ok v -> handler tool v w = (Ok r, w1) ->
     isSearchFailure r = true ->
     fallbackSearch World tools v w1 = (Throw e, w2, calls) ->
     executeTool World tools "moltbook_search" input w =
     (tool_failed e, w2, Invoked "moltbook_search" v :: calls)) /\
  (forall n e,
     is_failure_result (unknown_tool n) /\ is_failure_result (tool_failed e)) /\
  (forall requests w,
     map (fun c => (call_name c, call_input c)) (fst (calls_of_round requests w))
     = requests) /\
  (forall n input requests w,
     let out := executeTool World tools n input w in
     fst (calls_of_round ((n, input) :: requests) w) =
     mkToolCall n input (result_of_call out)
       :: fst (calls_of_round requests (world_of_call out)) /\
     snd (calls_of_round ((n, input) :: requests) w) =
     snd (calls_of_round requests (world_of_call out))) /\
  (forall uses pending calls,
     (List.length calls = List.length uses ->
      map tool_use_id (answers_of_uses JSON_stringify uses calls)
      = map use_id uses /\
      map result_content (answers_of_uses JSON_stringify uses calls)
      = map (fun c => JSON_stringify (call_output c)) calls) /\
     (List.length calls = List.length pending ->
      answers_of_pending JSON_stringify pending calls =
      map (fun ic => ToolMessage (fst ic) (JSON_stringify (snd ic)))
          (combine (map pending_id pending) (map call_output calls)))) /\
  (forall provider remaining turn w conversation toolCalls m,
     let uses := tool_uses (content m) in
     uses <> [] ->
     (final (fst (claude_stream w conversation)) = Ok m ->
      let round := calls_of_round (requests_of_uses uses)
                                  (snd (claude_stream w conversation)) in
      let conversation' :=
        (conversation
           ++ [AssistantBlocks (content m);
               UserToolResults (answers_of_uses JSON_stringify uses (fst round))])%list in
      let run := claude_streaming (S remaining) turn w conversation toolCalls in
      List.length (fst round) = List.length uses /\
      (stop_reason m = "end_turn" -> history run = conversation') /\
      (stop_reason m <> "end_turn" ->
       run =
       after World
             (text_events (seen (fst (claude_stream w conversation)))
                ++ pairs_of (fst round))%list
             (claude_streaming remaining (turn + 1)%Z (snd round) conversation'
                               (toolCalls ++ fst round)%list)) /\
      exists rest, history run = (conversation' ++ rest)%list) /\
     (fst (claude_create w conversation) = Ok m ->
      let round := calls_of_round (requests_of_uses uses)
                                  (snd (claude_create w conversation)) in
      let conversation' :=
        (conversation
           ++ [AssistantBlocks (content m);
               UserToolResults (answers_of_uses JSON_stringify uses (fst round))])%list in
      let run := claude_returning provider (S remaining) turn w conversation
                                  toolCalls in
      List.length (fst round) = List.length uses /\
      (stop_reason m = "end_turn" -> history run = conversation') /\
      (stop_reason m <> "end_turn" ->
       run = claude_returning provider remaining (turn + 1)%Z (snd round)
                              conversation' (toolCalls ++ fst round)%list) /\
      exists rest, history run = (conversation' ++ rest)%list)) /\
  (forall provider remaining turn w conversation toolCalls,
     (let stream := fst (openai_stream w conversation) in
      let fullText := snd (fst (consume (chunks stream) "" [])) in
      let pending := map snd (snd (consume (chunks stream) "" [])) in
      let round := calls_of_round (requests_of_pending JSON_parse pending)
                                  (snd (openai_stream w conversation)) in
      let conversation' :=
        ((conversation ++ [AssistantMessage (nonempty (Some fullText)) pending])
           ++ answers_of_pending JSON_stringify pending (fst round))%list in
      let run := openai_streaming (S remaining) turn w conversation toolCalls in
      failure stream = None -> pending <> [] ->
      List.length (fst round) = List.length pending /\
      run =
      after World
            (fst (fst (consume (chunks stream) "" [])) ++ pairs_of (fst round))%list
            (openai_streaming remaining (turn + 1)%Z (snd round) conversation'
                              (toolCalls ++ fst round)%list) /\
      exists rest, history run = (conversation' ++ rest)%list) /\
     (forall message,
        fst (openai_create w conversation) = Ok message ->
        let pending := choice_tool_calls message in
        let round := calls_of_round (requests_of_pending JSON_parse pending)
                                    (snd (openai_create w conversation)) in
        let conversation' :=
          ((conversation ++ [AssistantMessage (choice_content message) pending])
             ++ answers_of_pending JSON_stringify pending (fst round))%list in
        let run := openai_returning provider (S remaining) turn w conversation
                                    toolCalls in
        pending <> [] ->
        List.length (fst round) = List.length pending /\
        run = openai_returning provider remaining (turn + 1)%Z (snd round)
                               conversation' (toolCalls ++ fst round)%list /\
        exists rest, history run = (conversation' ++ rest)%list)) /\
  (forall s, JSON_parse s = None ->
     parse_arguments JSON_parse s = JObj [] /\
     forall id n,
       requests_of_pending JSON_parse [mkPending id n s] = [(n, JObj [])]) /\
  (forall provider remaining turn w toolCalls e,
     (forall conversation,
        final (fst (claude_stream w conversation)) = Throw e ->
        let run := claude_streaming (S remaining) turn w conversation toolCalls in
        exists texts, output run = (texts ++ [error e])%list /\
                      interleaved [] texts /\
                      history run = conversation) /\
     (forall conversation,
        failure (fst (openai_stream w conversation)) = Some e ->
        let run := openai_streaming (S remaining) turn w conversation toolCalls in
        exists texts, output run = (texts ++ [error e])%list /\
                      interleaved [] texts /\
                      history run = conversation) /\
     (forall conversation,
        fst (claude_create w conversation) = Throw e ->
        let run := claude_returning provider (S remaining) turn w conversation
                                    toolCalls in
        output run = handleError provider e toolCalls /\
        history run = conversation) /\
     (forall conversation,
        fst (openai_create w conversation) = Throw e ->
        let run := openai_returning provider (S remaining) turn w conversation
                                    toolCalls in
        output run = handleError provider e toolCalls /\
        history run = conversation)).
Proof.
  split; [|split; [|split; [|split; [|split; [|split; [|split; [|split;
    [|split; [|split; [|split; [|split]]]]]]]]]]].
  - intros fuel n input w; apply executeTool_fuel_enough.
  - intros n input w Hn; rewrite executeTool_eq, Hn; reflexivity.
  - intros n input w tool e Ht Hp; rewrite executeTool_eq, Ht, Hp; reflexivity.
  - intros n input w tool v e w1 Ht Hp Hh.
    rewrite executeTool_eq, Ht, Hp, Hh; reflexivity.
  - intros input w tool v r w1 e w2 calls Ht Hp Hh Hf Hb.
    rewrite executeTool_eq, Ht, Hp, Hh, Hf, Hb; reflexivity.
  - intros n e; split; left; discriminate.
  - intros requests w; apply run_calls_requests.
  - intros n input requests w out; apply run_calls_cons.
  - intros uses pending calls; split; intros Hl.
    + apply answers_of_uses_spec, Hl.
    + apply answers_of_pending_spec, Hl.
  - intros provider remaining turn w conversation toolCalls m; cbv zeta.
    intros Hu; split.
    + intros Hm.
      pose proof (claude_stream_round World tools JSON_stringify claude_stream
                    remaining turn w conversation toolCalls) as R.
      cbv zeta in R; rewrite Hm in R.
      destruct (calls_of_uses World tools (tool_uses (content m))
                  (snd (claude_stream w conversation))) as (_ & _ & Hl).
      split; [exact Hl|].
      destruct (tool_uses (content m)) as [|u us] eqn:Eu; [congruence|].
      destruct (String.eqb_spec (stop_reason m) "end_turn") as [He | He].
      * rewrite R; split; [reflexivity|]; split; [congruence|].
        exists []; rewrite app_nil_r; reflexivity.
      * rewrite R; split; [congruence|]; split; [reflexivity|].
        cbn [history after]; apply claude_history_grows.
    + intros Hm.
      pose proof (claude_round World tools JSON_stringify claude_create
                    provider remaining turn w conversation toolCalls) as R.
      cbv zeta in R; rewrite Hm in R.
      destruct (calls_of_uses World tools (tool_uses (content m))
                  (snd (claude_create w conversation))) as (_ & _ & Hl).
      split; [exact Hl|].
      destruct (tool_uses (content m)) as [|u us] eqn:Eu; [congruence|].
      destruct (String.eqb_spec (stop_reason m) "end_turn") as [He | He].
      * rewrite R; split; [reflexivity|]; split; [congruence|].
        exists []; rewrite app_nil_r; reflexivity.
      * rewrite R; split; [congruence|]; split; [reflexivity|].
        apply claude_returning_history_grows.
  - intros provider remaining turn w conversation toolCalls; cbv zeta; split.
    + intros Hf Hp.
      pose proof (openai_stream_round World tools JSON_stringify JSON_parse
                    openai_stream remaining turn w conversation toolCalls) as R.
      cbv zeta in R; rewrite Hf in R.
      destruct (calls_of_pending World tools JSON_parse
                  (map snd (snd (consume (chunks (fst (openai_stream w conversation)))
                                         "" [])))
                  (snd (openai_stream w conversation))) as (_ & _ & Hl).
      split; [exact Hl|].
      destruct (map snd (snd (consume (chunks (fst (openai_stream w conversation)))
                                      "" []))) as [|p ps] eqn:Ep; [congruence|].
      rewrite R; split; [reflexivity|].
      cbn [history after]; apply openai_history_grows.
    + intros message Hm Hp.
      pose proof (openai_round World tools JSON_stringify JSON_parse
                    openai_create provider remaining turn w conversation
                    toolCalls) as R.
      cbv zeta in R; rewrite Hm in R.
      destruct (calls_of_pending World tools JSON_parse (choice_tool_calls message)
                  (snd (openai_create w conversation))) as (_ & _ & Hl).
      split; [exact Hl|].
      destruct (choice_tool_calls message) as [|p ps] eqn:Ep; [congruence|].
      rewrite R; split; [reflexivity|].
      apply openai_returning_history_grows.
  - intros s0 Hs; unfold requests_of_pending, parse_arguments; cbn [map pending_name
      pending_arguments]; rewrite Hs; split; reflexivity.
  - intros provider remaining turn w toolCalls e; split; [|split; [|split]].
    + intros conversation He; cbv zeta.
      pose proof (claude_stream_round World tools JSON_stringify claude_stream
                    remaining turn w conversation toolCalls) as R.
      cbv zeta in R; rewrite He in R; rewrite R.
      eexists; split; [reflexivity|]; split; [apply interleaved_texts | reflexivity].
    + intros conversation He; cbv zeta.
      pose proof (openai_stream_round World tools JSON_stringify JSON_parse
                    openai_stream remaining turn w conversation toolCalls) as R.
      cbv zeta in R; rewrite He in R; rewrite R.
      eexists; split; [reflexivity|]; split; [apply consume_texts | reflexivity].
    + intros conversation He; cbv zeta.
      pose proof (claude_round World tools JSON_stringify claude_create
                    provider remaining turn w conversation toolCalls) as R.
      cbv zeta in R; rewrite He in R; rewrite R.
      split; reflexivity.
    + intros conversation He; cbv zeta.
      pose proof (openai_round World tools JSON_stringify JSON_parse
                    openai_create provider remaining turn w conversation
                    toolCalls) as R.
      cbv zeta in R; rewrite He in R; rewrite R.
      split; reflexivity.
Qed.

End FailureFacts.

(** C9, on concrete inputs: validation rejects a search without a query,
    and the call returns the failure object; a response that requests the
    feed and says [end_turn] leaves the request and its result in the
    conversation. *)
Lemma tool_failures_are_results_witness :
  Agent.executeTool unit Agent.demo_tools "moltbook_search" (Json.JObj []) tt =
  (Agent.tool_failed "ZodError: query: Required", tt, []) /\
  Agent.history
    (Agent.claude_stream_loop unit Agent.demo_tools Agent.show_nothing
       Agent.eager_claude 1 0%Z tt [Agent.UserText "hello"%string] []) =
  [Agent.UserText "hello"%string;
   Agent.AssistantBlocks
     [Agent.ToolUseBlock
        (Agent.mkToolUse "toolu_1" "moltbook_get_feed" (Json.JObj []))];
   Agent.UserToolResults [Agent.mkToolResult "toolu_1" ""]]%string.
Proof.
  pose proof (tool_failures_are_results unit Agent.demo_tools
                Agent.show_nothing Agent.strict_parse
                Agent.eager_claude
                (fun w _ => (Agent.Throw ""%string, w))
                Agent.busy_openai
                (fun w _ => (Agent.Throw ""%string, w))) as T.
  split.
  - apply (proj1 (proj2 (proj2 T))
                 "moltbook_search"%string (Json.JObj []) tt Agent.search_down);
      reflexivity.
  - destruct T as (_ & _ & _ & _ & _ & _ & _ & _ & _ & R & _).
    specialize (R ""%string O 0%Z tt [Agent.UserText "hello"%string] []
                  (Agent.mkFinal
                     [Agent.ToolUseBlock
                        (Agent.mkToolUse "toolu_1" "moltbook_get_feed"
                           (Json.JObj []))] "end_turn")).
    cbv zeta in R.
    destruct (R ltac:(discriminate)) as [R1 _].
    destruct (R1 eq_refl) as (_ & E & _).
    exact (E eq_refl).
Defined.

(** C9, as worded, fails: arguments that do not parse do not make the
    call fail.  The feed tool is run on [{}] and its result is a success. *)
Lemma garbled_arguments_succeed : ~ Agent.doc_unparseable_fails.
Proof.
  intros H.
  specialize (H unit Agent.demo_tools Agent.show_nothing Agent.strict_parse
                Agent.garbled_call tt _ eq_refl eq_refl).
  destruct H as [H | H]; vm_compute in H; [apply H; reflexivity | discriminate].
Qed.

(* ====================================================================== *)
(** * The scenario of the design document *)
(* ====================================================================== *)

(** Round 1 requests [echo({text: "hi"})], round 2 answers "done": the
    events are [tool_start(echo)], [tool_end(echo, {success: true, text:
    "hi"})], [text("done")], [done], under both protocols. *)
Example scenario_blocks :
  Agent.output
    (Agent.chatStreamWithClaude nat [Agent.echo] Agent.show_nothing
       Agent.scripted_claude true 10 0%nat [] "say hi"%string) =
  [Agent.tool_start "echo";
   Agent.tool_end "echo" (Json.JObj [("success", Json.JBool true);
                                     ("text", Json.JStr "hi")]);
   Agent.text "done";
   Agent.done (Some [Agent.mkToolCall "echo" Agent.hi
                       (Json.JObj [("success", Json.JBool true);
                                   ("text", Json.JStr "hi")])])]%string.
Proof. reflexivity. Qed.

Example scenario_chunks :
  Agent.output
    (Agent.chatStreamWithOpenAI nat [Agent.echo] Agent.show_nothing
       Agent.toy_parse Agent.scripted_openai true 10 0%nat "system"%string []
       "say hi"%string) =
  [Agent.tool_start "echo";
   Agent.tool_end "echo" (Json.JObj [("success", Json.JBool true);
                                     ("text", Json.JStr "hi")]);
   Agent.text "done";
   Agent.done (Some [Agent.mkToolCall "echo" Agent.hi
                       (Json.JObj [("success", Json.JBool true);
                                   ("text", Json.JStr "hi")])])]%string.
Proof. reflexivity. Qed.

(** The conversation the chunk protocol leaves behind in the scenario. *)
Example scenario_conversation :
  Agent.history
    (Agent.chatStreamWithOpenAI nat [Agent.echo] Agent.show_nothing
       Agent.toy_parse Agent.scripted_openai true 10 0%nat "system"%string []
       "say hi"%string) =
  [Agent.SystemMessage "system";
   Agent.UserMessage "say hi";
   Agent.AssistantMessage None [Agent.mkPending "call_1" "echo" "<hi>"];
   Agent.ToolMessage "call_1" "";
   Agent.AssistantMessage (Some "done") []]%string.
Proof. reflexivity. Qed.

(** The search with its endpoint down, answered by the fallback: one match
    for ["  agents "], tagged and annotated. *)
Example scenario_fallback :
  Agent.executeTool unit Agent.demo_tools "moltbook_search" Agent.padded_query tt =
  (Json.JObj
     [("success", Json.JBool true);
      ("results",
       Json.JArr
         [Json.JObj [("id", Json.JStr "1"); ("type", Json.JStr "post");
                     ("title", Json.JStr "Agents at work");
                     ("content", Json.JStr "Notes from the field");
                     ("similarity", Json.JNum 0); ("post_id", Json.JStr "1");
                     ("fallback", Json.JBool true)]]);
      ("note", Json.JStr Agent.degraded_note);
      ("query", Json.JStr "  agents ")]%string,
   tt,
   [Agent.Invoked "moltbook_search" Agent.padded_query;
    Agent.FellBack Agent.padded_query;
    Agent.Invoked "moltbook_get_feed" Agent.feed_request]%string).
Proof. reflexivity. Qed.

(** A platform that is down answers 503 three times: three attempts, two
    pauses, and the error of the last answer. *)
Example scenario_outage :
  let out := Transport.apiRequest Transport.some_key None Transport.always_503
               "/posts?sort=new&limit=100"%string None Transport.DEFAULT_MAX_RETRIES in
  snd out = [Transport.Fetch 1; Transport.Sleep 1000; Transport.Fetch 2;
             Transport.Sleep 2000; Transport.Fetch 3] /\
  Transport.error (fst out) = Some (Json.JStr "Service unavailable") /\
  Transport.success (fst out) = false.
Proof. repeat split; reflexivity. Qed.

(** A rate limit on the first attempt: one attempt, and the advice of the
    body in the result. *)
Example scenario_rate_limit :
  let out := Transport.apiRequest Transport.some_key None Transport.rate_limited_once
               "/posts"%string None Transport.DEFAULT_MAX_RETRIES in
  snd out = [Transport.Fetch 1] /\
  Transport.rateLimit (fst out) =
    Some (Transport.mkRateLimit None (Some (Json.JNum 27)) (Some (Json.JNum 3))).
Proof. repeat split; reflexivity. Qed.

(* ====================================================================== *)
(** * Properties of the heartbeat check *)
(* ====================================================================== *)

Section HeartbeatRunFacts.
Import Heartbeat.
Import Transport.
Import Agent.
Import HeartbeatRun.
Local Open Scope string_scope.
Local Open Scope Z_scope.

(** X1.  [getTimeUntilNextHeartbeat] never returns a negative number.
    Whenever [shouldRunHeartbeat] says a check is due, the time until the
    next check is 0 for the same interval; for an interval of at least
    the one-hour minimum the converse holds too.  For an interval below
    the minimum the two disagree between the interval and the hour: the
    remaining time is 0 while [shouldRunHeartbeat] still answers no,
    because only the latter raises the interval to the minimum. *)
Theorem time_until_next_heartbeat :
  (forall i now st r,
      getTimeUntilNextHeartbeat i now st = Some r -> 0 <= r) /\
  (forall i now st,
      shouldRunHeartbeat i now st = true ->
      getTimeUntilNextHeartbeat i now st = Some 0) /\
  (forall i now st,
      MIN_HEARTBEAT_INTERVAL_MS <= i ->
      getTimeUntilNextHeartbeat i now st = Some 0 ->
      shouldRunHeartbeat i now st = true) /\
  (forall i now t st,
      lastCheck st = At t ->
      t + i <= now < t + MIN_HEARTBEAT_INTERVAL_MS ->
      getTimeUntilNextHeartbeat i now st = Some 0 /\
      shouldRunHeartbeat i now st = false).
Proof.
  unfold getTimeUntilNextHeartbeat, shouldRunHeartbeat, MIN_HEARTBEAT_INTERVAL_MS.
  repeat split.
  - intros i now st r; destruct (lastCheck st) as [| |t]; simpl.
    + intros [= <-]; lia.
    + discriminate.
    + intros [= <-]; lia.
  - intros i now st; destruct (lastCheck st) as [| |t]; simpl.
    + reflexivity.
    + discriminate.
    + rewrite Z.leb_le; intros H; f_equal; lia.
  - intros i now st Hi; destruct (lastCheck st) as [| |t]; simpl.
    + reflexivity.
    + discriminate.
    + intros [= H]; rewrite Z.leb_le; lia.
  - rewrite H; simpl; f_equal; lia.
  - rewrite H; simpl; rewrite Z.leb_gt; lia.
Qed.

(** Four hours after a check, with the default interval. *)
Lemma time_until_next_heartbeat_witness :
  shouldRunHeartbeat DEFAULT_HEARTBEAT_INTERVAL_MS 14400000
    {| lastCheck := At 0; lastPost := Absent; lastComment := Absent;
       checkCount := 1 |} = true.
Proof.
  destruct time_until_next_heartbeat as (_ & _ & H & _).
  apply H; [vm_compute; discriminate | reflexivity].
Defined.

Section Fetching.

Variable B : Type.
Variable server : Z -> Reply B.
Variable maxRetries : Z.

Lemma failing_step remaining attempt lastError :
  failing (server attempt) ->
  fetch_loop server maxRetries (S remaining) attempt lastError =
  (fst (fetch_loop server maxRetries remaining (attempt + 1)
                   (Some (error_of (server attempt)))),
   (failed_attempt maxRetries attempt ++
    snd (fetch_loop server maxRetries remaining (attempt + 1)
                    (Some (error_of (server attempt)))))%list).
Proof.
  intros Hf; simpl.
  destruct (server attempt) as [reason | status body]; simpl in *.
  - destruct (fetch_loop _ _ _ _ _); reflexivity.
  - destruct (Z.ltb_spec status 500) as [Hlt | _]; [lia|].
    destruct (fetch_loop _ _ _ _ _); reflexivity.
Qed.

Lemma fetch_first_answer k : forall remaining attempt lastError status body,
  (forall j, 0 <= j < Z.of_nat k -> failing (server (attempt + j))) ->
  server (attempt + Z.of_nat k) = Answered status body ->
  status < 500 ->
  (k < remaining)%nat ->
  attempt + Z.of_nat k <= maxRetries ->
  fetch_loop server maxRetries remaining attempt lastError =
  (Ok (status, body), schedule (S k) attempt).
Proof.
  induction k as [|k IH]; intros remaining attempt lastError status body
    Hfail Hans Hlt Hrem Hmax.
  - destruct remaining as [|remaining]; [lia|].
    simpl; replace (attempt + Z.of_nat 0) with attempt in Hans by lia.
    rewrite Hans.
    destruct (Z.ltb_spec status 500); [reflexivity | lia].
  - destruct remaining as [|remaining]; [lia|].
    rewrite failing_step.
    2:{ replace attempt with (attempt + 0) by lia; apply Hfail; lia. }
    rewrite (IH remaining (attempt + 1) _ status body).
    + unfold failed_attempt.
      destruct (Z.ltb_spec attempt maxRetries); [reflexivity | lia].
    + intros j Hj; replace (attempt + 1 + j) with (attempt + (j + 1)) by lia.
      apply Hfail; lia.
    + rewrite <- Hans; f_equal; lia.
    + exact Hlt.
    + lia.
    + lia.
Qed.

Lemma fetch_all_fail remaining : forall attempt lastError,
  (forall j, 0 <= j < Z.of_nat remaining -> failing (server (attempt + j))) ->
  attempt + Z.of_nat remaining = maxRetries + 1 ->
  fetch_loop server maxRetries remaining attempt lastError =
  (Throw (match remaining with
          | O => match lastError with
                 | Some e => e
                 | None => "Error: 请求失败"
                 end
          | S _ => error_of (server maxRetries)
          end),
   schedule remaining attempt).
Proof.
  induction remaining as [|remaining IH]; intros attempt lastError Hfail Hmax.
  - reflexivity.
  - rewrite failing_step.
    2:{ replace attempt with (attempt + 0) by lia; apply Hfail; lia. }
    rewrite IH.
    + unfold failed_attempt; destruct remaining as [|remaining'].
      * replace maxRetries with attempt by lia.
        rewrite Z.ltb_irrefl; reflexivity.
      * destruct (Z.ltb_spec attempt maxRetries); [reflexivity | lia].
    + intros j Hj; replace (attempt + 1 + j) with (attempt + (j + 1)) by lia.
      apply Hfail; lia.
    + lia.
Qed.

End Fetching.

(** X2.  [fetchWithRetry] returns the first response whose status is
    below 500: when the attempts before the [k]-th reject or answer 500
    or more, and the [k]-th (at most the [maxRetries]-th) answers with a
    status below 500, that response is returned, whatever its status
    (also 401 or 404), after exactly [k] requests and a pause of
    [1000 * a] ms after each failed attempt [a]. *)
Theorem fetchWithRetry_first_answer
        (B : Type) (server : Z -> Reply B) (maxRetries k status : Z) (body : B) :
  1 <= k <= maxRetries ->
  (forall a, 1 <= a < k -> failing (server a)) ->
  server k = Answered status body ->
  status < 500 ->
  fst (fetchWithRetry server maxRetries) = Ok (status, body) /\
  attempts_of (snd (fetchWithRetry server maxRetries)) = upfrom 1 (Z.to_nat k) /\
  sleeps_of (snd (fetchWithRetry server maxRetries)) =
  map (fun a => 1000 * a) (upfrom 1 (Z.to_nat k - 1)).
Proof.
  intros Hk Hfail Hans Hlt; unfold fetchWithRetry.
  rewrite (fetch_first_answer B server maxRetries (Z.to_nat (k - 1))
             (Z.to_nat maxRetries) 1 None status body).
  - replace (S (Z.to_nat (k - 1))) with (Z.to_nat k) by lia.
    split; [reflexivity|]; split.
    + apply attempts_of_schedule.
    + unfold snd; rewrite sleeps_of_schedule.
      replace (Init.Nat.pred (Z.to_nat k)) with (Z.to_nat k - 1)%nat by lia.
      reflexivity.
  - intros j Hj; apply Hfail; lia.
  - rewrite <- Hans; f_equal; lia.
  - exact Hlt.
  - lia.
  - lia.
Qed.

(** A platform whose first two answers are 502 and whose third is 404. *)
Lemma fetchWithRetry_first_answer_witness :
  fst (fetchWithRetry
         (fun a => if a <? 3 then Answered 502 tt else Answered 404 tt) 3) =
  Ok (404, tt) /\
  attempts_of
    (snd (fetchWithRetry
            (fun a => if a <? 3 then Answered 502 tt else Answered 404 tt) 3)) =
  [1; 2; 3] /\
  sleeps_of
    (snd (fetchWithRetry
            (fun a => if a <? 3 then Answered 502 tt else Answered 404 tt) 3)) =
  [1000; 2000].
Proof.
  apply (fetchWithRetry_first_answer unit
           (fun a => if a <? 3 then Answered 502 tt else Answered 404 tt)
           3 3 404 tt).
  - lia.
  - intros a Ha; destruct (Z.ltb_spec a 3); [simpl; lia | lia].
  - reflexivity.
  - lia.
Defined.

(** X3.  When every one of the [maxRetries] attempts rejects or answers
    with a status of 500 or more, [fetchWithRetry] throws the error of
    the last attempt, after exactly [maxRetries] requests with a pause of
    [1000 * a] ms after each attempt [a] but the last.  With
    [maxRetries <= 0] it throws the generic error without any request. *)
Theorem fetchWithRetry_exhausted
        (B : Type) (server : Z -> Reply B) (maxRetries : Z) :
  (1 <= maxRetries ->
   (forall a, 1 <= a <= maxRetries -> failing (server a)) ->
   fst (fetchWithRetry server maxRetries) =
   Throw (error_of (server maxRetries)) /\
   attempts_of (snd (fetchWithRetry server maxRetries)) =
   upfrom 1 (Z.to_nat maxRetries) /\
   sleeps_of (snd (fetchWithRetry server maxRetries)) =
   map (fun a => 1000 * a) (upfrom 1 (Z.to_nat maxRetries - 1))) /\
  (maxRetries <= 0 ->
   fetchWithRetry server maxRetries = (Throw "Error: 请求失败", [])).
Proof.
  split.
  - intros Hmax Hfail; unfold fetchWithRetry.
    rewrite fetch_all_fail.
    + destruct (Z.to_nat maxRetries) as [|n] eqn:E; [lia|].
      split; [reflexivity|]; split.
      * apply attempts_of_schedule.
      * unfold snd; rewrite sleeps_of_schedule.
        replace (Init.Nat.pred (S n)) with (S n - 1)%nat by lia.
        reflexivity.
    + intros j Hj; apply Hfail; lia.
    + lia.
  - intros Hmax; unfold fetchWithRetry.
    replace (Z.to_nat maxRetries) with O by lia.
    reflexivity.
Qed.

(** A platform that answers 503 three times. *)
Lemma fetchWithRetry_exhausted_witness :
  fst (fetchWithRetry down 3) = Throw "Error: HTTP 503" /\
  attempts_of (snd (fetchWithRetry down 3)) = [1; 2; 3] /\
  sleeps_of (snd (fetchWithRetry down 3)) = [1000; 2000].
Proof.
  destruct (fetchWithRetry_exhausted FeedBody down 3) as [H _].
  apply H; [lia | intros a _; simpl; lia].
Defined.

Section Running.

Variable apiKey : option string.
Variable feed global : Z -> Reply FeedBody.
Variable clock : Clock.
Variable m : Manager.

Abbreviation run := (runHeartbeat apiKey feed global clock m).

Lemma recent_of_fresh now status body posts :
  recent_of now status body = Ok posts ->
  Forall (fun p => is_recent now p = true) posts.
Proof.
  unfold recent_of; destruct (ok status).
  - destruct body as [reason | listed]; [discriminate|].
    intros [= <-]; apply Forall_forall; intros p Hp.
    apply filter_In in Hp; tauto.
  - intros [= <-]; constructor.
Qed.

Lemma is_recent_fresh p :
  is_recent (feedRead clock) p = true \/ is_recent (globalRead clock) p = true ->
  fresh clock p.
Proof.
  unfold is_recent, fresh; destruct (created p) as [t|].
  - rewrite !Z.ltb_lt; intros H; exists t; split; [reflexivity | exact H].
  - intros [H | H]; discriminate.
Qed.

(** Every run ends in one of two ways. *)
Lemma run_cases :
  (exists hint e,
      (hint = AddIdentityFirst \/ hint = TryAgainLater) /\
      result_of_run run = failure clock hint e /\
      manager_of_run run =
      {| state := state m; lastResult := Some (failure clock hint e) |}) \/
  (exists recentPosts,
      Forall (fresh clock) recentPosts /\
      (result_of_run run, manager_of_run run) = completed clock m recentPosts).
Proof.
  unfold runHeartbeat, result_of_run, manager_of_run.
  destruct apiKey as [[|c key]|];
    try (left; exists AddIdentityFirst, "没有可用的身份"; split; [auto | split; reflexivity]).
  destruct (fetchWithRetry feed 3) as [[[status body] | e] feedEffects];
    [| left; exists TryAgainLater, e; split; [auto | split; reflexivity]].
  destruct (recent_of (feedRead clock) status body) as [recentPosts | e] eqn:Er;
    [| left; exists TryAgainLater, e; split; [auto | split; reflexivity]].
  apply recent_of_fresh in Er.
  destruct recentPosts as [|p recentPosts].
  - destruct (fetchWithRetry global 3) as [[[status' body'] | e] globalEffects];
      [| left; exists TryAgainLater, e; split; [auto | split; reflexivity]].
    destruct (recent_of (globalRead clock) status' body')
      as [recentPosts | e] eqn:Eg;
      [| left; exists TryAgainLater, e; split; [auto | split; reflexivity]].
    apply recent_of_fresh in Eg.
    right; exists recentPosts; split.
    + eapply Forall_impl; [| exact Eg].
      intros q Hq; apply is_recent_fresh; right; exact Hq.
    + reflexivity.
  - right; exists (p :: recentPosts); split.
    + eapply Forall_impl; [| exact Er].
      intros q Hq; apply is_recent_fresh; left; exact Hq.
    + reflexivity.
Qed.

(** X4.  Whatever the identity store and the platform do, [runHeartbeat]
    stores the result it returns as [lastResult], stamps it with the time
    of entry, and leaves the post and comment cooldown records alone.  A
    successful run sets [lastCheck] to the time of entry and adds one to
    [checkCount]; a failed run changes neither and reports 0 new posts. *)
Theorem runHeartbeat_bookkeeping :
  lastResult (manager_of_run run) = Some (result_of_run run) /\
  timestamp (result_of_run run) = started clock /\
  lastPost (state (manager_of_run run)) = lastPost (state m) /\
  lastComment (state (manager_of_run run)) = lastComment (state m) /\
  (result_success (result_of_run run) = true ->
   lastCheck (state (manager_of_run run)) = At (started clock) /\
   checkCount (state (manager_of_run run)) = checkCount (state m) + 1) /\
  (result_success (result_of_run run) = false ->
   state (manager_of_run run) = state m /\
   newPostsCount (result_of_run run) = 0).
Proof.
  destruct run_cases as [(hint & e & _ & -> & ->) | (posts & _ & H)].
  - simpl; repeat split; discriminate.
  - unfold completed in H; injection H as -> ->.
    simpl; repeat split; discriminate.
Qed.

(** X5.  How a run moves the next check.  After a successful run entered
    at time [t], [shouldRunHeartbeat] answers yes at a later time exactly
    when the larger of the interval and the one-hour minimum has passed
    since [t]; after a failed run it answers what it answered before, so
    a failure never postpones the next check. *)
Theorem next_check_after_run intervalMs now :
  (result_success (result_of_run run) = true ->
   (shouldRunHeartbeat intervalMs now (state (manager_of_run run)) = true <->
    Z.max intervalMs MIN_HEARTBEAT_INTERVAL_MS <= now - started clock)) /\
  (result_success (result_of_run run) = false ->
   shouldRunHeartbeat intervalMs now (state (manager_of_run run)) =
   shouldRunHeartbeat intervalMs now (state m)).
Proof.
  destruct run_cases as [(hint & e & _ & -> & ->) | (posts & _ & H)].
  - simpl; split; [discriminate | reflexivity].
  - unfold completed in H; injection H as -> ->.
    simpl; split; [intros _ | discriminate].
    unfold shouldRunHeartbeat; simpl; apply Z.leb_le.
Qed.



End Running.

(** A failed run against a platform that is down, and a successful one
    against a feed that lists a post. *)
Lemma runHeartbeat_bookkeeping_witness :
  state (manager_of_run (runHeartbeat (Some "k") down down noon fresh_manager))
  = defaultState /\
  lastCheck (state (manager_of_run
                      (runHeartbeat (Some "k") listing_one down noon fresh_manager)))
  = At 2000.
Proof.
  split.
  - apply (runHeartbeat_bookkeeping (Some "k") down down noon fresh_manager).
    reflexivity.
  - apply (runHeartbeat_bookkeeping (Some "k") listing_one down noon fresh_manager).
    reflexivity.
Defined.

Lemma next_check_after_run_witness :
  shouldRunHeartbeat DEFAULT_HEARTBEAT_INTERVAL_MS 3602000
    (state (manager_of_run
              (runHeartbeat (Some "k") listing_one down noon fresh_manager)))
  = false /\
  shouldRunHeartbeat DEFAULT_HEARTBEAT_INTERVAL_MS 3602000
    (state (manager_of_run (runHeartbeat (Some "k") down down noon fresh_manager)))
  = true.
Proof.
  split.
  - destruct (next_check_after_run (Some "k") listing_one down noon fresh_manager
                DEFAULT_HEARTBEAT_INTERVAL_MS 3602000) as [H _].
    destruct (H eq_refl) as [H1 _].
    destruct (shouldRunHeartbeat _ _ _); [|reflexivity].
    specialize (H1 eq_refl); vm_compute in H1.
    exfalso; apply H1; reflexivity.
  - destruct (next_check_after_run (Some "k") down down noon fresh_manager
                DEFAULT_HEARTBEAT_INTERVAL_MS 3602000) as [_ H].
    rewrite (H eq_refl); reflexivity.
Defined.


Lemma fetch_loop_starts (B : Type) (server : Z -> Reply B) maxRetries
      remaining attempt lastError :
  In (Fetch attempt)
     (snd (fetch_loop server maxRetries (S remaining) attempt lastError)).
Proof.
  cbn [fetch_loop].
  assert (H : forall later, In (Fetch attempt)
                               (failed_attempt maxRetries attempt ++ later)).
  { intros later; unfold failed_attempt.
    destruct (attempt <? maxRetries); left; reflexivity. }
  destruct (server attempt) as [reason | status body].
  - destruct (fetch_loop server maxRetries remaining (attempt + 1) _);
      apply H.
  - destruct (status <? 500); [left; reflexivity|].
    destruct (fetch_loop server maxRetries remaining (attempt + 1) _);
      apply H.
Qed.

Lemma fetch_starts_with_request (B : Type) (server : Z -> Reply B) :
  In (Fetch 1) (snd (fetchWithRetry server 3)).
Proof. apply (fetch_loop_starts B server 3 2 1 None). Qed.

(** X7.  The global feed is a fallback for the personal one.  When the
    personal feed is fetched and read without an exception, the global
    feed is requested exactly when the personal feed shows no post of the
    last four hours.  If it shows some, the run succeeds without a second
    request and counts exactly those posts. *)
Theorem global_feed_is_a_fallback
        (key : string) (feed global : Z -> Reply FeedBody)
        (clock : Clock) (m : Manager)
        (status : Z) (body : FeedBody) (recent : list FeedPost) :
  key <> "" ->
  fst (fetchWithRetry feed 3) = Ok (status, body) ->
  recent_of (feedRead clock) status body = Ok recent ->
  (recent <> [] ->
   global_effects (runHeartbeat (Some key) feed global clock m) = [] /\
   result_success (result_of_run (runHeartbeat (Some key) feed global clock m))
   = true /\
   newPostsCount (result_of_run (runHeartbeat (Some key) feed global clock m))
   = Z.of_nat (List.length recent)) /\
  (recent = [] ->
   global_effects (runHeartbeat (Some key) feed global clock m) =
   snd (fetchWithRetry global 3) /\
   In (Fetch 1) (global_effects (runHeartbeat (Some key) feed global clock m))).
Proof.
  intros Hkey Hfeed Hrecent.
  unfold runHeartbeat, global_effects, result_of_run.
  destruct key as [|c key]; [exfalso; apply Hkey; reflexivity|].
  destruct (fetchWithRetry feed 3) as [response feedEffects].
  simpl in Hfeed; subst response; rewrite Hrecent.
  split.
  - intros Hne; destruct recent as [|p recent];
      [exfalso; apply Hne; reflexivity|].
    repeat split.
  - intros ->.
    pose proof (fetch_starts_with_request FeedBody global) as Hin.
    destruct (fetchWithRetry global 3) as [[[status' body'] | e] globalEffects];
      [destruct (recent_of (globalRead clock) status' body') |];
      split; try reflexivity; exact Hin.
Qed.

Lemma global_feed_is_a_fallback_witness :
  global_effects (runHeartbeat (Some "k") listing_one down noon fresh_manager)
  = [] /\
  global_effects (runHeartbeat (Some "k") refusing down noon fresh_manager)
  = [Fetch 1; Sleep 1000; Fetch 2; Sleep 2000; Fetch 3].
Proof.
  split.
  - apply (global_feed_is_a_fallback "k" listing_one down noon fresh_manager
             200 (Listing [a_post]) [a_post]);
      [discriminate | reflexivity | reflexivity | discriminate].
  - pose proof (global_feed_is_a_fallback "k" refusing down noon fresh_manager
                  401 (Unreadable "SyntaxError: Unexpected end of JSON input") [])
      as H.
    destruct H as [_ H]; [discriminate | reflexivity | reflexivity |].
    destruct (H eq_refl) as [H1 _]; rewrite H1; reflexivity.
Defined.

(** X8.  Refusals below 500 are not failures of the heartbeat.  When the
    personal and the global endpoint both answer their first request with
    a status below 500 outside 200-299 (401, 403, 404, ...), the run
    makes exactly one request to each, reports success with 0 new posts
    and the advice that nothing is new, and is recorded as a check. *)
Theorem refusals_pass_as_success
        (key : string) (feed global : Z -> Reply FeedBody)
        (clock : Clock) (m : Manager)
        (status status' : Z) (body body' : FeedBody) :
  key <> "" ->
  feed 1 = Answered status body -> status < 500 -> ok status = false ->
  global 1 = Answered status' body' -> status' < 500 -> ok status' = false ->
  runHeartbeat (Some key) feed global clock m =
  (completed clock m [], [Fetch 1], [Fetch 1]) /\
  result_success (fst (completed clock m [])) = true /\
  newPostsCount (fst (completed clock m [])) = 0 /\
  In NothingNew (suggestions (fst (completed clock m []))) /\
  lastCheck (state (snd (completed clock m []))) = At (started clock).
Proof.
  intros Hkey Hf Hs Hok Hg Hs' Hok'.
  split; [| repeat split; left; reflexivity].
  unfold runHeartbeat, fetchWithRetry.
  destruct key as [|c key]; [exfalso; apply Hkey; reflexivity|].
  change (Z.to_nat 3) with 3%nat; cbn [fetch_loop].
  rewrite Hf, Hg.
  destruct (Z.ltb_spec status 500); [| lia].
  destruct (Z.ltb_spec status' 500); [| lia].
  unfold recent_of; rewrite Hok, Hok'; reflexivity.
Qed.

Lemma refusals_pass_as_success_witness :
  runHeartbeat (Some "k") refusing refusing noon fresh_manager =
  (completed noon fresh_manager [], [Fetch 1], [Fetch 1]) /\
  result_success (fst (completed noon fresh_manager [])) = true /\
  newPostsCount (fst (completed noon fresh_manager [])) = 0 /\
  In NothingNew (suggestions (fst (completed noon fresh_manager []))) /\
  lastCheck (state (snd (completed noon fresh_manager []))) = At (started noon).
Proof.
  apply (refusals_pass_as_success "k" refusing refusing noon fresh_manager
           401 401 (Unreadable "SyntaxError: Unexpected end of JSON input")
           (Unreadable "SyntaxError: Unexpected end of JSON input"));
    try reflexivity; try lia; discriminate.
Defined.

(** X9.  An outage fails the run and is not recorded as a check.  When
    all three requests to the personal feed reject or answer 500 or more,
    the run fails with the error of the third, after pauses of 1000 and
    2000 ms, without contacting the global feed.  When the personal feed
    shows nothing new and all three requests to the global feed fail, the
    run fails as well, with the error of the third of those.  In both
    cases [lastCheck], [checkCount] and the two cooldown records are left
    as they were, and [lastResult], which is saved with them, is
    overwritten with the failure. *)
Theorem outage_fails_the_run
        (key : string) (feed global : Z -> Reply FeedBody)
        (clock : Clock) (m : Manager) :
  key <> "" ->
  let run := runHeartbeat (Some key) feed global clock m in
  let outage := [Fetch 1; Sleep 1000; Fetch 2; Sleep 2000; Fetch 3] in
  ((forall a, 1 <= a <= 3 -> failing (feed a)) ->
   let result := failure clock TryAgainLater (error_of (feed 3)) in
   run = (result, {| state := state m; lastResult := Some result |},
          outage, [])) /\
  (forall status body,
      fst (fetchWithRetry feed 3) = Ok (status, body) ->
      recent_of (feedRead clock) status body = Ok [] ->
      (forall a, 1 <= a <= 3 -> failing (global a)) ->
      let result := failure clock TryAgainLater (error_of (global 3)) in
      run = (result, {| state := state m; lastResult := Some result |},
             snd (fetchWithRetry feed 3), outage)).
Proof.
  intros Hkey run outage.
  assert (Hdown : forall server : Z -> Reply FeedBody,
             (forall a, 1 <= a <= 3 -> failing (server a)) ->
             fetchWithRetry server 3 = (Throw (error_of (server 3)), outage)).
  { intros server Hfail; unfold fetchWithRetry.
    rewrite fetch_all_fail; [reflexivity | | reflexivity].
    intros j Hj; apply Hfail; change (Z.to_nat 3) with 3%nat in Hj; lia. }
  destruct key as [|c key]; [exfalso; apply Hkey; reflexivity|].
  split.
  - intros Hfail result; unfold run, runHeartbeat.
    rewrite (Hdown feed Hfail); reflexivity.
  - intros status body Hfeed Hrecent Hfail result.
    unfold run, runHeartbeat.
    destruct (fetchWithRetry feed 3) as [response feedEffects].
    cbn [fst snd] in *; subst response.
    rewrite Hrecent, (Hdown global Hfail); reflexivity.
Qed.

(** Both feeds down; and a personal feed that refuses the credential
    (which shows nothing new) while the global feed is down. *)
Lemma outage_fails_the_run_witness :
  runHeartbeat (Some "k") down down noon fresh_manager =
  (failure noon TryAgainLater "Error: HTTP 503",
   {| state := defaultState;
      lastResult := Some (failure noon TryAgainLater "Error: HTTP 503") |},
   [Fetch 1; Sleep 1000; Fetch 2; Sleep 2000; Fetch 3], []) /\
  runHeartbeat (Some "k") refusing down noon fresh_manager =
  (failure noon TryAgainLater "Error: HTTP 503",
   {| state := defaultState;
      lastResult := Some (failure noon TryAgainLater "Error: HTTP 503") |},
   [Fetch 1], [Fetch 1; Sleep 1000; Fetch 2; Sleep 2000; Fetch 3]).
Proof.
  split.
  - destruct (outage_fails_the_run "k" down down noon fresh_manager) as [H _];
      [discriminate|].
    apply H; intros a _; simpl; lia.
  - destruct (outage_fails_the_run "k" refusing down noon fresh_manager)
      as [_ H]; [discriminate|].
    apply (H 401 (Unreadable "SyntaxError: Unexpected end of JSON input"));
      [reflexivity | reflexivity |].
    intros a _; simpl; lia.
Defined.

(** X10.  What [formatDuration] and [formatTimeSince] print is the floor
    of the time in the unit shown: the printed span is never longer than
    the real one and falls short of it by less than one unit (a second, a
    minute, an hour or a day; a minute for the hours-and-minutes form).
    Minutes are printed from 1 to 59, hours of [formatTimeSince] from 1
    to 23, days from 1, and the minutes beside hours from 0 to 59. *)
Theorem printed_spans_are_floors :
  (forall ms,
      span_floor (formatDuration ms) <= ms
      < span_floor (formatDuration ms) + span_width (formatDuration ms)) /\
  (forall now time,
      span_floor (formatTimeSince now time) <= now - time
      < span_floor (formatTimeSince now time)
        + span_width (formatTimeSince now time)) /\
  (forall ms,
      match formatDuration ms with
      | Seconds n => n < 60
      | Minutes n => 1 <= n <= 59
      | HoursMinutes h m => 1 <= h /\ 0 <= m <= 59
      | _ => False
      end) /\
  (forall now time,
      match formatTimeSince now time with
      | Seconds n => n < 60
      | Minutes n => 1 <= n <= 59
      | Hours n => 1 <= n <= 23
      | Days n => 1 <= n
      | HoursMinutes _ _ => False
      end).
Proof.
  assert (D : forall ms,
             let seconds := ms / 1000 in
             seconds * 1000 <= ms < seconds * 1000 + 1000).
  { intros ms seconds; subst seconds.
    pose proof (Z.div_mod ms 1000 ltac:(lia)).
    pose proof (Z.mod_pos_bound ms 1000 ltac:(lia)); lia. }
  assert (U : forall seconds u, 0 < u ->
             (seconds / u) * u <= seconds < (seconds / u) * u + u).
  { intros seconds u Hu.
    pose proof (Z.div_mod seconds u ltac:(lia)).
    pose proof (Z.mod_pos_bound seconds u ltac:(lia)); lia. }
  assert (M : forall seconds, 3600 <= seconds ->
             seconds / 3600 * 3600 + seconds mod 3600 / 60 * 60 <= seconds
             < seconds / 3600 * 3600 + seconds mod 3600 / 60 * 60 + 60 /\
             1 <= seconds / 3600 /\ 0 <= seconds mod 3600 / 60 <= 59).
  { intros seconds Hs.
    pose proof (Z.div_mod seconds 3600 ltac:(lia)).
    pose proof (Z.mod_pos_bound seconds 3600 ltac:(lia)).
    pose proof (U (seconds mod 3600) 60 ltac:(lia)).
    assert (1 <= seconds / 3600) by (apply Z.div_le_lower_bound; lia).
    assert (0 <= seconds mod 3600 / 60) by (apply Z.div_pos; lia).
    assert (seconds mod 3600 / 60 < 60)
      by (apply Z.div_lt_upper_bound; lia).
    lia. }
  repeat split.
  - unfold formatDuration; pose proof (D ms) as Hd; cbv zeta in Hd.
    destruct (Z.ltb_spec (ms / 1000) 60); [simpl; lia|].
    destruct (Z.ltb_spec (ms / 1000) 3600).
    + pose proof (U (ms / 1000) 60 ltac:(lia)); simpl; lia.
    + pose proof (M (ms / 1000) ltac:(lia)); simpl; lia.
  - unfold formatDuration; pose proof (D ms) as Hd; cbv zeta in Hd.
    destruct (Z.ltb_spec (ms / 1000) 60); [simpl; lia|].
    destruct (Z.ltb_spec (ms / 1000) 3600).
    + pose proof (U (ms / 1000) 60 ltac:(lia)); simpl; lia.
    + pose proof (M (ms / 1000) ltac:(lia)); simpl; lia.
  - unfold formatTimeSince; pose proof (D (now - time)) as Hd; cbv zeta in Hd.
    destruct (Z.ltb_spec ((now - time) / 1000) 60); [simpl; lia|].
    destruct (Z.ltb_spec ((now - time) / 1000) 3600);
      [pose proof (U ((now - time) / 1000) 60 ltac:(lia)); simpl; lia|].
    destruct (Z.ltb_spec ((now - time) / 1000) 86400);
      [pose proof (U ((now - time) / 1000) 3600 ltac:(lia)); simpl; lia|].
    pose proof (U ((now - time) / 1000) 86400 ltac:(lia)); simpl; lia.
  - unfold formatTimeSince; pose proof (D (now - time)) as Hd; cbv zeta in Hd.
    destruct (Z.ltb_spec ((now - time) / 1000) 60); [simpl; lia|].
    destruct (Z.ltb_spec ((now - time) / 1000) 3600);
      [pose proof (U ((now - time) / 1000) 60 ltac:(lia)); simpl; lia|].
    destruct (Z.ltb_spec ((now - time) / 1000) 86400);
      [pose proof (U ((now - time) / 1000) 3600 ltac:(lia)); simpl; lia|].
    pose proof (U ((now - time) / 1000) 86400 ltac:(lia)); simpl; lia.
  - intros ms; unfold formatDuration.
    destruct (Z.ltb_spec (ms / 1000) 60); [assumption|].
    destruct (Z.ltb_spec (ms / 1000) 3600).
    + split; [apply Z.div_le_lower_bound; lia|].
      assert (ms / 1000 / 60 < 60) by (apply Z.div_lt_upper_bound; lia); lia.
    + pose proof (M (ms / 1000) ltac:(lia)); tauto.
  - intros now time; unfold formatTimeSince.
    destruct (Z.ltb_spec ((now - time) / 1000) 60); [assumption|].
    destruct (Z.ltb_spec ((now - time) / 1000) 3600).
    { split; [apply Z.div_le_lower_bound; lia|].
      assert ((now - time) / 1000 / 60 < 60)
        by (apply Z.div_lt_upper_bound; lia); lia. }
    destruct (Z.ltb_spec ((now - time) / 1000) 86400).
    { split; [apply Z.div_le_lower_bound; lia|].
      assert ((now - time) / 1000 / 3600 < 24)
        by (apply Z.div_lt_upper_bound; lia); lia. }
    apply Z.div_le_lower_bound; lia.
Qed.

End HeartbeatRunFacts.

(* ====================================================================== *)
(** * Properties of the tool handlers *)
(* ====================================================================== *)

Section ToolsFacts.
Import Json.
Import Heartbeat.
Import Transport.
Import Agent.
Import Tools.
Local Open Scope string_scope.
Local Open Scope Z_scope.

Lemma prop_obj k fields : prop (obj fields) k = field k fields.
Proof.
  unfold obj; cbn [prop].
  induction fields as [|[k' [v|]] rest IH]; cbn [flat_map fst snd field app assoc].
  - reflexivity.
  - destruct (String.eqb k k'); [reflexivity | exact IH].
  - rewrite IH; destruct (String.eqb k k'); reflexivity.
Qed.

Section Posting.

Context {rt : Js.Runtime} {store : IdentityWrites}.

Variable getApiKey : option string -> option string.
Variable getCurrent : option string.
Variable server : Z -> FetchOutcome.
Variable params : json.
Variable now later : Z.
Variable st : HeartbeatState.

Abbreviation posted := (moltbook_post getApiKey getCurrent server params now later st).
Abbreviation commented :=
  (moltbook_comment getApiKey getCurrent server params now later st).

(** The two ways a posting handler can end. *)
Lemma post_cases :
  (prop (answer posted) "success" = Some (JBool true) /\
   tracker posted = recordPost later st /\
   canPost now st = true /\
   success (fst (apiRequest getApiKey getCurrent server "/posts"
                            (identity_of params) DEFAULT_MAX_RETRIES)) = true)
  \/
  (prop (answer posted) "success" = Some (JBool false) /\
   tracker posted = st).
Proof.
  unfold moltbook_post, answer, tracker.
  destruct (canPost now st); cbn [negb]; [| right; split; reflexivity].
  destruct (apiRequest _ _ _ _ _ _) as [result effects]; cbn [fst].
  destruct (success result); cbn [andb];
    [destruct (truthy (data result)) |].
  - left; cbn [fst snd]; rewrite prop_obj; repeat split.
  - right; destruct (truthy _); cbn [fst snd]; rewrite prop_obj; split; reflexivity.
  - right; destruct (truthy _); cbn [fst snd]; rewrite prop_obj; split; reflexivity.
Qed.

Lemma comment_cases :
  (prop (answer commented) "success" = Some (JBool true) /\
   tracker commented = recordComment later st /\
   canComment now st = true)
  \/
  (prop (answer commented) "success" = Some (JBool false) /\
   tracker commented = st).
Proof.
  unfold moltbook_comment, answer, tracker.
  destruct (canComment now st); cbn [negb]; [| right; split; reflexivity].
  destruct (apiRequest _ _ _ _ _ _) as [result effects].
  destruct (success result); cbn [andb];
    [destruct (truthy (data result)) |].
  - left; cbn [fst snd]; rewrite prop_obj; repeat split.
  - right; destruct (rateLimit result); cbn [fst snd]; rewrite prop_obj;
      split; reflexivity.
  - right; destruct (rateLimit result); cbn [fst snd]; rewrite prop_obj;
      split; reflexivity.
Qed.

(** X11.  The cooldown records follow the platform's answer.
    [moltbook_post] sets [lastPost] (to the time of recording) exactly
    when it reports success, which requires that the cooldown was over;
    in every other outcome (cooldown, missing identity, refusal, outage)
    the whole tracker is left as it was, so a failed attempt does not
    start a cooldown.  The same holds for [moltbook_comment] and
    [lastComment].  Neither handler ever changes [lastCheck],
    [checkCount] or the other handler's record. *)
Theorem cooldown_recorded_only_on_success :
  (prop (answer posted) "success" = Some (JBool true) \/
   prop (answer posted) "success" = Some (JBool false)) /\
  (prop (answer posted) "success" = Some (JBool true) ->
   tracker posted = recordPost later st /\ canPost now st = true) /\
  (prop (answer posted) "success" = Some (JBool false) ->
   tracker posted = st) /\
  (prop (answer commented) "success" = Some (JBool true) ->
   tracker commented = recordComment later st /\ canComment now st = true) /\
  (prop (answer commented) "success" = Some (JBool false) ->
   tracker commented = st) /\
  lastCheck (tracker posted) = lastCheck st /\
  checkCount (tracker posted) = checkCount st /\
  lastComment (tracker posted) = lastComment st /\
  lastCheck (tracker commented) = lastCheck st /\
  checkCount (tracker commented) = checkCount st /\
  lastPost (tracker commented) = lastPost st.
Proof.
  destruct post_cases as [(Hs & Ht & Hc & _) | (Hs & Ht)];
    destruct comment_cases as [(Hs' & Ht' & Hc') | (Hs' & Ht')];
    rewrite Hs, Hs', Ht, Ht';
    repeat split; auto; try discriminate.
Qed.

End Posting.

(** A post accepted by the platform. *)
Lemma cooldown_recorded_only_on_success_witness :
  tracker (moltbook_post some_key None accepting JNull 4000 5000 defaultState)
  = recordPost 5000 defaultState /\
  canPost 4000 defaultState = true.
Proof.
  apply (cooldown_recorded_only_on_success some_key None accepting JNull
           4000 5000 defaultState).
  reflexivity.
Defined.

Section Refusing.

Context {rt : Js.Runtime} {store : IdentityWrites}.

(** X12.  A second post within the cooldown is refused without a
    request.  After a [moltbook_post] that reported success and recorded
    its time, a further [moltbook_post] whose cooldown check reads a
    clock less than 30 minutes later makes no request at all, leaves the
    tracker unchanged and answers with the cooldown failure
    ([retry_after_minutes] 30), whatever the platform would have said.
    The same holds for [moltbook_comment] within 20 seconds. *)
Theorem repeated_action_is_refused
        (getApiKey : option string -> option string) (getCurrent : option string)
        (server server' : Z -> FetchOutcome) (params params' : json)
        (now later now' later' : Z) (st : HeartbeatState) :
  (prop (answer (moltbook_post getApiKey getCurrent server params now later st))
        "success" = Some (JBool true) ->
   now' - later < 30 * 60 * 1000 ->
   moltbook_post getApiKey getCurrent server' params' now' later'
     (tracker (moltbook_post getApiKey getCurrent server params now later st)) =
   (post_cooldown, recordPost later st, [])) /\
  (prop (answer (moltbook_comment getApiKey getCurrent server params now later st))
        "success" = Some (JBool true) ->
   now' - later < 20 * 1000 ->
   moltbook_comment getApiKey getCurrent server' params' now' later'
     (tracker (moltbook_comment getApiKey getCurrent server params now later st)) =
   (comment_cooldown, recordComment later st, [])).
Proof.
  split; intros Hs Hsoon.
  - destruct (post_cases getApiKey getCurrent server params now later st)
      as [(_ & Ht & _) | (Hf & _)]; [| rewrite Hf in Hs; discriminate].
    rewrite Ht; unfold moltbook_post at 1.
    replace (canPost now' (recordPost later st)) with false; [reflexivity|].
    unfold canPost, recordPost; simpl; symmetry; apply Z.leb_gt; lia.
  - destruct (comment_cases getApiKey getCurrent server params now later st)
      as [(_ & Ht & _) | (Hf & _)]; [| rewrite Hf in Hs; discriminate].
    rewrite Ht; unfold moltbook_comment at 1.
    replace (canComment now' (recordComment later st)) with false; [reflexivity|].
    unfold canComment, recordComment; simpl; symmetry; apply Z.leb_gt; lia.
Qed.

End Refusing.

(** A post accepted at time 5000 and a second attempt 29 minutes later,
    against a platform that would accept it. *)
Lemma repeated_action_is_refused_witness :
  moltbook_post some_key None accepting JNull 1745000 1745100
    (tracker (moltbook_post some_key None accepting JNull 4000 5000 defaultState))
  = (post_cooldown, recordPost 5000 defaultState, []).
Proof.
  apply (repeated_action_is_refused some_key None accepting accepting JNull JNull
           4000 5000 1745000 1745100 defaultState).
  - reflexivity.
  - lia.
Defined.

Section Advising.

Context {rt : Js.Runtime} {store : IdentityWrites}.

(** X13.  The platform's rate-limit advice reaches the caller.  With a
    credential and the cooldown over, when the attempts before the
    [k]-th fail transiently and the [k]-th is answered with status 429
    and a body other than JSON [null], [moltbook_post] stops after [k]
    requests, reports failure, leaves the tracker unchanged, and passes
    on [retry_after_minutes] when the body gives a truthy one (and omits
    it otherwise).  [moltbook_comment] passes on [retry_after_seconds]
    and [daily_remaining] as the body gives them. *)
Theorem rate_limit_advice_is_passed_on
        (getApiKey : option string -> option string) (getCurrent : option string)
        (server : Z -> FetchOutcome) (params : json) (now later : Z)
        (st : HeartbeatState) (key : string) (k : Z) (body : option json) :
  getApiKey (normalizedIdentity (identity_of params)) = Some key ->
  key <> "" ->
  1 <= k <= DEFAULT_MAX_RETRIES ->
  (forall a, 1 <= a < k -> transient (server a)) ->
  server k = Response 429 body ->
  body <> Some JNull ->
  (canPost now st = true ->
   prop (answer (moltbook_post getApiKey getCurrent server params now later st))
        "success" = Some (JBool false) /\
   prop (answer (moltbook_post getApiKey getCurrent server params now later st))
        "retry_after_minutes" =
   (if truthy (oprop body "retry_after_minutes")
    then oprop body "retry_after_minutes" else None) /\
   tracker (moltbook_post getApiKey getCurrent server params now later st) = st /\
   attempts_of
     (requests (moltbook_post getApiKey getCurrent server params now later st))
   = upfrom 1 (Z.to_nat k)) /\
  (canComment now st = true ->
   prop (answer (moltbook_comment getApiKey getCurrent server params now later st))
        "success" = Some (JBool false) /\
   prop (answer (moltbook_comment getApiKey getCurrent server params now later st))
        "retry_after_seconds" = oprop body "retry_after_seconds" /\
   prop (answer (moltbook_comment getApiKey getCurrent server params now later st))
        "daily_remaining" = oprop body "daily_remaining" /\
   tracker (moltbook_comment getApiKey getCurrent server params now later st)
   = st /\
   attempts_of
     (requests (moltbook_comment getApiKey getCurrent server params now later st))
   = upfrom 1 (Z.to_nat k)).
Proof.
  intros Hkey Hne Hk Hall E Hnn.
  assert (R : forall endpointPath,
             let out := apiRequest getApiKey getCurrent server endpointPath
                                   (identity_of params) DEFAULT_MAX_RETRIES in
             attempts_of (snd out) = upfrom 1 (Z.to_nat k) /\
             success (fst out) = false /\
             rateLimit (fst out) =
             Some {| retryAfterSeconds := oprop body "retry_after_seconds";
                     retryAfterMinutes := oprop body "retry_after_minutes";
                     dailyRemaining := oprop body "daily_remaining" |}).
  { intros endpointPath.
    apply (rate_limit_not_retried getApiKey getCurrent server endpointPath
             (identity_of params) DEFAULT_MAX_RETRIES key k body); assumption. }
  split; intros Hcan.
  - unfold moltbook_post, answer, tracker, requests; rewrite Hcan; cbn [negb].
    specialize (R "/posts"); cbv zeta in R.
    destruct (apiRequest _ _ _ _ _ _) as [result effects].
    cbn [fst snd] in R; destruct R as (Ha & Hs & Hr).
    rewrite Hs, Hr; cbn [andb retryAfterMinutes].
    destruct (truthy (oprop body "retry_after_minutes")) eqn:Ht;
      cbn [fst snd]; rewrite !prop_obj; cbn [field String.eqb Ascii.eqb Bool.eqb].
    + destruct (oprop body "retry_after_minutes") as [v|]; [|discriminate].
      destruct (Transport.error result), (hint result); repeat split; assumption.
    + destruct (Transport.error result), (hint result); repeat split; assumption.
  - unfold moltbook_comment, answer, tracker, requests; rewrite Hcan; cbn [negb].
    match goal with
    | |- context [apiRequest _ _ _ ?e _ _] => specialize (R e)
    end.
    cbv zeta in R.
    destruct (apiRequest _ _ _ _ _ _) as [result effects].
    cbn [fst snd] in R; destruct R as (Ha & Hs & Hr).
    rewrite Hs, Hr; cbn [andb fst snd retryAfterSeconds dailyRemaining].
    rewrite !prop_obj; cbn [field String.eqb Ascii.eqb Bool.eqb].
    destruct (Transport.error result), (hint result),
      (oprop body "retry_after_seconds"), (oprop body "daily_remaining");
      repeat split; assumption.
Qed.

End Advising.

(** The platform of [rate_limited_once]: 429 at once, advising 27
    minutes. *)
Lemma rate_limit_advice_is_passed_on_witness :
  prop (answer (moltbook_post some_key None rate_limited_once JNull 0 1
                  defaultState)) "retry_after_minutes" = Some (JNum 27).
Proof.
  destruct (rate_limit_advice_is_passed_on some_key None rate_limited_once
              JNull 0 1 defaultState "moltbook_sk_test" 1
              (Some (JObj [("error", JStr "Slow down");
                           ("retry_after_minutes", JNum 27);
                           ("daily_remaining", JNum 3)])))
    as [H _].
  - reflexivity.
  - discriminate.
  - unfold DEFAULT_MAX_RETRIES; lia.
  - intros a Ha; lia.
  - reflexivity.
  - discriminate.
  - destruct (H eq_refl) as (_ & H2 & _); exact H2.
Defined.

Section Requests.

Context {rt : Js.Runtime} {store : IdentityWrites}.

(** With a limit of one, a call makes at most one request and never
    pauses. *)
Lemma single_attempt getApiKey getCurrent server endpointPath identityName :
  let out := apiRequest getApiKey getCurrent server endpointPath identityName 1 in
  sleeps_of (snd out) = [] /\
  (attempts_of (snd out) = [] \/ attempts_of (snd out) = [1]).
Proof.
  unfold apiRequest.
  destruct (getApiKey _) as [[|c key]|]; try (split; [reflexivity | left; reflexivity]).
  change (Z.to_nat 1) with 1%nat; cbn [retry_loop].
  unfold attempt_once, on_exception, on_write_failure.
  change (1 <? 1) with false; cbv iota.
  destruct (server 1) as [reason | code body].
  - split; [reflexivity | right; reflexivity].
  - destruct ((200 <=? code) && (code <=? 299));
      [destruct (updateLastActive identityName 1);
       split; try reflexivity; right; reflexivity|].
    destruct (code =? 429);
      [destruct body as [[| | | | |]|]; split; try reflexivity; right; reflexivity|].
    destruct ((400 <=? code) && (code <? 500));
      destruct body as [[| | | | |]|]; split; try reflexivity; right; reflexivity.
Qed.

(** X14.  [moltbook_delete_post] reports success exactly when the
    [DELETE] call succeeded, whatever the verification says.  The
    verifying [GET] is made only after a successful [DELETE], with at
    most one request and no pause.  The result carries the note that the
    post is still readable exactly when both calls succeeded, and a
    successful result always carries a truthy message. *)
Theorem delete_is_verified_once
        (getApiKey : option string -> option string) (getCurrent : option string)
        (deleting verifying : Z -> FetchOutcome) (params : json) :
  let out := moltbook_delete_post getApiKey getCurrent deleting verifying params in
  let endpoint := "/posts/" ++ interpolate (prop params "post_id") in
  let deleted :=
    success (fst (apiRequest getApiKey getCurrent deleting endpoint
                             (identity_of params) DEFAULT_MAX_RETRIES)) in
  let readable :=
    success (fst (apiRequest getApiKey getCurrent verifying endpoint
                             (identity_of params) 1)) in
  prop (fst (fst out)) "success" = Some (JBool deleted) /\
  (deleted = false -> snd out = []) /\
  sleeps_of (snd out) = [] /\
  (attempts_of (snd out) = [] \/ attempts_of (snd out) = [1]) /\
  (prop (fst (fst out)) "note" <> None <-> deleted = true /\ readable = true) /\
  (deleted = true -> truthy (prop (fst (fst out)) "message") = true).
Proof.
  cbv zeta; unfold moltbook_delete_post.
  pose proof (single_attempt getApiKey getCurrent verifying
                ("/posts/" ++ interpolate (prop params "post_id"))
                (identity_of params)) as V; cbv zeta in V.
  destruct (apiRequest getApiKey getCurrent deleting _ _ _) as [result effects].
  destruct (apiRequest getApiKey getCurrent verifying _ _ _) as [verify verifyEffects].
  cbn [fst snd] in *.
  assert (M : forall fallback,
             fallback <> "" ->
             truthy (Some (or_else (message_of (data result)) (JStr fallback)))
             = true).
  { intros fallback Hf; unfold or_else.
    destruct (message_of (data result)) as [v|].
    - destruct (truthy (Some v)) eqn:Ht; [exact Ht|].
      destruct fallback; [congruence | reflexivity].
    - destruct fallback; [congruence | reflexivity]. }
  destruct (success result); [destruct (success verify)|];
    cbn [fst snd]; rewrite !prop_obj; cbn [field String.eqb Ascii.eqb Bool.eqb].
  all: try destruct (Transport.error result).
  all: repeat split;
    first [ solve [tauto]
          | solve [discriminate]
          | solve [auto]
          | solve [intros _; apply M; discriminate]
          | solve [intros H; exfalso; apply H; reflexivity]
          | solve [intros [H1 H2]; discriminate] ].
Qed.

(** X15.  An accepted post whose answer has an empty body is reported
    as failed.  With a credential and the cooldown over, when the
    platform answers the first request with a 2xx status and a JSON body
    that is [null], [false], [0] or the empty string, and the call of
    [updateLastActive] that follows returns, [moltbook_post] has made its
    one request and that one call, with the identity of the parameters as
    given; yet it answers [{success: false}] without an error text and
    does not record the post: the cooldown is not started. *)
Theorem accepted_post_with_empty_body_is_reported_failed
        (getApiKey : option string -> option string) (getCurrent : option string)
        (server : Z -> FetchOutcome) (params : json) (now later : Z)
        (st : HeartbeatState) (key : string) (code : Z) (body : json) :
  getApiKey (normalizedIdentity (identity_of params)) = Some key ->
  key <> "" ->
  canPost now st = true ->
  server 1 = Response code (Some body) ->
  200 <= code <= 299 ->
  truthy (Some body) = false ->
  updateLastActive (identity_of params) 1 = None ->
  moltbook_post getApiKey getCurrent server params now later st =
  (JObj [("success", JBool false)], st,
   [Fetch 1; UpdateLastActive (identity_of params)]) /\
  canPost later st = canPost later
                       (tracker (moltbook_post getApiKey getCurrent server params
                                               now later st)).
Proof.
  intros Hkey Hne Hcan Hserver Hcode Hbody Hwrite.
  assert (E : moltbook_post getApiKey getCurrent server params now later st =
              (JObj [("success", JBool false)], st,
               [Fetch 1; UpdateLastActive (identity_of params)])).
  { unfold moltbook_post, apiRequest; rewrite Hcan, Hkey; cbn [negb].
    destruct key as [|c key']; [congruence|].
    change (Z.to_nat DEFAULT_MAX_RETRIES) with 3%nat.
    cbn [retry_loop]; unfold attempt_once; rewrite Hserver.
    replace ((200 <=? code) && (code <=? 299)) with true
      by (symmetry; apply andb_true_iff; split; apply Z.leb_le; lia).
    rewrite Hwrite.
    cbn [success data rateLimit Transport.error hint andb]; rewrite Hbody.
    reflexivity. }
  rewrite E; split; reflexivity.
Qed.

End Requests.

(** The platform answers 201 with the body [null]. *)
Lemma accepted_post_with_empty_body_is_reported_failed_witness :
  moltbook_post some_key None (fun _ => Response 201 (Some JNull)) JNull 0 1
                defaultState =
  (JObj [("success", JBool false)], defaultState, [Fetch 1; UpdateLastActive None]).
Proof.
  apply (accepted_post_with_empty_body_is_reported_failed some_key None
           (fun _ => Response 201 (Some JNull)) JNull 0 1 defaultState
           "moltbook_sk_test" 201 JNull);
    try reflexivity; try discriminate; lia.
Defined.

Section Outage.

Context {rt : Js.Runtime} {store : IdentityWrites}.

Variable getCurrent : option string.
Variable server : Z -> FetchOutcome.
Variable endpointPath : string.
Variable identityName : option string.
Variable maxRetries : Z.

Lemma server_error_step attempt lastStatus code body :
  server attempt = Response code body -> 500 <= code <= 599 ->
  (exists lastError effects,
      attempt_once getCurrent server endpointPath identityName maxRetries
                   attempt lastStatus = Next lastError code effects) \/
  ((attempt <? maxRetries) = false /\
   exists r effects,
     attempt_once getCurrent server endpointPath identityName maxRetries
                  attempt lastStatus = Return r effects /\
     option_map status (debug r) = Some code).
Proof.
  intros E Hc; unfold attempt_once; rewrite E.
  assert (H1 : (200 <=? code) && (code <=? 299) = false)
    by (apply andb_false_iff; right; apply Z.leb_gt; lia).
  assert (H2 : (code =? 429) = false) by (apply Z.eqb_neq; lia).
  assert (H3 : (400 <=? code) && (code <? 500) = false)
    by (apply andb_false_iff; right; apply Z.ltb_ge; lia).
  rewrite H1, H2, H3; unfold on_exception.
  destruct (attempt <? maxRetries);
    destruct body as [[| b | n | t | items | props] |];
    try (left; eexists; eexists; reflexivity);
    right; (split; [reflexivity|]); eexists; eexists; split; reflexivity.
Qed.

Lemma outage_status remaining : forall attempt lastError lastStatus,
  maxRetries = attempt + Z.of_nat remaining - 1 ->
  remaining <> O ->
  (forall a, attempt <= a <= maxRetries -> server_error (server a)) ->
  option_map status
    (debug (fst (retry_loop getCurrent server endpointPath identityName
                            maxRetries remaining attempt lastError lastStatus)))
  = code_of (server maxRetries).
Proof.
  induction remaining as [|r IH]; intros attempt lastError lastStatus Hmax Hr Hall;
    [congruence|].
  destruct (Hall attempt ltac:(lia)) as (code & body & E & Hc).
  cbn [retry_loop].
  destruct (server_error_step attempt lastStatus code body E Hc)
    as [(le & effects & ->) | (Hlast & res & effects & -> & Hs)].
  - destruct r as [|r'].
    + cbn [retry_loop fst debug exhausted option_map status].
      replace maxRetries with attempt by lia; rewrite E; reflexivity.
    + specialize (IH (attempt + 1) le code ltac:(lia) ltac:(discriminate)).
      destruct (retry_loop _ _ _ _ _ (S r') _ _ _) as [res later].
      cbn [fst] in *; apply IH; intros a Ha; apply Hall; lia.
  - cbn [fst]; rewrite Hs.
    apply Z.ltb_ge in Hlast; replace maxRetries with attempt by lia.
    rewrite E; reflexivity.
Qed.

End Outage.

Section OutageResult.

Context {rt : Js.Runtime} {store : IdentityWrites}.

(** What an outage of three answers with 5xx statuses leaves in the
    result of a call with the default limit. *)
Lemma outage_result getApiKey getCurrent server endpointPath identityName key :
  getApiKey (normalizedIdentity identityName) = Some key -> key <> "" ->
  (forall a, 1 <= a <= 3 -> server_error (server a)) ->
  let out := apiRequest getApiKey getCurrent server endpointPath identityName
                        DEFAULT_MAX_RETRIES in
  snd out = [Fetch 1; Sleep 1000; Fetch 2; Sleep 2000; Fetch 3] /\
  success (fst out) = false /\
  Transport.error (fst out) = Some (last_error (server 3)) /\
  exists d, debug (fst out) = Some d /\ Some (status d) = code_of (server 3).
Proof.
  intros Hkey Hne Hall out.
  destruct (retry_ceiling getApiKey getCurrent server endpointPath identityName
              DEFAULT_MAX_RETRIES key Hkey Hne ltac:(unfold DEFAULT_MAX_RETRIES; lia))
    as (H1 & _ & _ & _ & H5 & H6).
  { intros a Ha; destruct (Hall a Ha) as (code & body & -> & Hc); exact Hc. }
  fold out in H1, H5, H6.
  split; [exact H1|]; split; [exact H5|]; split; [exact H6|].
  assert (Hs : option_map status (debug (fst out)) = code_of (server 3)).
  { unfold out, apiRequest; rewrite Hkey.
    destruct key as [|c key']; [congruence|].
    apply (outage_status getCurrent server endpointPath identityName
             DEFAULT_MAX_RETRIES 3 1 (JStr "") 0); try reflexivity;
      [discriminate | exact Hall]. }
  destruct (debug (fst out)) as [d|].
  - exists d; split; [reflexivity | exact Hs].
  - destruct (Hall 3 ltac:(lia)) as (code & body & E & _).
    rewrite E in Hs; discriminate.
Qed.

Lemma status_of_debug d : prop (debug_json d) "status" = Some (JNum (status d)).
Proof. unfold debug_json; rewrite prop_obj; reflexivity. Qed.

End OutageResult.

Section SearchPath.

Context {rt : Js.Runtime} {store : IdentityWrites}.

Variable getApiKey : option string -> option string.
Variable getCurrent : option string.
Variable searchParams : string -> string -> string -> string.
Variable getFeedSchema searchSchema : json -> Outcome json.
Variable feedServer searchServer : Z -> FetchOutcome.

Abbreviation search := (moltbook_search getApiKey getCurrent searchParams searchServer).
Abbreviation catalogue :=
  (registry getApiKey getCurrent searchParams getFeedSchema searchSchema
            feedServer searchServer).

(** What the search handler returns during an outage. *)
Lemma search_during_outage v key :
  getApiKey (normalizedIdentity (identity_of v)) = Some key -> key <> "" ->
  (forall a, 1 <= a <= 3 -> server_error (searchServer a)) ->
  snd (search v) = [Fetch 1; Sleep 1000; Fetch 2; Sleep 2000; Fetch 3] /\
  isToolFailure (fst (search v)) = true /\
  prop (fst (search v)) "error" = Some (last_error (searchServer 3)) /\
  option_map JNum (code_of (searchServer 3)) =
  oprop (prop (fst (search v)) "debug") "status".
Proof.
  intros Hkey Hne Hall; unfold moltbook_search.
  match goal with
  | |- context [apiRequest _ _ _ ?e _ _] =>
      pose proof (outage_result getApiKey getCurrent searchServer e
                    (identity_of v) key Hkey Hne Hall) as H
  end.
  cbv zeta in H.
  destruct (apiRequest _ _ _ _ _ _) as [result effects].
  cbn [fst snd] in H; destruct H as (He & Hs & Herr & d & Hd & Hst).
  rewrite Hs, Herr, Hd; cbn [andb fst snd option_map].
  split; [exact He|].
  unfold isToolFailure; rewrite !prop_obj.
  cbn [field String.eqb Ascii.eqb Bool.eqb obj flat_map fst snd app].
  split; [reflexivity|]; split; [reflexivity|].
  destruct (hint result); cbn [oprop]; rewrite status_of_debug, <- Hst;
    reflexivity.
Qed.

Lemma approximate_ok input query feed posts :
  usable_feed feed posts ->
  Forall (fun p => p <> JNull) posts ->
  approximate input query feed =
  Ok (JObj [("success", JBool true);
            ("results",
             JArr (map entry
                     (firstn 20
                        (filter (matches_query (Js.toLowerCase (Js.trim query)))
                                posts))));
            ("note", JStr degraded_note);
            ("query", JStr query)]).
Proof.
  intros (Ho & Hs & Ha) Hnn.
  unfold approximate; rewrite Ho, Hs, Ha; cbn [negb].
  assert (Hm : (if String.eqb (Js.toLowerCase (Js.trim query)) ""
                then Ok posts
                else filter_posts (Js.toLowerCase (Js.trim query)) posts) =
               Ok (filter (matches_query (Js.toLowerCase (Js.trim query))) posts)).
  { destruct (String.eqb_spec (Js.toLowerCase (Js.trim query)) "") as [-> | _].
    - rewrite filter_empty_query; reflexivity.
    - apply filter_posts_ok, Hnn. }
  rewrite Hm, map_results_ok by (apply Forall_firstn, Forall_filter, Hnn).
  reflexivity.
Qed.

(** X16.  An outage of the search endpoint with status 500 is answered
    from the feed.  With a credential, when the platform answers each of
    the three attempts on the search endpoint with status 500, the
    dispatcher has waited through the pauses of 1000 and 2000 ms and then
    falls back: it requests the feed with [{sort: "new", limit: 100}].
    When the feed's first answer is a 2xx object with a [posts] array
    without [null] entries and the call of [updateLastActive] that
    follows it returns, the caller receives a success holding the first
    20 posts whose title and body, lower-cased, contain the trimmed,
    lower-cased query (whatever [toLowerCase] and [trim] do), after
    exactly three requests to the search endpoint and one to the feed. *)
Theorem search_outage_is_answered_from_the_feed
        (input v fv : json) (key fkey : string) (w : list Effect)
        (code : Z) (body : list (string * json)) (posts : list json) :
  searchSchema input = Ok v ->
  v <> JNull ->
  getApiKey (normalizedIdentity (identity_of v)) = Some key -> key <> "" ->
  (forall a, 1 <= a <= 3 -> exists b, searchServer a = Response 500 b) ->
  getFeedSchema feed_request = Ok fv ->
  getApiKey (normalizedIdentity (identity_of fv)) = Some fkey -> fkey <> "" ->
  feedServer 1 = Response code (Some (JObj body)) -> 200 <= code <= 299 ->
  assoc "posts" body = Some (JArr posts) ->
  Forall (fun p => p <> JNull) posts ->
  updateLastActive (identity_of fv) 1 = None ->
  executeTool (list Effect) catalogue "moltbook_search" input w =
  (JObj [("success", JBool true);
         ("results",
          JArr (map entry
                  (firstn 20
                     (filter (matches_query
                                (Js.toLowerCase (Js.trim (query_of v))))
                             posts))));
         ("note", JStr degraded_note);
         ("query", JStr (query_of v))],
   (w ++ [Fetch 1; Sleep 1000; Fetch 2; Sleep 2000; Fetch 3]
      ++ [Fetch 1; UpdateLastActive (identity_of fv)])%list,
   [Invoked "moltbook_search" v; FellBack v;
    Invoked "moltbook_get_feed" fv]).
Proof.
  intros Hv Hnn Hkey Hne Hall Hfv Hfkey Hfne Hfeed Hcode Hposts Hnonnull Hwrite.
  assert (Hall' : forall a, 1 <= a <= 3 -> server_error (searchServer a)).
  { intros a Ha; destruct (Hall a Ha) as (b & ->); exists 500, b; split; [reflexivity | lia]. }
  destruct (search_during_outage v key Hkey Hne Hall') as (He & Hf & _ & Hst).
  destruct (Hall 3 ltac:(lia)) as (b3 & E3); rewrite E3 in Hst; cbn in Hst.
  assert (Hsf : isSearchFailure (fst (search v)) = true).
  { unfold isSearchFailure; rewrite Hf, <- Hst; cbn [negb].
    apply orb_true_r. }
  assert (Hq : extractSearchQuery v = Ok (query_of v)).
  { unfold extractSearchQuery, query_of.
    destruct v; try congruence;
      destruct (prop _ "query") as [[| | | q | |]|]; reflexivity. }
  (* the feed request *)
  assert (Hfeedcall :
            moltbook_get_feed getApiKey getCurrent feedServer fv =
            (JObj [("success", JBool true); ("posts", JArr posts)],
             [Fetch 1; UpdateLastActive (identity_of fv)])).
  { unfold moltbook_get_feed, apiRequest; rewrite Hfkey.
    destruct fkey as [|c fkey']; [congruence|].
    change (Z.to_nat DEFAULT_MAX_RETRIES) with 3%nat.
    cbn [retry_loop]; unfold attempt_once; rewrite Hfeed.
    replace ((200 <=? code) && (code <=? 299)) with true
      by (symmetry; apply andb_true_iff; split; apply Z.leb_le; lia).
    rewrite Hwrite.
    cbn [success data andb truthy oprop prop]; rewrite Hposts.
    reflexivity. }
  rewrite executeTool_eq.
  change (getTool (list Effect) catalogue "moltbook_search")
    with (Some (mkTool "moltbook_search" searchSchema
                  (fun params w0 =>
                     let (result, effects) := search params in
                     (Ok result, (w0 ++ effects)%list)))).
  cbn [parameters handler]; rewrite Hv.
  destruct (search v) as [result effects] eqn:Es; cbn [fst snd] in *.
  rewrite Hsf; cbn [String.eqb Ascii.eqb Bool.eqb andb].
  rewrite fallbackSearch_eq, Hq; cbv zeta.
  unfold plain_call.
  change (getTool (list Effect) catalogue "moltbook_get_feed")
    with (Some (mkTool "moltbook_get_feed" getFeedSchema
                  (fun params w0 =>
                     let (result, effects) :=
                       moltbook_get_feed getApiKey getCurrent feedServer params in
                     (Ok result, (w0 ++ effects)%list)))).
  cbn [parameters handler]; rewrite Hfv, Hfeedcall.
  cbn [result_of_call world_of_call calls_of_call fst snd].
  rewrite (approximate_ok v (query_of v) _ posts);
    [| repeat split | exact Hnonnull].
  rewrite He, <- app_assoc; reflexivity.
Qed.

(** X17.  Other server errors are not rescued.  With a credential, when
    the platform answers each of the three attempts on the search
    endpoint with a status from 501 to 599 (502, 503, ...) and the error
    text it leaves does not mention "search failed", the dispatcher
    returns the handler's failure as it is, after three requests and the
    two pauses, and never requests the feed: only status 500 triggers the
    fallback. *)
Theorem other_server_errors_are_not_rescued
        (input v : json) (key : string) (w : list Effect) :
  searchSchema input = Ok v ->
  getApiKey (normalizedIdentity (identity_of v)) = Some key -> key <> "" ->
  (forall a, 1 <= a <= 3 ->
             exists code b, searchServer a = Response code b /\ 500 < code <= 599) ->
  (forall e, last_error (searchServer 3) = JStr e ->
             Str.includes (Str.toLowerCase e) "search failed" = false) ->
  executeTool (list Effect) catalogue "moltbook_search" input w =
  (fst (search v),
   (w ++ [Fetch 1; Sleep 1000; Fetch 2; Sleep 2000; Fetch 3])%list,
   [Invoked "moltbook_search" v]) /\
  isToolFailure (fst (search v)) = true /\
  prop (fst (search v)) "error" = Some (last_error (searchServer 3)).
Proof.
  intros Hv Hkey Hne Hall Htext.
  assert (Hall' : forall a, 1 <= a <= 3 -> server_error (searchServer a)).
  { intros a Ha; destruct (Hall a Ha) as (code & b & -> & Hc).
    exists code, b; split; [reflexivity | lia]. }
  destruct (search_during_outage v key Hkey Hne Hall') as (He & Hf & Herr & Hst).
  split; [| split; assumption].
  assert (Hsf : isSearchFailure (fst (search v)) = false).
  { destruct (isSearchFailure (fst (search v))) eqn:E; [|reflexivity].
    apply isSearchFailure_spec in E; destruct E as [_ [(e & He' & Hi) | Hs]].
    - rewrite Herr in He'; injection He' as He'.
      rewrite (Htext e He') in Hi; discriminate.
    - destruct (Hall 3 ltac:(lia)) as (code & b & E3 & Hc).
      unfold recorded_status in Hs.
      rewrite Hs, E3 in Hst; cbn in Hst; injection Hst as Hst; lia. }
  rewrite executeTool_eq.
  change (getTool (list Effect) catalogue "moltbook_search")
    with (Some (mkTool "moltbook_search" searchSchema
                  (fun params w0 =>
                     let (result, effects) := search params in
                     (Ok result, (w0 ++ effects)%list)))).
  cbn [parameters handler]; rewrite Hv.
  destruct (search v) as [result effects] eqn:Es; cbn [fst snd] in *.
  rewrite Hsf, He, andb_false_r; reflexivity.
Qed.

End SearchPath.

(** The search endpoint answering 503 with "Service unavailable". *)
Lemma other_server_errors_are_not_rescued_witness :
  calls_of_call
    (executeTool (list Effect)
       (registry some_key None plain_params accept_all accept_all
                 listing always_503)
       "moltbook_search" (JObj [("query", JStr "agents")]) []) =
  [Invoked "moltbook_search" (JObj [("query", JStr "agents")])].
Proof.
  assert (Hall : forall a, 1 <= a <= 3 ->
                   exists code b, always_503 a = Response code b /\ 500 < code <= 599)
    by (intros a _; eexists; eexists; split; [reflexivity | lia]).
  assert (Htext : forall e, last_error (always_503 3) = JStr e ->
                    Str.includes (Str.toLowerCase e) "search failed" = false)
    by (intros e [= <-]; reflexivity).
  destruct (other_server_errors_are_not_rescued
              some_key None plain_params accept_all accept_all listing always_503
              (JObj [("query", JStr "agents")]) (JObj [("query", JStr "agents")])
              "moltbook_sk_test" [] eq_refl eq_refl ltac:(discriminate) Hall Htext)
    as [H _].
  rewrite H; reflexivity.
Defined.

(** The query [" Agents "] while the search endpoint answers 500 and the
    feed lists two posts. *)
Lemma search_outage_is_answered_from_the_feed_witness :
  executeTool (list Effect)
    (registry some_key None plain_params accept_all accept_all
              listing search_broken)
    "moltbook_search" (JObj [("query", JStr " Agents ")]) [] =
  (JObj [("success", JBool true);
         ("results",
          JArr [JObj [("id", JStr "1"); ("type", JStr "post");
                      ("title", JStr "Agents at work"); ("content", JStr "");
                      ("similarity", JNum 0); ("post_id", JStr "1");
                      ("fallback", JBool true)]]);
         ("note", JStr degraded_note);
         ("query", JStr " Agents ")],
   [Fetch 1; Sleep 1000; Fetch 2; Sleep 2000; Fetch 3; Fetch 1;
    UpdateLastActive None],
   [Invoked "moltbook_search" (JObj [("query", JStr " Agents ")]);
    FellBack (JObj [("query", JStr " Agents ")]);
    Invoked "moltbook_get_feed" feed_request]).
Proof.
  refine (search_outage_is_answered_from_the_feed
            some_key None plain_params accept_all accept_all listing search_broken
            (JObj [("query", JStr " Agents ")]) (JObj [("query", JStr " Agents ")])
            feed_request "moltbook_sk_test" "moltbook_sk_test" [] 200
            [("posts", JArr two_posts)] two_posts _ _ _ _ _ _ _ _ _ _ _ _ _);
    try reflexivity; try discriminate; try lia.
  - intros a _; exists None; reflexivity.
  - repeat constructor; discriminate.
Defined.

End ToolsFacts.

(* ====================================================================== *)
(** * Properties of the trend and topic analyses *)
(* ====================================================================== *)

Section TrendFacts.
Import Trends.
Local Open Scope string_scope.
Local Open Scope Z_scope.

Section SortFacts.

Variable A : Type.
Variable key : A -> Z.

Lemma insert_by_perm x l : Permutation (insert_by key x l) (x :: l).
Proof.
  induction l as [|y l IH]; cbn; [reflexivity|].
  destruct (key x <? key y); [|reflexivity].
  rewrite IH; apply perm_swap.
Qed.

Lemma sort_desc_perm l : Permutation (sort_desc key l) l.
Proof.
  induction l as [|x l IH]; cbn; [reflexivity|].
  rewrite insert_by_perm; auto.
Qed.

Lemma insert_by_descending x l :
  descending_by key l -> descending_by key (insert_by key x l).
Proof.
  unfold descending_by; induction l as [|y l IH]; intros Hs; cbn.
  - repeat constructor.
  - inversion Hs as [|? ? Hl Hy]; subst.
    destruct (Z.ltb_spec (key x) (key y)).
    + constructor; [apply IH; exact Hl|].
      rewrite Forall_forall; intros z Hz.
      apply (Permutation_in _ (insert_by_perm x l)) in Hz.
      destruct Hz as [<- | Hz]; [lia|].
      rewrite Forall_forall in Hy; apply Hy; exact Hz.
    + constructor; [exact Hs|].
      constructor; [lia|].
      rewrite Forall_forall in *; intros z Hz; specialize (Hy z Hz); lia.
Qed.

Lemma sort_desc_descending l : descending_by key (sort_desc key l).
Proof.
  induction l as [|x l IH]; cbn; [constructor | apply insert_by_descending, IH].
Qed.

Lemma descending_split l1 l2 :
  descending_by key (l1 ++ l2) ->
  descending_by key l1 /\
  forall u v, In u l1 -> In v l2 -> key v <= key u.
Proof.
  unfold descending_by; induction l1 as [|x l1 IH]; cbn; intros Hs.
  - split; [constructor | intros u v []].
  - inversion Hs as [|? ? Hl Hx]; subst.
    destruct (IH Hl) as [Hd Hc]; split.
    + constructor; [exact Hd|].
      rewrite Forall_forall in *; intros z Hz; apply Hx, in_or_app; auto.
    + intros u v [<- | Hu] Hv; [|auto].
      rewrite Forall_forall in Hx; apply Hx, in_or_app; auto.
Qed.

(** The first [k] of a list sorted this way: they are in descending
    order, they come from the list, and whatever is left out has a key
    no larger than any of them. *)
Lemma top_of_sorted k l :
  let top := firstn k (sort_desc key l) in
  (List.length top <= k)%nat /\
  descending_by key top /\
  (forall x, In x top -> In x l) /\
  (forall x, In x l -> In x top \/ forall t, In t top -> key x <= key t) /\
  (List.length l <= k -> Permutation top l)%nat.
Proof.
  intros top; subst top.
  pose proof (sort_desc_descending l) as Hd.
  rewrite <- (firstn_skipn k (sort_desc key l)) in Hd.
  apply descending_split in Hd; destruct Hd as [Hd Hc].
  split; [apply firstn_le_length|]; split; [exact Hd|]; split; [|split].
  - intros x Hx; apply (Permutation_in _ (sort_desc_perm l)).
    rewrite <- (firstn_skipn k (sort_desc key l)); apply in_or_app; auto.
  - intros x Hx.
    apply (Permutation_in _ (Permutation_sym (sort_desc_perm l))) in Hx.
    rewrite <- (firstn_skipn k (sort_desc key l)) in Hx.
    apply in_app_or in Hx; destruct Hx as [Hx | Hx]; [left; exact Hx|].
    right; intros t Ht; apply Hc; assumption.
  - intros Hlen; rewrite firstn_all2; [apply sort_desc_perm|].
    rewrite (Permutation_length (sort_desc_perm l)); exact Hlen.
Qed.

End SortFacts.

Section MapFacts.

Variable V : Type.

Lemma get_set k k' (v : V) m :
  get k' (set k v m) = if String.eqb k' k then Some v else get k' m.
Proof.
  induction m as [|[k0 v0] m IH]; cbn.
  - reflexivity.
  - destruct (String.eqb_spec k k0) as [-> | Hk]; cbn.
    + destruct (String.eqb k' k0); reflexivity.
    + rewrite IH; destruct (String.eqb_spec k' k0) as [-> | Hk'].
      * destruct (String.eqb_spec k0 k); [congruence | reflexivity].
      * reflexivity.
Qed.

Lemma get_in k (m : list (string * V)) :
  get k m <> None <-> In k (map fst m).
Proof.
  induction m as [|[k0 v0] m IH]; cbn.
  - split; [congruence | intros []].
  - destruct (String.eqb_spec k k0) as [-> | Hk].
    + split; [auto | discriminate].
    + rewrite IH; split; [auto | intros [H | H]; [congruence | exact H]].
Qed.

Lemma set_keys k (v : V) m :
  map fst (set k v m) =
  match get k m with
  | Some _ => map fst m
  | None => (map fst m ++ [k])%list
  end.
Proof.
  induction m as [|[k0 v0] m IH]; cbn; [reflexivity|].
  destruct (String.eqb_spec k k0) as [-> | Hk]; cbn; [reflexivity|].
  rewrite IH; destruct (get k m); reflexivity.
Qed.

Lemma set_nodup k (v : V) m : NoDup (map fst m) -> NoDup (map fst (set k v m)).
Proof.
  intros H; rewrite set_keys.
  destruct (get k m) eqn:E; [exact H|].
  apply NoDup_app; repeat split; auto.
  - constructor; [intros [] | constructor].
  - intros x Hx [<- | []].
    apply get_in in Hx; congruence.
Qed.

Lemma in_get k (v : V) m :
  NoDup (map fst m) -> In (k, v) m -> get k m = Some v.
Proof.
  induction m as [|[k0 v0] m IH]; cbn; intros Hn Hin; [contradiction|].
  inversion Hn as [|? ? Hk0 Hm]; subst.
  destruct Hin as [[= -> ->] | Hin].
  - rewrite String.eqb_refl; reflexivity.
  - destruct (String.eqb_spec k k0) as [-> | _]; [|auto].
    exfalso; apply Hk0; apply (in_map fst) in Hin; exact Hin.
Qed.

End MapFacts.

Lemma total_app f l1 l2 : total f (l1 ++ l2) = total f l1 + total f l2.
Proof.
  unfold total; induction l1 as [|x l1 IH]; cbn; [reflexivity | lia].
Qed.

(** What the loop over [authorStats] has computed. *)
Lemma authorStats_spec posts : forall stats,
  NoDup (map fst stats) ->
  NoDup (map fst (fold_left count_author posts stats)) /\
  forall name,
    get name (fold_left count_author posts stats) =
    match written_by name posts, get name stats with
    | [], before => before
    | own, before =>
        let e := match before with
                 | Some e => e
                 | None => {| posts_written := 0; engagement := 0 |}
                 end in
        Some {| posts_written :=
                  posts_written e + Z.of_nat (List.length own);
                engagement :=
                  engagement e
                  + total (fun p => upvotes p + comment_count p) own |}
    end.
Proof.
  induction posts as [|p posts IH]; intros stats Hn.
  - split; [exact Hn | reflexivity].
  - cbn [fold_left].
    destruct (IH (count_author stats p)) as [IHn IHg];
      [apply set_nodup, Hn|].
    split; [exact IHn|].
    intros name; rewrite IHg; unfold count_author; rewrite get_set.
    cbn [written_by filter]; fold (written_by name posts).
    destruct (String.eqb_spec name (author p)) as [-> | Hne].
    + rewrite String.eqb_refl.
      destruct (written_by (author p) posts) as [|q own];
        destruct (get (author p) stats) as [[n e]|];
        cbn -[Z.add Z.of_nat]; f_equal; f_equal; lia.
    + destruct (String.eqb_spec (author p) name); [congruence|].
      reflexivity.
Qed.

Lemma submoltStats_spec posts : forall stats,
  NoDup (map fst stats) ->
  NoDup (map fst (fold_left count_submolt posts stats)) /\
  forall name,
    get name (fold_left count_submolt posts stats) =
    match posted_in name posts, get name stats with
    | [], before => before
    | own, before =>
        Some (match before with Some n => n | None => 0 end
              + Z.of_nat (List.length own))
    end.
Proof.
  induction posts as [|p posts IH]; intros stats Hn.
  - split; [exact Hn | reflexivity].
  - cbn [fold_left].
    destruct (IH (count_submolt stats p)) as [IHn IHg];
      [apply set_nodup, Hn|].
    split; [exact IHn|].
    intros name; rewrite IHg; unfold count_submolt; rewrite get_set.
    cbn [posted_in filter]; fold (posted_in name posts).
    destruct (String.eqb_spec name (submolt p)) as [-> | Hne].
    + rewrite String.eqb_refl.
      destruct (posted_in (submolt p) posts) as [|q own];
        destruct (get (submolt p) stats) as [n|];
        cbn -[Z.add Z.of_nat]; f_equal; lia.
    + destruct (String.eqb_spec (submolt p) name); [congruence|].
      reflexivity.
Qed.

Lemma nodup_keys_sub {V} (top all : list (string * V)) :
  NoDup (map fst all) ->
  (exists rest, Permutation (top ++ rest) all) ->
  NoDup (map fst top).
Proof.
  intros Hn (rest & Hp).
  apply (Permutation_map fst) in Hp; rewrite map_app in Hp.
  apply Permutation_sym in Hp.
  apply (Permutation_NoDup Hp) in Hn.
  apply NoDup_app_remove_r in Hn; exact Hn.
Qed.

Lemma firstn_sub {A} key k (l : list A) :
  exists rest, Permutation (firstn k (sort_desc key l) ++ rest) l.
Proof.
  exists (skipn k (sort_desc key l)).
  rewrite firstn_skipn; apply sort_desc_perm.
Qed.

(** X18.  The hot topics of [analyze_trend] are the posts of highest
    score, where the score of a post is
    [upvotes - downvotes + 2 * comment_count]: at most ten entries, each
    the title, score and id of a post of the feed, in descending order of
    score, and every post of the feed either is listed or scores no more
    than every listed one.  With at most ten posts, every post is
    listed. *)
Theorem hot_topics_are_the_top_scores (posts : list Post) :
  (List.length (hotTopics posts) <= 10)%nat /\
  descending_by score (hotTopics posts) /\
  (forall t, In t (hotTopics posts) ->
             exists p, In p posts /\
                       topic_title t = title p /\ topic_post_id t = id p /\
                       score t = upvotes p - downvotes p + 2 * comment_count p) /\
  (forall p, In p posts ->
             In (hot p) (hotTopics posts) \/
             forall t, In t (hotTopics posts) ->
                       upvotes p - downvotes p + 2 * comment_count p <= score t) /\
  ((List.length posts <= 10)%nat ->
   Permutation (hotTopics posts) (map hot posts)).
Proof.
  unfold hotTopics.
  destruct (top_of_sorted HotTopic score 10 (map hot posts))
    as (H1 & H2 & H3 & H4 & H5).
  split; [exact H1|]; split; [exact H2|]; split; [|split].
  - intros t Ht; apply H3, in_map_iff in Ht; destruct Ht as (p & <- & Hp).
    exists p; repeat split; auto; cbn [score hot]; lia.
  - intros p Hp; destruct (H4 (hot p) (in_map hot _ _ Hp)) as [H | H];
      [left; exact H | right].
    intros t Ht; specialize (H t Ht); cbn [score hot] in H; lia.
  - intros Hlen; apply H5; rewrite length_map; exact Hlen.
Qed.

(** X19.  The author and community tallies of [analyze_trend] count what
    they say.  Every listed author appears once, with the number of the
    feed's posts by that author (at least one) and the sum of
    [upvotes + comment_count] over those posts; at most ten authors are
    listed, in descending order of that sum, and an author left out has
    a sum no larger than every listed one.  Likewise every listed
    community appears once with the number of the feed's posts in it. *)
Theorem tallies_count_the_feed (posts : list Post) :
  (List.length (risingAuthors posts) <= 10)%nat /\
  NoDup (map fst (risingAuthors posts)) /\
  descending_by (fun entry => engagement (snd entry)) (risingAuthors posts) /\
  (forall name stats,
      In (name, stats) (risingAuthors posts) ->
      posts_written stats = Z.of_nat (List.length (written_by name posts)) /\
      1 <= posts_written stats /\
      engagement stats =
      total (fun p => upvotes p + comment_count p) (written_by name posts)) /\
  (forall p, In p posts ->
             In (author p) (map fst (risingAuthors posts)) \/
             forall name stats,
               In (name, stats) (risingAuthors posts) ->
               total (fun q => upvotes q + comment_count q)
                     (written_by (author p) posts) <= engagement stats) /\
  (List.length (activeSubmolts posts) <= 10)%nat /\
  NoDup (map fst (activeSubmolts posts)) /\
  descending_by snd (activeSubmolts posts) /\
  (forall name activity,
      In (name, activity) (activeSubmolts posts) ->
      activity = Z.of_nat (List.length (posted_in name posts)) /\
      1 <= activity).
Proof.
  destruct (authorStats_spec posts [] (NoDup_nil _)) as [An Ag].
  destruct (submoltStats_spec posts [] (NoDup_nil _)) as [Sn Sg].
  fold (authorStats posts) in An, Ag; fold (submoltStats posts) in Sn, Sg.
  unfold risingAuthors, activeSubmolts.
  destruct (top_of_sorted _ (fun entry : string * AuthorStats => engagement (snd entry))
              10 (authorStats posts)) as (A1 & A2 & A3 & A4 & _).
  destruct (top_of_sorted _ (@snd string Z) 10 (submoltStats posts))
    as (S1 & S2 & S3 & _ & _).
  assert (Aspec : forall name stats,
             In (name, stats) (authorStats posts) ->
             written_by name posts <> [] /\
             stats = {| posts_written := Z.of_nat (List.length (written_by name posts));
                        engagement := total (fun p => upvotes p + comment_count p)
                                            (written_by name posts) |}).
  { intros name stats Hin.
    apply (in_get _ _ _ _ An) in Hin; rewrite Ag in Hin; cbn [get] in Hin.
    destruct (written_by name posts) as [|q own]; [discriminate|].
    injection Hin as <-; split; [discriminate | f_equal; lia]. }
  repeat split.
  - exact A1.
  - apply (nodup_keys_sub _ (authorStats posts) An), firstn_sub.
  - exact A2.
  - apply A3, Aspec in H; destruct H as [_ ->]; reflexivity.
  - apply A3, Aspec in H; destruct H as [Hne ->]; cbn.
    destruct (written_by name posts); [congruence | cbn; lia].
  - apply A3, Aspec in H; destruct H as [_ ->]; reflexivity.
  - intros p Hp.
    assert (Hown : In p (written_by (author p) posts)).
    { apply filter_In; split; [exact Hp | apply String.eqb_refl]. }
    specialize (Ag (author p)); cbn [get] in Ag.
    destruct (written_by (author p) posts) as [|q own] eqn:E; [contradiction|].
    rewrite <- E in *.
    set (stats := {| posts_written := _; engagement := _ |}) in Ag.
    assert (Hin : In (author p, stats) (authorStats posts)).
    { clear - Ag; induction (authorStats posts) as [|[k v] m IH];
        cbn in Ag; [discriminate|].
      destruct (String.eqb_spec (author p) k) as [<- | _].
      - injection Ag as ->; left; reflexivity.
      - right; apply IH, Ag. }
    destruct (A4 _ Hin) as [H | H].
    + left; apply (in_map fst) in H; exact H.
    + right; intros name stats' Hs; specialize (H _ Hs); cbn in H.
      subst stats; cbn in H; lia.
  - exact S1.
  - apply (nodup_keys_sub _ (submoltStats posts) Sn), firstn_sub.
  - exact S2.
  - apply S3 in H; apply (in_get _ _ _ _ Sn) in H.
    rewrite Sg in H; cbn [get] in H.
    destruct (posted_in name posts) as [|q own]; [discriminate|].
    assert (E : activity = 0 + Z.of_nat (List.length (q :: own))) by congruence.
    lia.
  - apply S3 in H; apply (in_get _ _ _ _ Sn) in H.
    rewrite Sg in H; cbn [get] in H.
    destruct (posted_in name posts) as [|q own]; [discriminate|].
    assert (E : activity = 0 + Z.of_nat (List.length (q :: own))) by congruence.
    cbn [List.length] in E; lia.
Qed.

Lemma plain_snoc w c : plain w = true -> is_word_char c = true ->
                        plain (w ++ String c EmptyString) = true.
Proof.
  induction w as [|d w IH]; cbn; intros Hw Hc.
  - rewrite Hc; reflexivity.
  - apply andb_true_iff in Hw; destruct Hw as [Hd Hw].
    rewrite Hd, IH; auto.
Qed.

Lemma split_plain s : forall current inGap,
  all_chars (fun c => is_word_char c || Str.is_space c) s = true ->
  plain current = true ->
  Forall (fun w => plain w = true) (split_from s current inGap).
Proof.
  induction s as [|c s IH]; cbn; intros current inGap Hs Hc.
  - constructor; [exact Hc | constructor].
  - apply andb_true_iff in Hs; destruct Hs as [Hch Hs].
    destruct (Str.is_space c) eqn:Esp.
    + destruct inGap; [apply IH; auto|].
      constructor; [exact Hc | apply IH; auto].
    + apply IH; [exact Hs|].
      apply plain_snoc; [exact Hc|].
      rewrite orb_false_r in Hch; exact Hch.
Qed.

Lemma blank_out_chars s :
  all_chars (fun c => is_word_char c || Str.is_space c) (blank_out s) = true.
Proof.
  induction s as [|c s IH]; cbn; [reflexivity|].
  rewrite IH, andb_true_r.
  destruct (is_word_char c || Str.is_space c) eqn:E; [exact E | reflexivity].
Qed.

(** The words taken from a title. *)
Lemma words_spec text w :
  In w (words text) ->
  (3 <= String.length w)%nat /\ plain w = true /\ ~ In w stopWords.
Proof.
  unfold words; intros H; apply filter_In in H; destruct H as [Hin Hk].
  unfold keep in Hk; apply andb_true_iff in Hk; destruct Hk as [Hlen Hstop].
  apply Z.ltb_lt in Hlen; split; [lia|]; split.
  - pose proof (split_plain (blank_out (Str.toLowerCase text)) EmptyString false
                  (blank_out_chars _) eq_refl) as Hp.
    rewrite Forall_forall in Hp; apply Hp, Hin.
  - intros Hs; apply negb_true_iff in Hstop.
    assert (E : existsb (String.eqb w) stopWords = true)
      by (apply existsb_exists; exists w; split; [exact Hs | apply String.eqb_refl]).
    congruence.
Qed.

Lemma add_once_again listed p : add_once (add_once listed p) p = add_once listed p.
Proof.
  unfold add_once at 2 3.
  destruct (existsb _ listed) eqn:E.
  - unfold add_once; rewrite E; reflexivity.
  - unfold add_once; rewrite existsb_app; cbn.
    rewrite String.eqb_refl, orb_true_r; reflexivity.
Qed.

Abbreviation listed_of := (fun o : option (list (string * string)) =>
                             match o with Some e => e | None => [] end).

(** One step of the inner loop, seen from a word [w]. *)
Lemma note_word_spec p m w0 w :
  NoDup (map fst m) ->
  NoDup (map fst (note_word p m w0)) /\
  get w (note_word p m w0) =
  if String.eqb w w0 then Some (add_once (listed_of (get w0 m)) p) else get w m.
Proof.
  intros Hn; unfold note_word.
  destruct (existsb _ (listed_of (get w0 m))) eqn:E.
  - split; [exact Hn|].
    destruct (String.eqb_spec w w0) as [-> | _]; [|reflexivity].
    unfold add_once; rewrite E.
    destruct (get w0 m); [reflexivity | discriminate].
  - split; [apply set_nodup, Hn|].
    rewrite get_set; unfold add_once; rewrite E; reflexivity.
Qed.

Lemma note_post_spec p ws : forall m w,
  NoDup (map fst m) ->
  NoDup (map fst (fold_left (note_word p) ws m)) /\
  get w (fold_left (note_word p) ws m) =
  if existsb (String.eqb w) ws then Some (add_once (listed_of (get w m)) p)
  else get w m.
Proof.
  induction ws as [|w0 ws IH]; intros m w Hn; cbn [fold_left existsb].
  - split; [exact Hn | reflexivity].
  - destruct (note_word_spec p m w0 w Hn) as [Hn' Hg'].
    destruct (IH (note_word p m w0) w Hn') as [Hn2 Hg2].
    split; [exact Hn2|].
    rewrite Hg2, Hg'.
    destruct (String.eqb_spec w w0) as [-> | Hne]; cbn [orb].
    + rewrite add_once_again; destruct (existsb _ ws); reflexivity.
    + reflexivity.
Qed.

Lemma wordMap_spec posts : forall m w,
  NoDup (map fst m) ->
  NoDup (map fst (fold_left note_post posts m)) /\
  get w (fold_left note_post posts m) =
  match filter (mentions w) posts, get w m with
  | [], before => before
  | own, before => Some (fold_left add_once own (listed_of before))
  end.
Proof.
  induction posts as [|p posts IH]; intros m w Hn; cbn [fold_left filter].
  - split; [exact Hn | reflexivity].
  - destruct (note_post_spec p (words (title p)) m w Hn) as [Hn' Hg'].
    fold (note_post m p) in Hn', Hg'.
    destruct (IH (note_post m p) w Hn') as [Hn2 Hg2].
    split; [exact Hn2|].
    rewrite Hg2, Hg'; unfold mentions at 2.
    destruct (existsb (String.eqb w) (words (title p))); cbn [fold_left].
    + destruct (filter (mentions w) posts); reflexivity.
    + reflexivity.
Qed.

(** What a fold of [add_once] lists. *)
Lemma add_once_spec own : forall listed,
  NoDup (map fst listed) ->
  NoDup (map fst (fold_left add_once own listed)) /\
  (forall e, In e (fold_left add_once own listed) ->
             In e listed \/ exists p, In p own /\ e = (id p, title p)) /\
  (forall p, In p own -> In (id p) (map fst (fold_left add_once own listed))).
Proof.
  induction own as [|p own IH]; intros listed Hn; cbn [fold_left].
  - split; [exact Hn|]; split; [auto | intros p []].
  - assert (Hn' : NoDup (map fst (add_once listed p))).
    { unfold add_once; destruct (existsb _ listed) eqn:E; [exact Hn|].
      rewrite map_app; apply NoDup_app; repeat split; auto.
      - constructor; [intros [] | constructor].
      - intros x Hx [<- | []].
        apply in_map_iff in Hx; destruct Hx as (q & Hq & Hin).
        assert (existsb (fun q => String.eqb (fst q) (id p)) listed = true)
          by (apply existsb_exists; exists q; split;
              [exact Hin | rewrite Hq; apply String.eqb_refl]).
        congruence. }
    destruct (IH (add_once listed p) Hn') as (H1 & H2 & H3).
    split; [exact H1|]; split.
    + intros e He; destruct (H2 e He) as [Hin | (q & Hq & ->)].
      * unfold add_once in Hin; destruct (existsb _ listed); [left; exact Hin|].
        apply in_app_or in Hin; destruct Hin as [Hin | [<- | []]];
          [left; exact Hin | right; exists p; split; [left|]; reflexivity].
      * right; exists q; split; [right; exact Hq | reflexivity].
    + intros q [<- | Hq]; [| apply H3, Hq].
      assert (Hin : In (id p) (map fst (add_once listed p))).
      { unfold add_once; destruct (existsb _ listed) eqn:E.
        - apply existsb_exists in E; destruct E as (e & He & Heq).
          apply String.eqb_eq in Heq; rewrite <- Heq.
          apply in_map; exact He.
        - rewrite map_app; apply in_or_app; right; left; reflexivity. }
      clear - Hin; revert Hin; generalize (add_once listed p).
      induction own as [|q own IH]; intros l Hin; cbn [fold_left]; [exact Hin|].
      apply IH; unfold add_once; destruct (existsb _ l); [exact Hin|].
      rewrite map_app; apply in_or_app; left; exact Hin.
Qed.

(** X20.  The topics of [analyze_topics] are keywords shared by several
    posts.  At most ten topics are listed, with distinct keywords, in
    descending order of count.  Every keyword has at least three
    characters, all of them lower-case letters or digits, and is not a
    stop word.  A topic lists, once per post id and in feed order, the
    posts whose title contains the keyword as a word; its count is the
    number of posts listed and is at least 2. *)
Theorem topics_are_shared_keywords (posts : list Post) :
  (List.length (analyze_topics posts) <= 10)%nat /\
  NoDup (map keyword (analyze_topics posts)) /\
  descending_by count (analyze_topics posts) /\
  (forall t, In t (analyze_topics posts) ->
     (3 <= String.length (keyword t))%nat /\
     plain (keyword t) = true /\
     ~ In (keyword t) stopWords /\
     topic_posts t = posts_for (keyword t) posts /\
     count t = Z.of_nat (List.length (topic_posts t)) /\
     2 <= count t /\
     NoDup (map fst (topic_posts t)) /\
     (forall i ttl, In (i, ttl) (topic_posts t) ->
                    exists p, In p posts /\ id p = i /\ title p = ttl /\
                              In (keyword t) (words (title p)))).
Proof.
  unfold analyze_topics.
  set (candidates := filter (fun t => 2 <=? count t)
                            (map topic_of (wordMap_of posts))).
  destruct (top_of_sorted Topic count 10 candidates) as (H1 & H2 & H3 & _ & _).
  assert (Hmap : NoDup (map fst (wordMap_of posts)))
    by (apply (wordMap_spec posts [] EmptyString), NoDup_nil).
  split; [exact H1|]; split; [|split; [exact H2|]].
  - assert (Hc : NoDup (map keyword candidates)).
    { unfold candidates; clear - Hmap.
      induction (wordMap_of posts) as [|[w l] m IH];
        cbn [map filter]; [constructor|].
      inversion Hmap as [|? ? Hw Hm]; subst.
      cbn [count topic_of snd].
      destruct (2 <=? Z.of_nat (List.length l)); cbn [map keyword topic_of fst];
        [|apply IH, Hm].
      constructor; [|apply IH, Hm].
      intros Hin; apply Hw; apply in_map_iff in Hin.
      destruct Hin as (t & <- & Ht); apply filter_In in Ht; destruct Ht as [Ht _].
      apply in_map_iff in Ht; destruct Ht as ([w' l'] & <- & Hin).
      apply (in_map fst) in Hin; exact Hin. }
    assert (Hp : Permutation
                   (map keyword (firstn 10 (sort_desc count candidates)) ++
                    map keyword (skipn 10 (sort_desc count candidates)))
                   (map keyword candidates)).
    { rewrite <- map_app, firstn_skipn.
      apply Permutation_map, sort_desc_perm. }
    apply Permutation_sym in Hp; apply (Permutation_NoDup Hp) in Hc.
    apply NoDup_app_remove_r in Hc; exact Hc.
  - intros t Ht; apply H3 in Ht; unfold candidates in Ht.
    apply filter_In in Ht; destruct Ht as [Ht Hcount].
    apply in_map_iff in Ht; destruct Ht as ([w l] & <- & Hin).
    apply Z.leb_le in Hcount; cbn [topic_of keyword count topic_posts fst snd] in *.
    apply (in_get _ _ _ _ Hmap) in Hin.
    destruct (wordMap_spec posts [] w (NoDup_nil _)) as [_ Hg].
    fold (wordMap_of posts) in Hg; rewrite Hin in Hg; cbn [get] in Hg.
    assert (Hl : l = posts_for w posts).
    { unfold posts_for; destruct (filter (mentions w) posts);
        [discriminate | congruence]. }
    destruct (add_once_spec (filter (mentions w) posts) [] (NoDup_nil _))
      as (Hn & Hfrom & _).
    fold (posts_for w posts) in Hn, Hfrom; rewrite <- Hl in Hn, Hfrom.
    assert (Hsome : exists p, In p posts /\ In w (words (title p))).
    { destruct (filter (mentions w) posts) as [|p own] eqn:E; [discriminate|].
      assert (Hp : In p (filter (mentions w) posts)) by (rewrite E; left; reflexivity).
      apply filter_In in Hp; destruct Hp as [Hp Hm]; exists p; split; [exact Hp|].
      unfold mentions in Hm; apply existsb_exists in Hm.
      destruct Hm as (w' & Hw' & Heq); apply String.eqb_eq in Heq; subst w'.
      exact Hw'. }
    destruct Hsome as (p0 & _ & Hw0).
    destruct (words_spec _ _ Hw0) as (Hlen & Hplain & Hstop).
    repeat split; auto.
    intros i ttl Hi; destruct (Hfrom _ Hi) as [[] | (p & Hp & Heq)].
    injection Heq as -> ->.
    apply filter_In in Hp; destruct Hp as [Hp Hm]; exists p.
    repeat split; auto.
    unfold mentions in Hm; apply existsb_exists in Hm.
    destruct Hm as (w' & Hw' & Heq); apply String.eqb_eq in Heq; subst w'.
    exact Hw'.
Qed.

(** The sample feed of three posts. *)
Lemma hot_topics_are_the_top_scores_witness :
  Permutation (hotTopics sample) (map hot sample).
Proof.
  apply (hot_topics_are_the_top_scores sample); simpl; lia.
Defined.

Lemma tallies_count_the_feed_witness :
  posts_written {| posts_written := 2; engagement := 13 |} =
  Z.of_nat (List.length (written_by "ann" sample)).
Proof.
  destruct (tallies_count_the_feed sample) as (_ & _ & _ & H & _).
  apply (H "ann" {| posts_written := 2; engagement := 13 |}).
  left; reflexivity.
Defined.

Lemma topics_are_shared_keywords_witness :
  topic_posts {| keyword := "agents"; count := 2;
                 topic_posts := [("1", "AI Agents: the future!");
                                 ("2", "Agents and agents at WORK")] |} =
  posts_for "agents" sample.
Proof.
  destruct (topics_are_shared_keywords sample) as (_ & _ & _ & H).
  apply (H {| keyword := "agents"; count := 2;
              topic_posts := [("1", "AI Agents: the future!");
                              ("2", "Agents and agents at WORK")] |}).
  left; reflexivity.
Defined.

End TrendFacts.

(* ====================================================================== *)
(** * Properties of conversations and direct calls *)
(* ====================================================================== *)

Section DialogueFacts.
Import Json.
Import Agent.
Import Dialogue.
Local Open Scope string_scope.

Context {rt : Js.Runtime}.

Variable World : Type.
Variable tools : list (ToolDefinition World).
Variable JSON_stringify : json -> string.
Variable JSON_parse : string -> option json.
Variable claude_stream : World -> list MessageParam -> Streamed * World.
Variable claude_create : World -> list MessageParam -> Outcome FinalMessage * World.
Variable openai_stream : World -> list ChatMessage -> Completion * World.
Variable openai_create : World -> list ChatMessage -> Outcome Choice * World.

Lemma answered_app l1 l2 : answered l1 -> answered l2 -> answered (l1 ++ l2).
Proof.
  induction 1 as [| s rest _ IH | s rest _ IH | c calls replies rest Hids _ IH];
    intros H2; cbn [app].
  - exact H2.
  - constructor; auto.
  - constructor; auto.
  - rewrite <- app_assoc; constructor; auto.
Qed.

Lemma resolved_app l1 l2 : resolved l1 -> resolved l2 -> resolved (l1 ++ l2).
Proof.
  induction 1 as [| s rest _ IH | blocks rest Hnone _ IH
                  | blocks results rest Hsome Hids _ IH];
    intros H2; cbn [app].
  - exact H2.
  - apply resolved_user; auto.
  - apply resolved_plain; auto.
  - apply resolved_calls; auto.
Qed.

Lemma combine_left {A B C} (f : A -> C) (l : list A) : forall (l' : list B),
  List.length l = List.length l' ->
  map (fun p => f (fst p)) (combine l l') = map f l.
Proof.
  induction l as [|x l IH]; intros [|y l'] Hlen; cbn in *;
    try reflexivity; try discriminate.
  rewrite IH; [reflexivity | lia].
Qed.

(** One round of the chunk protocol leaves the conversation answered. *)
Lemma openai_round_answered pending w toolCalls conversation c :
  answered conversation ->
  answered
    (snd (openai_tools World tools JSON_stringify JSON_parse pending w toolCalls
            (conversation ++ [AssistantMessage c pending])%list)).
Proof.
  intros Ha.
  destruct (openai_tools_spec World tools JSON_stringify JSON_parse pending w
              toolCalls (conversation ++ [AssistantMessage c pending])%list)
    as (new & _ & _ & Hnames & _ & ->).
  rewrite <- app_assoc; apply answered_app; [exact Ha|].
  cbn [app].
  rewrite <- (app_nil_r (map _ (combine pending new))).
  rewrite <- (map_map (fun pc : Pending * ToolCallResult =>
                         (pending_id (fst pc), JSON_stringify (call_output (snd pc))))
                      (fun r => ToolMessage (fst r) (snd r))).
  constructor; [|constructor].
  rewrite map_map; cbn [fst].
  apply combine_left.
  rewrite <- (length_map pending_name pending), <- Hnames, length_map.
  reflexivity.
Qed.

(** One round of the block protocol yields one result per block, under
    the ids of the blocks. *)
Lemma claude_round_ids uses w toolCalls :
  map tool_use_id
      (snd (claude_tools World tools JSON_stringify uses w toolCalls [])) =
  map use_id uses.
Proof.
  destruct (claude_tools_spec World tools JSON_stringify uses w toolCalls [])
    as (new & _ & _ & Hnames & _ & ->).
  cbn [app]; rewrite map_map; cbn [tool_use_id].
  apply combine_left.
  rewrite <- (length_map use_name uses), <- Hnames, length_map.
  reflexivity.
Qed.

Lemma openai_stream_answered remaining : forall turn w conversation toolCalls,
  answered conversation ->
  answered (history (openai_stream_loop World tools JSON_stringify JSON_parse
                       openai_stream remaining turn w conversation toolCalls)).
Proof.
  induction remaining as [|n IH]; intros turn w conversation toolCalls Ha.
  - exact Ha.
  - cbn [openai_stream_loop].
    destruct (openai_stream w conversation) as [stream w1].
    destruct (consume (chunks stream) "" []) as [[yielded fullText] pending].
    destruct (failure stream) as [e|]; [exact Ha|].
    destruct pending as [|p ps].
    + cbn [history]; apply answered_app; [exact Ha|].
      apply (answered_calls (Some fullText) [] [] []); [reflexivity | constructor].
    + pose proof (openai_round_answered (map snd (p :: ps)) w1 toolCalls
                    conversation (nonempty (Some fullText)) Ha) as Hr.
      destruct (openai_tools World tools JSON_stringify JSON_parse
                  (map snd (p :: ps)) w1 toolCalls _)
        as [[[evs w2] toolCalls'] conversation'].
      cbn [snd] in Hr; cbn [history after]; apply IH, Hr.
Qed.

Lemma openai_answered provider remaining : forall turn w conversation toolCalls,
  answered conversation ->
  answered (history (openai_loop World tools JSON_stringify JSON_parse
                       openai_create provider remaining turn w conversation
                       toolCalls)).
Proof.
  induction remaining as [|n IH]; intros turn w conversation toolCalls Ha.
  - exact Ha.
  - cbn [openai_loop].
    destruct (openai_create w conversation) as [[message|e] w1]; [|exact Ha].
    destruct (choice_tool_calls message) as [|p ps] eqn:E.
    + cbn [history]; apply answered_app; [exact Ha|].
      apply (answered_calls (choice_content message) [] [] []);
        [reflexivity | constructor].
    + pose proof (openai_round_answered (p :: ps) w1 toolCalls
                    conversation (choice_content message) Ha) as Hr.
      destruct (openai_tools World tools JSON_stringify JSON_parse
                  (p :: ps) w1 toolCalls _)
        as [[[evs w2] toolCalls'] conversation'].
      cbn [snd] in Hr; apply IH, Hr.
Qed.

(** X21.  Under the chunk protocol every request in the conversation is
    answered.  If the stored conversation is one in which each assistant
    message is followed at once by one tool message per requested call,
    in order and under the ids of the calls, then so is the conversation
    after [chatStreamWithOpenAI] and after [chatWithOpenAI], whatever the
    provider and the tools do, for every round limit: rounds that fail
    add nothing, and the turn limit cuts between rounds. *)
Theorem chunk_conversation_stays_answered
        (provider : string) (client : bool) (maxTurns : Z) (w : World)
        (systemPrompt : string) (openaiHistory : list ChatMessage)
        (userMessage : string) :
  answered openaiHistory ->
  answered (history (chatStreamWithOpenAI World tools JSON_stringify JSON_parse
                       openai_stream client maxTurns w systemPrompt
                       openaiHistory userMessage)) /\
  answered (history (chatWithOpenAI World tools JSON_stringify JSON_parse
                       openai_create provider client maxTurns w systemPrompt
                       openaiHistory userMessage)).
Proof.
  intros Ha.
  assert (Hstart : answered
                     (match openaiHistory with
                      | [] => [SystemMessage systemPrompt]
                      | _ => openaiHistory
                      end ++ [UserMessage userMessage])).
  { apply answered_app; [| repeat constructor].
    destruct openaiHistory; [repeat constructor | exact Ha]. }
  unfold chatStreamWithOpenAI, chatWithOpenAI.
  destruct client; cbn [negb]; split; try exact Ha.
  - apply openai_stream_answered, Hstart.
  - apply openai_answered, Hstart.
Qed.

Lemma claude_stream_resolved remaining : forall turn w conversation toolCalls,
  resolved conversation ->
  resolved (history (claude_stream_loop World tools JSON_stringify
                       claude_stream remaining turn w conversation toolCalls)).
Proof.
  induction remaining as [|n IH]; intros turn w conversation toolCalls Ha.
  - exact Ha.
  - cbn [claude_stream_loop].
    destruct (claude_stream w conversation) as [stream w1].
    destruct (final stream) as [m|e]; [|exact Ha].
    destruct (tool_uses (content m)) as [|u us] eqn:E.
    + cbn [history]; apply resolved_app; [exact Ha|].
      apply resolved_plain; [exact E | constructor].
    + pose proof (claude_round_ids (u :: us) w1 toolCalls) as Hids.
      destruct (claude_tools World tools JSON_stringify (u :: us) w1 toolCalls [])
        as [[[evs w2] toolCalls'] toolResults].
      cbn [snd] in Hids.
      assert (Hr : resolved (conversation ++ [AssistantBlocks (content m);
                                              UserToolResults toolResults])).
      { apply resolved_app; [exact Ha|].
        apply resolved_calls; [rewrite E; discriminate | rewrite E; exact Hids
                              | constructor]. }
      destruct (String.eqb (stop_reason m) "end_turn"); [exact Hr|].
      cbn [history after]; apply IH, Hr.
Qed.

Lemma claude_resolved provider remaining : forall turn w conversation toolCalls,
  resolved conversation ->
  resolved (history (claude_loop World tools JSON_stringify claude_create
                       provider remaining turn w conversation toolCalls)).
Proof.
  induction remaining as [|n IH]; intros turn w conversation toolCalls Ha.
  - exact Ha.
  - cbn [claude_loop].
    destruct (claude_create w conversation) as [[m|e] w1]; [|exact Ha].
    destruct (tool_uses (content m)) as [|u us] eqn:E.
    + cbn [history]; apply resolved_app; [exact Ha|].
      apply resolved_plain; [exact E | constructor].
    + pose proof (claude_round_ids (u :: us) w1 toolCalls) as Hids.
      destruct (claude_tools World tools JSON_stringify (u :: us) w1 toolCalls [])
        as [[[evs w2] toolCalls'] toolResults].
      cbn [snd] in Hids.
      assert (Hr : resolved (conversation ++ [AssistantBlocks (content m);
                                              UserToolResults toolResults])).
      { apply resolved_app; [exact Ha|].
        apply resolved_calls; [rewrite E; discriminate | rewrite E; exact Hids
                              | constructor]. }
      destruct (String.eqb (stop_reason m) "end_turn"); [exact Hr|].
      apply IH, Hr.
Qed.

(** X22.  Under the block protocol every request in the conversation is
    answered.  If the stored conversation is one in which each assistant
    message with tool-use blocks is followed at once by a user message
    with one result per block, in order and under the ids of the blocks,
    then so is the conversation after [chatStreamWithClaude] and after
    [chatWithClaude], whatever the provider and the tools do, for every
    round limit. *)
Theorem block_conversation_stays_resolved
        (provider : string) (client : bool) (maxTurns : Z) (w : World)
        (conversationHistory : list MessageParam) (userMessage : string) :
  resolved conversationHistory ->
  resolved (history (chatStreamWithClaude World tools JSON_stringify
                       claude_stream client maxTurns w conversationHistory
                       userMessage)) /\
  resolved (history (chatWithClaude World tools JSON_stringify claude_create
                       provider client maxTurns w conversationHistory
                       userMessage)).
Proof.
  intros Ha.
  assert (Hstart : resolved (conversationHistory ++ [UserText userMessage]))
    by (apply resolved_app; [exact Ha | repeat constructor]).
  unfold chatStreamWithClaude, chatWithClaude.
  destruct client; cbn [negb]; split; try exact Ha.
  - apply claude_stream_resolved, Hstart.
  - apply claude_resolved, Hstart.
Qed.

(** The two loops of the block protocol, side by side. *)
Lemma claude_loops_agree provider remaining :
  same_provider claude_stream claude_create ->
  forall turn w conversation toolCalls,
    let streamed := claude_stream_loop World tools JSON_stringify claude_stream
                      remaining turn w conversation toolCalls in
    let returned := claude_loop World tools JSON_stringify claude_create
                      provider remaining turn w conversation toolCalls in
    history streamed = history returned /\
    recorded streamed = recorded returned /\
    turns streamed = turns returned /\
    world streamed = world returned /\
    (forall toolCalls', reported (output streamed) = Some toolCalls' ->
                        response_toolCalls (output returned) = toolCalls').
Proof.
  intros Hsame; induction remaining as [|n IH];
    intros turn w conversation toolCalls; cbv zeta.
  - cbn; repeat split; intros tc [= <-]; reflexivity.
  - cbn [claude_stream_loop claude_loop].
    pose proof (Hsame w conversation) as E.
    destruct (claude_stream w conversation) as [stream w1]; cbn [fst snd] in E.
    rewrite E; clear E.
    destruct (final stream) as [m|e].
    + destruct (tool_uses (content m)) as [|u us].
      * cbn [history recorded turns world output]; repeat split.
        unfold reported; rewrite last_last; intros tc [= <-]; reflexivity.
      * destruct (claude_tools World tools JSON_stringify (u :: us) w1 toolCalls [])
          as [[[evs w2] toolCalls'] toolResults].
        destruct (String.eqb (stop_reason m) "end_turn").
        -- cbn [history recorded turns world output]; repeat split.
           unfold reported; rewrite app_assoc, last_last.
           intros tc [= <-]; reflexivity.
        -- match goal with
           | |- context [claude_loop _ _ _ _ _ n ?t ?w ?c ?k] =>
               destruct (IH t w c k) as (H1 & H2 & H3 & H4 & H5)
           end.
           cbn [history recorded turns world output after].
           repeat split; auto.
           intros tc Hr; apply H5.
           match goal with
           | |- context [claude_stream_loop _ _ _ _ n ?t ?w ?c ?k] =>
               destruct (claude_stream_loop_shape World tools JSON_stringify
                           claude_stream n t w c k)
                 as (body & final_event & new & Hout & _)
           end.
           rewrite Hout in Hr |- *.
           unfold reported in *.
           rewrite app_assoc, last_last in Hr.
           rewrite last_last; exact Hr.
    + cbn [history recorded turns world output]; repeat split.
      unfold reported; rewrite last_last; discriminate.
Qed.

(** X23.  Streaming changes what is shown, not what is done.  When
    [messages.create] returns what [messages.stream] ends with,
    [chatStreamWithClaude] and [chatWithClaude] leave the same
    conversation, record the same tool calls with the same results,
    count the same number of rounds and leave the outside world in the
    same state; and when the stream ends with a [done] event, the tool
    calls it reports are those of the returned response. *)
Theorem streaming_agrees_with_returning
        (provider : string) (client : bool) (maxTurns : Z) (w : World)
        (conversationHistory : list MessageParam) (userMessage : string) :
  same_provider claude_stream claude_create ->
  let streamed := chatStreamWithClaude World tools JSON_stringify claude_stream
                    client maxTurns w conversationHistory userMessage in
  let returned := chatWithClaude World tools JSON_stringify claude_create
                    provider client maxTurns w conversationHistory userMessage in
  history streamed = history returned /\
  recorded streamed = recorded returned /\
  turns streamed = turns returned /\
  world streamed = world returned /\
  (forall toolCalls, reported (output streamed) = Some toolCalls ->
                     response_toolCalls (output returned) = toolCalls).
Proof.
  intros Hsame; unfold chatStreamWithClaude, chatWithClaude.
  destruct client; cbn [negb].
  - apply claude_loops_agree, Hsame.
  - cbv zeta; cbn; repeat split; discriminate.
Qed.

(** X24.  A direct call never falls back.  [callToolDirect] leaves the
    world as the dispatcher of the agent does and returns the same
    result, except that its own failures (unknown tool, rejected
    parameters, a handler that throws) carry [success: false], which the
    dispatcher's do not.  This holds for every tool but the search, and
    for the search whenever the direct result is not a search failure;
    a search failure itself is returned as it is. *)
Theorem direct_call_vs_dispatch (n : string) (input : json) (w : World) :
  let direct := callToolDirect World tools n input w in
  let dispatched := executeTool World tools n input w in
  (n <> "moltbook_search" \/ isSearchFailure (fst direct) = false ->
   snd direct = world_of_call dispatched /\
   (fst direct = result_of_call dispatched \/
    isToolFailure (fst direct) = true /\
    isToolFailure (result_of_call dispatched) = false)) /\
  (forall tool v r w1,
      getTool World tools n = Some tool ->
      parameters tool input = Ok v ->
      handler tool v w = (Ok r, w1) ->
      direct = (r, w1)).
Proof.
  cbv zeta; split.
  - rewrite executeTool_eq; unfold callToolDirect.
    destruct (getTool World tools n) as [tool|];
      [| intros _; split; [reflexivity | right; split; reflexivity]].
    destruct (parameters tool input) as [v|e];
      [| intros _; split; [reflexivity | right; split; reflexivity]].
    destruct (handler tool v w) as [[r|e] w1];
      [| intros _; split; [reflexivity | right; split; reflexivity]].
    cbn [fst snd]; intros Hplain.
    assert (E : String.eqb n "moltbook_search" && isSearchFailure r = false).
    { destruct Hplain as [Hn | Hs].
      - apply String.eqb_neq in Hn; rewrite Hn; reflexivity.
      - rewrite Hs; apply andb_false_r. }
    rewrite E; split; [reflexivity | left; reflexivity].
  - intros tool v r w1 Htool Hv Hr; unfold callToolDirect.
    rewrite Htool, Hv, Hr; reflexivity.
Qed.

End DialogueFacts.

(** A direct call of the echo tool. *)
Lemma direct_call_vs_dispatch_witness :
  snd (Dialogue.callToolDirect nat [Agent.echo] "echo"%string Agent.hi 0%nat) =
  Agent.world_of_call
    (Agent.executeTool nat [Agent.echo] "echo"%string Agent.hi 0%nat).
Proof.
  destruct (direct_call_vs_dispatch nat [Agent.echo] "echo"%string Agent.hi 0%nat)
    as [H _].
  apply H; left; discriminate.
Defined.

(** The scenario of the design document, continued from an empty
    conversation. *)
Lemma chunk_conversation_stays_answered_witness :
  Dialogue.answered
    (Agent.history
       (Agent.chatStreamWithOpenAI nat [Agent.echo] Agent.show_nothing
          Agent.toy_parse Agent.scripted_openai true 10 0%nat "system"%string []
          "say hi"%string)).
Proof.
  apply (chunk_conversation_stays_answered nat [Agent.echo] Agent.show_nothing
           Agent.toy_parse Agent.scripted_openai
           (fun w _ => (Agent.Throw "unused"%string, w))
           "openai"%string true 10 0%nat "system"%string [] "say hi"%string).
  apply Dialogue.answered_nil.
Defined.

Lemma block_conversation_stays_resolved_witness :
  Dialogue.resolved
    (Agent.history
       (Agent.chatStreamWithClaude nat [Agent.echo] Agent.show_nothing
          Agent.scripted_claude true 10 0%nat [] "say hi"%string)).
Proof.
  apply (block_conversation_stays_resolved nat [Agent.echo] Agent.show_nothing
           Agent.scripted_claude Dialogue.scripted_create
           "claude"%string true 10 0%nat [] "say hi"%string).
  apply Dialogue.resolved_nil.
Defined.

Lemma streaming_agrees_with_returning_witness :
  Agent.history
    (Agent.chatStreamWithClaude nat [Agent.echo] Agent.show_nothing
       Agent.scripted_claude true 10 0%nat [] "say hi"%string) =
  Agent.history
    (Agent.chatWithClaude nat [Agent.echo] Agent.show_nothing
       Dialogue.scripted_create "claude"%string true 10 0%nat []
       "say hi"%string).
Proof.
  apply (streaming_agrees_with_returning nat [Agent.echo] Agent.show_nothing
           Agent.scripted_claude Dialogue.scripted_create
           "claude"%string true 10 0%nat [] "say hi"%string).
  intros w conversation; reflexivity.
Defined.

(* ====================================================================== *)
(** * Properties of the formatting helpers *)
(* ====================================================================== *)

Section FormatFacts.
Import Format.
Local Open Scope Z_scope.

Lemma append_cancel (s a b : string) : (s ++ a = s ++ b)%string -> a = b.
Proof.
  induction s as [|c s IH]; cbn; [auto|].
  intros H; injection H as H; auto.
Qed.

(** X25.  [formatTime] and [formatRelativeTime] choose the same unit and
    the same number for every pair of instants, although one divides the
    milliseconds three times and the other divides step by step: "just
    now" below one minute (also for a date in the future), 1 to 59
    minutes below one hour, 1 to 23 hours below one day, 1 to 29 days
    below thirty days (the floor of the elapsed time in its unit), and
    the calendar date from thirty days on or when the text is not a date.
    They do not write it down alike: [formatTime] puts a blank between
    the number and the unit, [formatRelativeTime] none, so from one
    minute up to thirty days the two texts differ. *)
Theorem relative_time_formatters_differ_by_a_blank :
  (forall diff,
      formatTime diff = render " " (ago diff) /\
      formatRelativeTime diff = render "" (ago diff)) /\
  (forall diff,
      match ago (Some diff) with
      | JustNow => diff < 60000
      | MinutesAgo n => 1 <= n <= 59 /\ n * 60000 <= diff < (n + 1) * 60000
      | HoursAgo n => 1 <= n <= 23 /\ n * 3600000 <= diff < (n + 1) * 3600000
      | DaysAgo n => 1 <= n <= 29 /\ n * 86400000 <= diff < (n + 1) * 86400000
      | OnDate => 30 * 86400000 <= diff
      end) /\
  (forall diff,
      (60000 <= diff < 30 * 86400000 ->
       formatTime (Some diff) <> formatRelativeTime (Some diff)) /\
      (diff < 60000 \/ 30 * 86400000 <= diff ->
       formatTime (Some diff) = formatRelativeTime (Some diff))) /\
  formatTime None = LocaleDate /\ formatRelativeTime None = LocaleDate.
Proof.
  assert (F : forall a u, 0 < u -> (a / u) * u <= a < (a / u + 1) * u).
  { intros a u Hu.
    pose proof (Z.div_mod a u ltac:(lia)).
    pose proof (Z.mod_pos_bound a u ltac:(lia)); lia. }
  assert (A : forall diff,
             formatTime diff = render " " (ago diff) /\
             formatRelativeTime diff = render "" (ago diff)).
  { intros [diff|]; [|split; reflexivity].
    unfold formatRelativeTime, formatTime, ago.
    replace (diff / 60000 / 60) with (diff / 3600000)
      by (rewrite Z.div_div by lia; reflexivity).
    replace (diff / 3600000 / 24) with (diff / 86400000)
      by (rewrite Z.div_div by lia; reflexivity).
    pose proof (F diff 60000 ltac:(lia)) as Hm.
    pose proof (F diff 3600000 ltac:(lia)) as Hh.
    pose proof (F diff 86400000 ltac:(lia)) as Hd.
    destruct (Z.ltb_spec diff 60000);
      destruct (Z.ltb_spec (diff / 60000) 1); try lia; [split; reflexivity|].
    destruct (Z.ltb_spec diff 3600000);
      destruct (Z.ltb_spec (diff / 60000) 60); try lia; [split; reflexivity|].
    destruct (Z.ltb_spec diff 86400000);
      destruct (Z.ltb_spec (diff / 3600000) 24); try lia; [split; reflexivity|].
    destruct (Z.ltb_spec diff (30 * 86400000));
      destruct (Z.ltb_spec (diff / 86400000) 30); try lia; split; reflexivity. }
  split; [exact A|]; split; [|split; [|split; reflexivity]].
  - intros diff; unfold ago.
    pose proof (F diff 60000 ltac:(lia)) as Hm.
    pose proof (F diff 3600000 ltac:(lia)) as Hh.
    pose proof (F diff 86400000 ltac:(lia)) as Hd.
    destruct (Z.ltb_spec diff 60000); [lia|].
    destruct (Z.ltb_spec diff 3600000); [lia|].
    destruct (Z.ltb_spec diff 86400000); [lia|].
    destruct (Z.ltb_spec diff (30 * 86400000)); [lia | lia].
  - intros diff; destruct (A (Some diff)) as [-> ->]; unfold ago; split.
    + intros Hd.
      destruct (Z.ltb_spec diff 60000); [lia|].
      destruct (Z.ltb_spec diff 3600000);
        [|destruct (Z.ltb_spec diff 86400000);
          [|destruct (Z.ltb_spec diff (30 * 86400000)); [|lia]]];
        cbn [render]; intros E; injection E as E;
        apply append_cancel in E; discriminate.
    + intros [Hd | Hd].
      * destruct (Z.ltb_spec diff 60000); [reflexivity | lia].
      * destruct (Z.ltb_spec diff 60000); [lia|].
        destruct (Z.ltb_spec diff 3600000); [lia|].
        destruct (Z.ltb_spec diff 86400000); [lia|].
        destruct (Z.ltb_spec diff (30 * 86400000)); [lia | reflexivity].
Qed.

(** Five minutes and a half: "5 分钟前" from one, "5分钟前" from the other. *)
Lemma relative_time_formatters_differ_by_a_blank_witness :
  (60000 <= 330000 < 30 * 86400000) /\
  formatTime (Some 330000) = Text "5 分钟前" /\
  formatRelativeTime (Some 330000) = Text "5分钟前" /\
  formatTime (Some 330000) <> formatRelativeTime (Some 330000).
Proof.
  split; [lia|]; split; [reflexivity|]; split; [reflexivity|].
  apply (proj1 (proj2 (proj2 relative_time_formatters_differ_by_a_blank)) 330000).
  lia.
Defined.

Section TruncateFacts.

Variable Unit : Type.
Variable dot : Unit.

(** X26.  [truncate] returns a text of at most [maxLength] units
    whenever [maxLength] is at least 3: the text itself when it fits,
    and otherwise its first [maxLength - 3] units followed by three
    dots.  Truncating again changes nothing.  With [maxLength] below 3 a
    longer text becomes the three dots alone, which exceeds the
    limit. *)
Theorem truncate_fits (text : list Unit) (maxLength : Z) :
  (3 <= maxLength ->
   Z.of_nat (List.length (truncate dot text maxLength)) <= maxLength /\
   truncate dot (truncate dot text maxLength) maxLength =
   truncate dot text maxLength) /\
  (Z.of_nat (List.length text) <= maxLength ->
   truncate dot text maxLength = text) /\
  (3 <= maxLength < Z.of_nat (List.length text) ->
   truncate dot text maxLength =
   (firstn (Z.to_nat (maxLength - 3)) text ++ [dot; dot; dot])%list /\
   Z.of_nat (List.length (truncate dot text maxLength)) = maxLength) /\
  (maxLength < 3 -> maxLength < Z.of_nat (List.length text) ->
   truncate dot text maxLength = [dot; dot; dot]).
Proof.
  assert (Hlong : 3 <= maxLength < Z.of_nat (List.length text) ->
                  truncate dot text maxLength =
                  (firstn (Z.to_nat (maxLength - 3)) text ++ [dot; dot; dot])%list /\
                  Z.of_nat (List.length (truncate dot text maxLength)) = maxLength).
  { intros H; unfold truncate.
    destruct (Z.leb_spec (Z.of_nat (List.length text)) maxLength); [lia|].
    split; [reflexivity|].
    rewrite length_app, length_firstn; cbn [List.length]; lia. }
  assert (Hfits : Z.of_nat (List.length text) <= maxLength ->
                  truncate dot text maxLength = text).
  { intros H; unfold truncate.
    destruct (Z.leb_spec (Z.of_nat (List.length text)) maxLength); [reflexivity | lia]. }
  split; [|split; [exact Hfits|split; [exact Hlong|]]].
  - intros H3.
    destruct (Z.le_gt_cases (Z.of_nat (List.length text)) maxLength) as [Hle | Hgt].
    + rewrite (Hfits Hle); split; [exact Hle | exact (Hfits Hle)].
    + destruct (Hlong ltac:(lia)) as [_ Hlen]; split; [lia|].
      unfold truncate at 1.
      destruct (Z.leb_spec (Z.of_nat (List.length (truncate dot text maxLength)))
                           maxLength); [reflexivity | lia].
  - intros Hsmall Hgt; unfold truncate.
    destruct (Z.leb_spec (Z.of_nat (List.length text)) maxLength); [lia|].
    replace (Z.to_nat (maxLength - 3)) with O by lia; reflexivity.
Qed.

End TruncateFacts.

(** Six units cut to five. *)
Lemma truncate_fits_witness :
  Z.of_nat (List.length (truncate 0 [1; 2; 3; 4; 5; 6] 5)) <= 5.
Proof.
  destruct (truncate_fits Z 0 [1; 2; 3; 4; 5; 6] 5) as [H _].
  apply H; lia.
Defined.

End FormatFacts.

(* ====================================================================== *)
(** * More properties of the transport layer *)
(* ====================================================================== *)

Section AttemptFacts.
Import Json.
Import Transport.
Import Attempts.
Local Open Scope string_scope.
Local Open Scope Z_scope.

Section Deciding.

Context {rt : Js.Runtime} {store : IdentityWrites}.

Variable getCurrent : option string.
Variable server : Z -> FetchOutcome.
Variable endpointPath : string.
Variable identityName : option string.
Variable maxRetries : Z.

(** The loop returns what the first attempt that returns gives, after
    the failed attempts before it. *)
Lemma first_return remaining : forall attempt lastError lastStatus k r effects,
  maxRetries = attempt + Z.of_nat remaining - 1 ->
  attempt <= k <= maxRetries ->
  (forall a, attempt <= a < k -> transient (server a)) ->
  (forall ls, attempt_once getCurrent server endpointPath identityName maxRetries
                           k ls = Return r effects) ->
  retry_loop getCurrent server endpointPath identityName maxRetries
             remaining attempt lastError lastStatus =
  (r, (failed_attempts attempt (Z.to_nat (k - attempt)) ++ effects)%list).
Proof.
  induction remaining as [|n IH];
    intros attempt lastError lastStatus k r effects Hmax Hk Hall Hret; [lia|].
  cbn [retry_loop].
  destruct (Z.eq_dec attempt k) as [-> | Hne].
  - rewrite Hret; replace (k - k) with 0 by lia; reflexivity.
  - destruct (transient_step getCurrent server endpointPath identityName
                maxRetries attempt lastStatus) as (ls & Hlt & _);
      [apply Hall; lia|].
    rewrite Hlt by (apply Z.ltb_lt; lia).
    rewrite (IH (attempt + 1) _ ls k r effects); try lia; auto.
    + replace (k - attempt) with (Z.succ (k - (attempt + 1))) by lia.
      rewrite Z2Nat.inj_succ by lia; reflexivity.
    + intros a Ha; apply Hall; lia.
Qed.

(** When the [k]-th attempt is the first that does not fail transiently
    and it asks for another pass, the loop goes on from attempt [k + 1]. *)
Lemma first_next remaining : forall attempt lastError lastStatus k le ls effects,
  maxRetries = attempt + Z.of_nat remaining - 1 ->
  attempt <= k <= maxRetries ->
  (forall a, attempt <= a < k -> transient (server a)) ->
  (forall ls0, attempt_once getCurrent server endpointPath identityName maxRetries
                            k ls0 = Next le ls effects) ->
  let rest := retry_loop getCurrent server endpointPath identityName maxRetries
                         (Z.to_nat (maxRetries - k)) (k + 1) le ls in
  retry_loop getCurrent server endpointPath identityName maxRetries
             remaining attempt lastError lastStatus =
  (fst rest,
   (failed_attempts attempt (Z.to_nat (k - attempt)) ++ effects ++ snd rest)%list).
Proof.
  induction remaining as [|n IH];
    intros attempt lastError lastStatus k le ls effects Hmax Hk Hall Hnext rest;
    [lia|].
  cbn [retry_loop].
  destruct (Z.eq_dec attempt k) as [-> | Hne].
  - rewrite Hnext; replace (k - k) with 0 by lia.
    unfold rest; replace (Z.to_nat (maxRetries - k)) with n by lia.
    destruct (retry_loop _ _ _ _ _ n _ _ _) as [r later]; reflexivity.
  - destruct (transient_step getCurrent server endpointPath identityName
                maxRetries attempt lastStatus) as (ls' & Hlt & _);
      [apply Hall; lia|].
    rewrite Hlt by (apply Z.ltb_lt; lia).
    rewrite (IH (attempt + 1) _ ls' k le ls effects); try lia; auto.
    + replace (k - attempt) with (Z.succ (k - (attempt + 1))) by lia.
      rewrite Z2Nat.inj_succ by lia; reflexivity.
    + intros a Ha; apply Hall; lia.
Qed.

(** Every pass of the loop begins with a request. *)
Lemma pass_starts_with_request remaining attempt lastError lastStatus :
  exists later,
    snd (retry_loop getCurrent server endpointPath identityName maxRetries
                    (S remaining) attempt lastError lastStatus) =
    Fetch attempt :: later.
Proof.
  cbn [retry_loop].
  assert (H : match attempt_once getCurrent server endpointPath identityName
                                 maxRetries attempt lastStatus with
              | Return _ effects | Next _ _ effects =>
                  exists later, effects = Fetch attempt :: later
              end).
  { unfold attempt_once, on_exception, on_write_failure.
    destruct (server attempt) as [reason | code body];
      [destruct (attempt <? maxRetries); eexists; reflexivity|].
    destruct ((200 <=? code) && (code <=? 299)).
    { destruct (updateLastActive identityName attempt);
        [destruct (attempt <? maxRetries)|]; eexists; reflexivity. }
    destruct (code =? 429);
      [destruct body as [[| | | | |]|]; try destruct (attempt <? maxRetries);
       eexists; reflexivity|].
    destruct ((400 <=? code) && (code <? 500));
      destruct body as [[| | | | |]|]; try destruct (attempt <? maxRetries);
      eexists; reflexivity. }
  destruct (attempt_once _ _ _ _ _ attempt lastStatus) as [r effects | le ls effects];
    destruct H as (later & ->).
  - eexists; reflexivity.
  - destruct (retry_loop _ _ _ _ _ remaining _ _ _) as [r rest].
    eexists; reflexivity.
Qed.

End Deciding.

Lemma attempts_of_failed attempt count :
  attempts_of (failed_attempts attempt count) = upfrom attempt count /\
  forall name, ~ In (UpdateLastActive name) (failed_attempts attempt count).
Proof.
  revert attempt; induction count as [|c IH]; intros attempt.
  - split; [reflexivity | intros name []].
  - destruct (IH (attempt + 1)) as [H1 H2]; cbn [failed_attempts]; split.
    + change (attempts_of (Fetch attempt :: Sleep (RETRY_DELAY_BASE_MS * attempt)
                             :: failed_attempts (attempt + 1) c))
        with (attempt :: attempts_of (failed_attempts (attempt + 1) c)).
      rewrite H1; reflexivity.
    + intros name [H | [H | H]]; try discriminate; exact (H2 name H).
Qed.

Lemma upfrom_snoc start count :
  (upfrom start count ++ [start + Z.of_nat count])%list = upfrom start (S count).
Proof.
  revert start; induction count as [|c IH]; intros start.
  - cbn; f_equal; lia.
  - cbn [upfrom app]; f_equal.
    replace (start + Z.of_nat (S c)) with (start + 1 + Z.of_nat c) by lia.
    apply IH.
Qed.

Section Decisive.

Context {rt : Js.Runtime} {store : IdentityWrites}.

(** X27.  A decisive answer ends the call.  With a credential, when the
    attempts before the [k]-th fail transiently and the [k]-th is
    answered with a 2xx status, the call goes on to
    [identityManager.updateLastActive] with the identity name exactly as
    the caller gave it (not the trimmed name the key was looked up with).
    If that returns, the call succeeds with the parsed body (an empty
    object if the body does not parse) after exactly [k] requests.  If it
    throws, the accepted answer is handled as a network failure: with
    attempts left the request is sent again after the pause, and on the
    last attempt the call fails with the text of the exception.  When the
    [k]-th attempt is answered with a 4xx status other than 429 and a
    body other than JSON [null], the call fails at once, without a retry
    and without a call of [updateLastActive]: the error is the body's
    [error] if truthy and "HTTP <status>" otherwise, and the status is
    recorded for diagnosis. *)
Theorem decisive_answers_end_the_call
        (getApiKey : option string -> option string) (getCurrent : option string)
        (server : Z -> FetchOutcome) (endpointPath : string)
        (identityName : option string) (maxRetries : Z)
        (key : string) (k code : Z) (body : option json) :
  getApiKey (normalizedIdentity identityName) = Some key -> key <> "" ->
  1 <= k <= maxRetries ->
  (forall a, 1 <= a < k -> transient (server a)) ->
  server k = Response code body ->
  let out := apiRequest getApiKey getCurrent server endpointPath identityName
                        maxRetries in
  let before := failed_attempts 1 (Z.to_nat (k - 1)) in
  (200 <= code <= 299 -> updateLastActive identityName k = None ->
   success (fst out) = true /\
   data (fst out) = Some (match body with Some d => d | None => JObj [] end) /\
   attempts_of (snd out) = upfrom 1 (Z.to_nat k) /\
   snd out = (before ++ [Fetch k; UpdateLastActive identityName])%list) /\
  (200 <= code <= 299 ->
   forall reason, updateLastActive identityName k = Some reason ->
   (k < maxRetries ->
    exists later,
      snd out = (before ++ [Fetch k; UpdateLastActive identityName;
                            Sleep (RETRY_DELAY_BASE_MS * k); Fetch (k + 1)]
                        ++ later)%list) /\
   (k = maxRetries ->
    success (fst out) = false /\
    Transport.error (fst out) = Some (JStr ("网络请求失败: " ++ reason)) /\
    option_map status (debug (fst out)) = Some code /\
    snd out = (before ++ [Fetch k; UpdateLastActive identityName])%list)) /\
  (400 <= code <= 499 -> code <> 429 -> body <> Some JNull ->
   success (fst out) = false /\
   Transport.error (fst out) =
   Some (or_else (oprop body "error") (JStr ("请求失败: HTTP " ++ Str.ofZ code))) /\
   option_map status (debug (fst out)) = Some code /\
   attempts_of (snd out) = upfrom 1 (Z.to_nat k) /\
   forall name, ~ In (UpdateLastActive name) (snd out)).
Proof.
  intros Hkey Hne Hk Hall E out before.
  assert (Hout : out = retry_loop getCurrent server endpointPath identityName
                         maxRetries (Z.to_nat maxRetries) 1 (JStr "") 0).
  { unfold out, apiRequest; rewrite Hkey.
    destruct key as [|c key']; [congruence | reflexivity]. }
  destruct (attempts_of_failed 1 (Z.to_nat (k - 1))) as [Hatt Hnone].
  fold before in Hatt, Hnone.
  assert (Hup : (upfrom 1 (Z.to_nat (k - 1)) ++ [k])%list = upfrom 1 (Z.to_nat k)).
  { replace (Z.to_nat k) with (S (Z.to_nat (k - 1))) by lia.
    rewrite <- upfrom_snoc; f_equal; f_equal; lia. }
  assert (Hok : 200 <= code <= 299 -> (200 <=? code) && (code <=? 299) = true)
    by (intros Hc; apply andb_true_iff; split; apply Z.leb_le; lia).
  split; [|split].
  - intros Hcode Hwrite.
    rewrite Hout, (first_return getCurrent server endpointPath identityName
                     maxRetries (Z.to_nat maxRetries) 1 (JStr "") 0 k
                     {| success := true;
                        data := Some (match body with Some d => d | None => JObj [] end);
                        error := None; hint := None; debug := None;
                        rateLimit := None |}
                     [Fetch k; UpdateLastActive identityName]); try lia; auto.
    + cbn [fst snd success data]; fold before; rewrite attempts_of_app, Hatt.
      repeat split; exact Hup.
    + intros ls; unfold attempt_once; rewrite E, (Hok Hcode), Hwrite.
      reflexivity.
  - intros Hcode reason Hwrite; split.
    + intros Hlt.
      pose proof (first_next getCurrent server endpointPath identityName
                    maxRetries (Z.to_nat maxRetries) 1 (JStr "") 0 k
                    (JStr ("网络请求失败: " ++ reason)) code
                    [Fetch k; UpdateLastActive identityName;
                     Sleep (RETRY_DELAY_BASE_MS * k)]) as Hn.
      cbv zeta in Hn; rewrite Hout, Hn; try lia; auto.
      * replace (Z.to_nat (maxRetries - k))
          with (S (Z.to_nat (maxRetries - k - 1))) by lia.
        destruct (pass_starts_with_request getCurrent server endpointPath
                    identityName maxRetries (Z.to_nat (maxRetries - k - 1))
                    (k + 1) (JStr ("网络请求失败: " ++ reason)) code)
          as (later & Hl).
        exists later; cbn [snd]; fold before; rewrite Hl; reflexivity.
      * intros ls; unfold attempt_once, on_write_failure.
        rewrite E, (Hok Hcode), Hwrite.
        replace (k <? maxRetries) with true by (symmetry; apply Z.ltb_lt; lia).
        reflexivity.
    + intros Hlast.
      pose proof (first_next getCurrent server endpointPath identityName
                    maxRetries (Z.to_nat maxRetries) 1 (JStr "") 0 k
                    (JStr ("网络请求失败: " ++ reason)) code
                    [Fetch k; UpdateLastActive identityName]) as Hn.
      cbv zeta in Hn; rewrite Hout, Hn; try lia; auto.
      * replace (Z.to_nat (maxRetries - k)) with O by lia.
        cbn [retry_loop fst snd exhausted success Transport.error debug
             option_map status]; fold before.
        rewrite app_nil_r; repeat split.
      * intros ls; unfold attempt_once, on_write_failure.
        rewrite E, (Hok Hcode), Hwrite.
        replace (k <? maxRetries) with false by (symmetry; apply Z.ltb_ge; lia).
        reflexivity.
  - intros Hcode Hnot Hbody.
    assert (Hstep : exists r,
               (forall ls, attempt_once getCurrent server endpointPath identityName
                                        maxRetries k ls = Return r [Fetch k]) /\
               success r = false /\
               Transport.error r =
               Some (or_else (oprop body "error")
                             (JStr ("请求失败: HTTP " ++ Str.ofZ code))) /\
               option_map status (debug r) = Some code).
    { unfold attempt_once; rewrite E.
      replace ((200 <=? code) && (code <=? 299)) with false
        by (symmetry; apply andb_false_iff; right; apply Z.leb_gt; lia).
      replace (code =? 429) with false by (symmetry; apply Z.eqb_neq; exact Hnot).
      replace ((400 <=? code) && (code <? 500)) with true
        by (symmetry; apply andb_true_iff; split;
            [apply Z.leb_le | apply Z.ltb_lt]; lia).
      destruct body as [[| b | n | s | items | props] |]; try congruence;
        eexists; (split; [intros ls; reflexivity | repeat split]). }
    destruct Hstep as (r & Hret & Hs & He & Hst).
    rewrite Hout, (first_return getCurrent server endpointPath identityName
                     maxRetries (Z.to_nat maxRetries) 1 (JStr "") 0 k r
                     [Fetch k]); try lia; auto.
    cbn [fst snd]; fold before; rewrite attempts_of_app, Hatt.
    repeat split; auto.
    intros name Hin; apply in_app_or in Hin; destruct Hin as [Hin | [Hin | []]];
      [exact (Hnone name Hin) | discriminate].
Qed.

End Decisive.

(** One bad gateway, then a refusal: two requests, no third.  An
    accepted request for the identity [" tester "]: one request, and the
    name is passed on with its blanks.  An accepted request when the store
    cannot be written: with one attempt allowed the call fails with the
    text of the exception, and with three the request is sent again. *)
Lemma decisive_answers_end_the_call_witness :
  (attempts_of (snd (apiRequest some_key None down_then_forbidden "/posts" None 3))
   = [1; 2] /\
   Transport.error (fst (apiRequest some_key None down_then_forbidden "/posts" None 3))
   = Some (JStr "Forbidden")) /\
  (success (fst (apiRequest some_key None Tools.accepting "/posts"
                            (Some " tester ") 3)) = true /\
   snd (apiRequest some_key None Tools.accepting "/posts" (Some " tester ") 3)
   = [Fetch 1; UpdateLastActive (Some " tester ")]) /\
  (success (fst (apiRequest (store := read_only) some_key None Tools.accepting
                            "/posts" None 1)) = false /\
   Transport.error (fst (apiRequest (store := read_only) some_key None
                                    Tools.accepting "/posts" None 1))
   = Some (JStr ("网络请求失败: "
                 ++ "Error: 保存身份配置失败: Error: EACCES: permission denied")) /\
   snd (apiRequest (store := read_only) some_key None Tools.accepting
                   "/posts" None 1)
   = [Fetch 1; UpdateLastActive None]) /\
  (exists later,
      snd (apiRequest (store := read_only) some_key None Tools.accepting
                      "/posts" None 3)
      = ([Fetch 1; UpdateLastActive None; Sleep 1000; Fetch 2] ++ later)%list).
Proof.
  split; [|split; [|split]].
  - destruct (decisive_answers_end_the_call some_key None down_then_forbidden
                "/posts" None 3 "moltbook_sk_test" 2 403
                (Some (JObj [("error", JStr "Forbidden")])))
      as (_ & _ & H).
    + reflexivity.
    + discriminate.
    + lia.
    + intros a Ha; replace a with 1 by lia; simpl; lia.
    + reflexivity.
    + destruct H as (_ & He & _ & Ha & _); [lia | lia | discriminate |].
      split; [exact Ha | exact He].
  - destruct (decisive_answers_end_the_call some_key None Tools.accepting
                "/posts" (Some " tester ") 3 "moltbook_sk_test" 1 201
                (Some (JObj [("post", JObj [("id", JStr "p9")])])))
      as (H & _).
    + reflexivity.
    + discriminate.
    + lia.
    + intros a Ha; lia.
    + reflexivity.
    + destruct H as (Hs & _ & _ & He); [lia | reflexivity |].
      split; [exact Hs | exact He].
  - destruct (decisive_answers_end_the_call (store := read_only)
                some_key None Tools.accepting
                "/posts" None 1 "moltbook_sk_test" 1 201
                (Some (JObj [("post", JObj [("id", JStr "p9")])])))
      as (_ & H & _).
    + reflexivity.
    + discriminate.
    + lia.
    + intros a Ha; lia.
    + reflexivity.
    + destruct (H ltac:(lia) _ eq_refl) as [_ H1].
      destruct (H1 eq_refl) as (Hs & He & _ & Hf).
      split; [exact Hs | split; [exact He | exact Hf]].
  - destruct (decisive_answers_end_the_call (store := read_only)
                some_key None Tools.accepting
                "/posts" None 3 "moltbook_sk_test" 1 201
                (Some (JObj [("post", JObj [("id", JStr "p9")])])))
      as (_ & H & _).
    + reflexivity.
    + discriminate.
    + lia.
    + intros a Ha; lia.
    + reflexivity.
    + destruct (H ltac:(lia) _ eq_refl) as [H1 _].
      destruct (H1 ltac:(lia)) as (later & Hl).
      exists later; exact Hl.
Defined.

End AttemptFacts.

(* ====================================================================== *)
(** * Properties of the accumulation of streamed tool calls *)
(* ====================================================================== *)

Section ChunkFacts.
Import Agent.
Import Chunks.
Local Open Scope string_scope.
Local Open Scope Z_scope.

Lemma see_nodup seen i : NoDup seen -> NoDup (see seen i).
Proof.
  intros Hn; unfold see; destruct (existsb (Z.eqb i) seen) eqn:E; [exact Hn|].
  apply NoDup_app; repeat split; auto.
  - constructor; [intros [] | constructor].
  - intros x Hx [<- | []].
    assert (existsb (Z.eqb i) seen = true)
      by (apply existsb_exists; exists i; split; [exact Hx | apply Z.eqb_refl]).
    congruence.
Qed.

Lemma fold_see_nodup indices : forall seen,
  NoDup seen -> NoDup (fold_left see indices seen).
Proof.
  induction indices as [|i indices IH]; intros seen Hn; cbn; [exact Hn|].
  apply IH, see_nodup, Hn.
Qed.

Lemma entry_of_app i l1 l2 :
  entry_of i (l1 ++ l2) =
  match entry_of i l1 with
  | Some p => Some p
  | None => entry_of i l2
  end.
Proof.
  unfold entry_of; induction l1 as [|e l1 IH]; cbn; [reflexivity|].
  destruct (fst e =? i); [reflexivity | exact IH].
Qed.

Lemma entry_of_update i idx f pending :
  entry_of i (update idx f pending) =
  if idx =? i then option_map f (entry_of i pending) else entry_of i pending.
Proof.
  unfold entry_of, update; induction pending as [|[k p] pending IH]; cbn.
  - destruct (idx =? i); reflexivity.
  - destruct (Z.eqb_spec k idx) as [-> | Hk]; cbn.
    + destruct (Z.eqb_spec idx i) as [-> | Hi]; [reflexivity|].
      rewrite IH; destruct (Z.eqb_spec idx i); [congruence | reflexivity].
    + destruct (Z.eqb_spec k i) as [-> | Hi].
      * destruct (Z.eqb_spec idx i); [congruence | reflexivity].
      * exact IH.
Qed.

Lemma entry_of_none i pending :
  has i pending = false -> entry_of i pending = None.
Proof.
  unfold has, entry_of; induction pending as [|e pending IH]; cbn;
    [reflexivity|].
  destruct (fst e =? i); cbn; [discriminate | exact IH].
Qed.

Lemma entry_of_some i pending :
  has i pending = true -> exists p, entry_of i pending = Some p.
Proof.
  unfold has, entry_of; induction pending as [|e pending IH]; cbn;
    [discriminate|].
  destruct (fst e =? i); cbn; [intros _; eexists; reflexivity | exact IH].
Qed.

Abbreviation started := (fun o : option Pending =>
                           match o with Some p => p | None => blank end).

(** One delta, seen from the entry of an index. *)
Lemma accumulate_entry i pending d :
  entry_of i (accumulate pending d) =
  if index d =? i then Some (absorb (started (entry_of i pending)) d)
  else entry_of i pending.
Proof.
  unfold accumulate.
  destruct (has (index d) pending) eqn:Eh.
  - rewrite entry_of_update.
    destruct (Z.eqb_spec (index d) i) as [<- | _]; [|reflexivity].
    destruct (entry_of_some _ _ Eh) as (p & ->); reflexivity.
  - rewrite entry_of_update, entry_of_app.
    destruct (Z.eqb_spec (index d) i) as [<- | Hne].
    + rewrite (entry_of_none _ _ Eh); unfold entry_of; cbn.
      rewrite Z.eqb_refl; cbn; unfold absorb, blank; cbn.
      unfold or_empty.
      destruct (nonempty (delta_id d)), (nonempty (delta_name d)); reflexivity.
    + destruct (entry_of i pending); [reflexivity|].
      unfold entry_of; cbn.
      destruct (Z.eqb_spec (index d) i); [congruence | reflexivity].
Qed.

Lemma accumulate_all_entries ds : forall i pending,
  entry_of i (fold_left accumulate ds pending) =
  match for_index i ds, entry_of i pending with
  | [], before => before
  | own, before => Some (fold_left absorb own (started before))
  end.
Proof.
  induction ds as [|d ds IH]; intros i pending; cbn [fold_left for_index filter].
  - destruct (entry_of i pending); reflexivity.
  - rewrite IH, accumulate_entry; fold (for_index i ds).
    destruct (index d =? i); cbn [fold_left].
    + destruct (for_index i ds); reflexivity.
    + reflexivity.
Qed.

Lemma consume_all cs : forall fullText pending,
  snd (fst (consume cs fullText pending)) =
  fold_left (fun acc c => acc ++ or_empty (delta_content c)) cs fullText /\
  snd (consume cs fullText pending) =
  fold_left accumulate (deltas_of cs) pending.
Proof.
  induction cs as [|c cs IH]; intros fullText pending; cbn [consume];
    [split; reflexivity|].
  specialize (IH (fullText ++ or_empty (delta_content c))
                 (fold_left accumulate (delta_tool_calls c) pending)).
  destruct (consume cs _ _) as [[later ft] pd]; cbn [fst snd] in *.
  destruct IH as [-> ->]; split; [reflexivity|].
  unfold deltas_of; cbn [flat_map]; rewrite fold_left_app; reflexivity.
Qed.

Lemma entry_of_in i p pending :
  NoDup (map fst pending) -> In (i, p) pending -> entry_of i pending = Some p.
Proof.
  unfold entry_of; induction pending as [|[k q] pending IH]; cbn;
    intros Hn Hin; [contradiction|].
  inversion Hn as [|? ? Hk Hrest]; subst.
  destruct Hin as [[= -> ->] | Hin].
  - rewrite Z.eqb_refl; reflexivity.
  - destruct (Z.eqb_spec k i) as [-> | _]; [|auto].
    exfalso; apply Hk; apply (in_map fst) in Hin; exact Hin.
Qed.

(** X28.  What a streamed completion adds up to.  After the chunks of a
    completion are consumed, the text is the text pieces joined in order
    of arrival, and there is exactly one pending call per index, in the
    order in which the indices were first seen; the call of an index
    carries the last non-empty id and the last non-empty name among the
    deltas of that index, and its arguments are the argument pieces of
    that index joined in order of arrival, however the deltas of
    different calls are interleaved. *)
Theorem streamed_calls_are_assembled_by_index (cs : list Chunk) :
  snd (fst (consume cs "" [])) = spoken cs /\
  snd (consume cs "" []) =
  map (fun i => (i, assembled i (deltas_of cs))) (first_seen (delta_indices cs)) /\
  NoDup (first_seen (delta_indices cs)) /\
  (forall i, In i (first_seen (delta_indices cs)) <->
             exists d, In d (deltas_of cs) /\ index d = i).
Proof.
  destruct (consume_all cs "" []) as [Htext Hpending].
  pose proof (consume_keys cs "" []) as Hkeys; cbn [map] in Hkeys.
  fold (first_seen (delta_indices cs)) in Hkeys.
  assert (Hnodup : NoDup (first_seen (delta_indices cs)))
    by (apply fold_see_nodup; constructor).
  split; [exact Htext|]; split; [|split; [exact Hnodup|]].
  - rewrite <- Hkeys.
    assert (Hn : NoDup (map fst (snd (consume cs "" []))))
      by (rewrite Hkeys; exact Hnodup).
    assert (Hentries : forall i p, In (i, p) (snd (consume cs "" [])) ->
                                   p = assembled i (deltas_of cs)).
    { intros i p Hin.
      pose proof (entry_of_in i p _ Hn Hin) as He.
      rewrite Hpending, accumulate_all_entries in He.
      unfold assembled; cbn in He.
      destruct (for_index i (deltas_of cs)) eqn:Ef; [discriminate|].
      injection He as <-; reflexivity. }
    clear - Hentries.
    induction (snd (consume cs "" [])) as [|[i p] l IH]; [reflexivity|].
    cbn [map fst]; f_equal.
    + f_equal; apply Hentries; left; reflexivity.
    + apply IH; intros j q Hq; apply Hentries; right; exact Hq.
  - intros i; rewrite <- Hkeys, Hpending.
    assert (G : forall ds pending,
               In i (map fst (fold_left accumulate ds pending)) <->
               In i (map fst pending) \/ exists d, In d ds /\ index d = i).
    { induction ds as [|d ds IHds]; intros pending; cbn [fold_left].
      - split; [auto | intros [H | (d & [] & _)]; exact H].
      - rewrite IHds, accumulate_keys; unfold see.
        destruct (existsb (Z.eqb (index d)) (map fst pending)) eqn:E.
        + split.
          * intros [H | (d' & Hd' & Hi)]; [auto | right; exists d'; split; [right|]; auto].
          * intros [H | (d' & [<- | Hd'] & Hi)]; [auto | | right; exists d'; auto].
            left; apply existsb_exists in E; destruct E as (x & Hx & Heq).
            apply Z.eqb_eq in Heq; subst; exact Hx.
        + rewrite in_app_iff; cbn [In]; split.
          * intros [[H | [H | []]] | (d' & Hd' & Hi)]; auto.
            -- right; exists d; split; [left; reflexivity | exact H].
            -- right; exists d'; split; [right|]; auto.
          * intros [H | (d' & [<- | Hd'] & Hi)]; [auto | | right; exists d'; auto].
            left; right; left; exact Hi. }
    rewrite G; cbn [map In]; split; [intros [[] | H]; exact H | auto].
Qed.

End ChunkFacts.
